(** * Session orchestration of the voice-live chat client

    A shallow embedding of the handlers of
    [src/react/src/app/chat-interface.tsx] ([handleConnect], [disconnect],
    [handleResponse], [handleInputAudio], [sendMessage]) as state-passing
    functions in a small state-and-exception monad.

    - React state ([useState]) and refs ([useRef]) are fields of [State].
    - The message log is an array of references into a store of [Message]
      objects: the source pushes one object and later mutates it in place
      ([message.content += text]) while the array holds the same object.
    - Every call that leaves the component (transport, audio handler, lookup
      client, console) is appended to [trace], so orderings can be read off
      the trace.  Whether such a call throws is decided by the environment
      [Env], indexed by the position of the call in the trace.
    - An [await] is a sequencing point; state updaters queued by [setX] are
      applied in program order.
    - The parameters panel (turn detection, voice, avatar, tools, predefined
      scenarios, the answer of [/config]) is a record [Panel]; its handlers
      ([applyScenario], the tool checkboxes, [getAvatarConfig],
      [fetchConfig]) are functions on the settings and the panel, and
      [toggleRecording], [whenGreeting], [whenInactive] and
      [downloadRecording] are modelled like the other handlers. *)

From Stdlib Require Import String Ascii List Bool Arith Lia DecimalString QArith.
From stdpp Require Import base option list strings gmap.
Import ListNotations.

(** ** JavaScript strings *)

(** Truthiness of a string: only the empty string is falsy. *)
Definition truthy (s : string) : bool :=
  match s with
  | EmptyString => false
  | String _ _ => true
  end.

(** Truthiness of a reference that may be [null]. *)
Definition held {A} (r : option A) : bool :=
  match r with
  | Some _ => true
  | None => false
  end.

(** [a || b] on strings where [a] may be [undefined]. *)
Definition or_default (a : option string) (b : string) : string :=
  match a with
  | Some x => if truthy x then x else b
  | None => b
  end.

(** White space removed by [String.prototype.trim], restricted to the
    one-byte characters: TAB, LF, VT, FF, CR and SPACE.  The no-break
    space, the byte-order mark, the line and paragraph separators and the
    other Unicode space separators, which [trim] removes as well, are
    outside this model. *)
Definition is_white_space (c : ascii) : bool :=
  let n := nat_of_ascii c in
  ((9 <=? n) && (n <=? 13)) || (n =? 32).

Fixpoint trim_start (s : string) : string :=
  match s with
  | EmptyString => EmptyString
  | String c s' => if is_white_space c then trim_start s' else s
  end.

Definition string_rev (s : string) : string :=
  string_of_list_ascii (rev (list_ascii_of_string s)).

Definition trim (s : string) : string :=
  string_rev (trim_start (string_rev (trim_start s))).

(** [hay.includes(needle)]. *)
Fixpoint includes (needle hay : string) : bool :=
  String.prefix needle hay ||
  match hay with
  | EmptyString => false
  | String _ hay' => includes needle hay'
  end.

(** Number of positions of [hay] at which [needle] starts. *)
Fixpoint occurrences (needle hay : string) : nat :=
  (if String.prefix needle hay then 1 else 0) +
  match hay with
  | EmptyString => 0
  | String _ hay' => occurrences needle hay'
  end.

Definition decimal (n : nat) : string := NilZero.string_of_uint (Nat.to_uint n).

(** A field rendered with the [2-digit] option. *)
Definition two_digit (n : nat) : string :=
  if n <? 10 then "0" +:+ decimal n else decimal n.

(** ** Data model *)

Inductive MessageType := user | assistant | status | error.

Record Message := { type : MessageType; content : string }.

Inductive Mode := model_mode | agent_mode.

Inductive Credential :=
| TokenCredential (token : string)
| KeyCredential (key : string).

Inductive ModelOrAgent :=
| Model (name : string)
| Agent (agent_id project_name agent_access_token : string).

(** The arguments [new RTClient] was built from. *)
Record RTClient := {
  client_url : string;
  client_auth : Credential;
  modelOrAgent : ModelOrAgent;
  apiVersion : string
}.

Record SearchClient := {
  search_endpoint : string;
  search_index : string;
  search_key : string
}.

Inductive Role := role_user | role_assistant | role_system.

(** The argument of [sendItem]. *)
Inductive OutItem :=
| message_item (role : Role) (input_text : string)
| function_call_output (output : string) (call_id : string).

(** A lazy sequence consumed by [for await]: the fragments it yields and,
    when it fails, the error it rejects with after the last fragment. *)
Record Stream (A : Type) := { chunks : list A; rejects : option string }.
Arguments chunks {A} _.
Arguments rejects {A} _.

Definition Bytes := list Byte.byte.

(** A content part of a message item.  For an audio part the two lazy
    sequences are consumed by two tasks at once; [arrival] is the order in
    which their steps are served: [true] for the transcript task, [false]
    for the playback task. *)
Inductive ContentPart :=
| text_part (textChunks : Stream string)
| audio_part (transcriptChunks : Stream string) (audioChunks : Stream Bytes)
             (arrival : list bool)
| other_part.

Inductive Item :=
| message (role : Role) (parts : Stream ContentPart)
| function_call (functionName arguments callId : string)
| other_item.

Inductive ResponseStatus := completed | failed | in_progress.

Record RTResponse := {
  items : Stream Item;
  response_status : ResponseStatus;
  statusDetails : string      (* JSON.stringify(response.statusDetails) *)
}.

Record RTInputAudioItem := { transcription : option string }.

Inductive ServerEvent :=
| response_event (r : RTResponse)
| input_audio_event (i : RTInputAudioItem).

(** The part of the [configure] request that depends on plain settings; the
    voice, avatar, turn-detection, tool and temperature fields are passed
    through to the service and are not represented. *)
Record SessionRequest := {
  req_instructions : option string;
  req_transcription_model : string;
  req_language : option string;
  input_audio_noise_reduction : bool;
  input_audio_echo_cancellation : bool
}.

Record Session := { session_id : string; session_avatar : bool }.

Record FetchResponse := { ok : bool; config_endpoint : string; config_token : string }.

(** A search hit: the selected fields of [result.document]. *)
Definition Document := list (string * string).

Record DateTime := {
  weekday : nat;       (* 0 = Sunday *)
  year : nat;
  month : nat;         (* 0 = January *)
  day : nat;
  hour : nat;          (* 0 .. 23 *)
  minute : nat;
  second : nat;
  timeZoneName : string
}.

(** ** Calls that leave the component *)

Inductive AudioCall :=
| stopStreamingPlayback
| startStreamingPlayback
| playChunk (audio : Bytes)
| stopRecordAnimation
| stopPlayChunkAnimation
| stopRecording
| startSessionRecording
| stopSessionRecording
| hasRecordedAudio.

Inductive Event :=
| EvSetMessages (m : Message)            (* setMessages(prev => [...prev, m]) *)
| EvFetchConfig                          (* fetch("/config") and response.json() *)
| EvNewURL (endpoint : string)
| EvNewRTClient (c : RTClient)
| EvNewSearchClient (c : SearchClient)
| EvConfigure (r : SessionRequest)
| EvGetLocalDescription
| EvStartResponseListener
| EvClose
| EvClearVideo
| EvSendItem (i : OutItem)
| EvGenerateResponse (additional_instructions : option string)
| EvSearch (query : string) (top : nat) (select : list string)
| EvAudio (a : AudioCall)
| EvUpdateActivity (what : string)
| EvProactiveStart
| EvProactiveStop
| EvWaitForCompletion
| EvJSONParse (text : string)
| EvConsoleError (label : string) (err : string).

(** The environment: what the outside world answers.  The natural number is
    the length of the trace when the call is made. *)
Record Env := {
  throws : nat -> Event -> option string;
  fetch_config : nat -> FetchResponse;
  configure_session : nat -> Session;
  now : nat -> DateTime;
  parsed_query : string -> string;    (* `${JSON.parse(text).query}` *)
  search_results : nat -> string -> Stream Document;
  recorded_audio : nat -> bool          (* hasRecordedAudio() *)
}.

(** An environment in which no call throws. *)
Definition quiet (env : Env) : Prop := forall n ev, throws env n ev = None.

(** ** Component state *)

(** Settings held in React state that the handlers only read, except for
    [endpoint] and [entraToken], which the token refresh of [handleConnect]
    replaces for later renders. *)
Record Settings := {
  apiKey : string;
  endpoint : string;
  entraToken : string;
  model : string;
  mode : Mode;
  agentProjectName : string;
  agentId : string;
  instructions : string;
  recognitionLanguage : string;
  useNS : bool;
  useEC : bool;
  enableProactive : bool;
  enableSearch : bool;
  searchEndpoint : string;
  searchApiKey : string;
  searchIndex : string;
  searchContentField : string;
  searchIdentifierField : string;
  configLoaded : bool
}.

Record State := {
  settings : Settings;
  (* useState *)
  messages : list nat;            (* the log: references into [heap] *)
  currentMessage : string;
  isRecording : bool;
  isConnected : bool;
  isConnecting : bool;
  hasRecording : bool;
  sessionId : string;
  (* useRef *)
  clientRef : option RTClient;
  audioHandlerRef : bool;         (* is an AudioHandler held *)
  proactiveManagerRef : bool;     (* is a ProactiveEventManager held *)
  searchClientRef : option SearchClient;
  isUserSpeaking : bool;
  (* module-level *)
  peerConnection : bool;
  (* object store and call trace *)
  heap : list Message;
  trace : list Event
}.

Definition set_settings (f : Settings -> Settings) (s : State) : State :=
  {| settings := f (settings s); messages := messages s;
     currentMessage := currentMessage s; isRecording := isRecording s;
     isConnected := isConnected s; isConnecting := isConnecting s;
     hasRecording := hasRecording s; sessionId := sessionId s;
     clientRef := clientRef s; audioHandlerRef := audioHandlerRef s;
     proactiveManagerRef := proactiveManagerRef s;
     searchClientRef := searchClientRef s; isUserSpeaking := isUserSpeaking s;
     peerConnection := peerConnection s; heap := heap s; trace := trace s |}.

Definition set_messages (f : list nat -> list nat) (s : State) : State :=
  {| settings := settings s; messages := f (messages s);
     currentMessage := currentMessage s; isRecording := isRecording s;
     isConnected := isConnected s; isConnecting := isConnecting s;
     hasRecording := hasRecording s; sessionId := sessionId s;
     clientRef := clientRef s; audioHandlerRef := audioHandlerRef s;
     proactiveManagerRef := proactiveManagerRef s;
     searchClientRef := searchClientRef s; isUserSpeaking := isUserSpeaking s;
     peerConnection := peerConnection s; heap := heap s; trace := trace s |}.

Definition set_currentMessage (v : string) (s : State) : State :=
  {| settings := settings s; messages := messages s;
     currentMessage := v; isRecording := isRecording s;
     isConnected := isConnected s; isConnecting := isConnecting s;
     hasRecording := hasRecording s; sessionId := sessionId s;
     clientRef := clientRef s; audioHandlerRef := audioHandlerRef s;
     proactiveManagerRef := proactiveManagerRef s;
     searchClientRef := searchClientRef s; isUserSpeaking := isUserSpeaking s;
     peerConnection := peerConnection s; heap := heap s; trace := trace s |}.

Definition set_isRecording (v : bool) (s : State) : State :=
  {| settings := settings s; messages := messages s;
     currentMessage := currentMessage s; isRecording := v;
     isConnected := isConnected s; isConnecting := isConnecting s;
     hasRecording := hasRecording s; sessionId := sessionId s;
     clientRef := clientRef s; audioHandlerRef := audioHandlerRef s;
     proactiveManagerRef := proactiveManagerRef s;
     searchClientRef := searchClientRef s; isUserSpeaking := isUserSpeaking s;
     peerConnection := peerConnection s; heap := heap s; trace := trace s |}.

Definition set_isConnected (v : bool) (s : State) : State :=
  {| settings := settings s; messages := messages s;
     currentMessage := currentMessage s; isRecording := isRecording s;
     isConnected := v; isConnecting := isConnecting s;
     hasRecording := hasRecording s; sessionId := sessionId s;
     clientRef := clientRef s; audioHandlerRef := audioHandlerRef s;
     proactiveManagerRef := proactiveManagerRef s;
     searchClientRef := searchClientRef s; isUserSpeaking := isUserSpeaking s;
     peerConnection := peerConnection s; heap := heap s; trace := trace s |}.

Definition set_isConnecting (v : bool) (s : State) : State :=
  {| settings := settings s; messages := messages s;
     currentMessage := currentMessage s; isRecording := isRecording s;
     isConnected := isConnected s; isConnecting := v;
     hasRecording := hasRecording s; sessionId := sessionId s;
     clientRef := clientRef s; audioHandlerRef := audioHandlerRef s;
     proactiveManagerRef := proactiveManagerRef s;
     searchClientRef := searchClientRef s; isUserSpeaking := isUserSpeaking s;
     peerConnection := peerConnection s; heap := heap s; trace := trace s |}.

Definition set_hasRecording (v : bool) (s : State) : State :=
  {| settings := settings s; messages := messages s;
     currentMessage := currentMessage s; isRecording := isRecording s;
     isConnected := isConnected s; isConnecting := isConnecting s;
     hasRecording := v; sessionId := sessionId s;
     clientRef := clientRef s; audioHandlerRef := audioHandlerRef s;
     proactiveManagerRef := proactiveManagerRef s;
     searchClientRef := searchClientRef s; isUserSpeaking := isUserSpeaking s;
     peerConnection := peerConnection s; heap := heap s; trace := trace s |}.

Definition set_sessionId (v : string) (s : State) : State :=
  {| settings := settings s; messages := messages s;
     currentMessage := currentMessage s; isRecording := isRecording s;
     isConnected := isConnected s; isConnecting := isConnecting s;
     hasRecording := hasRecording s; sessionId := v;
     clientRef := clientRef s; audioHandlerRef := audioHandlerRef s;
     proactiveManagerRef := proactiveManagerRef s;
     searchClientRef := searchClientRef s; isUserSpeaking := isUserSpeaking s;
     peerConnection := peerConnection s; heap := heap s; trace := trace s |}.

Definition set_clientRef (v : option RTClient) (s : State) : State :=
  {| settings := settings s; messages := messages s;
     currentMessage := currentMessage s; isRecording := isRecording s;
     isConnected := isConnected s; isConnecting := isConnecting s;
     hasRecording := hasRecording s; sessionId := sessionId s;
     clientRef := v; audioHandlerRef := audioHandlerRef s;
     proactiveManagerRef := proactiveManagerRef s;
     searchClientRef := searchClientRef s; isUserSpeaking := isUserSpeaking s;
     peerConnection := peerConnection s; heap := heap s; trace := trace s |}.

Definition set_proactiveManagerRef (v : bool) (s : State) : State :=
  {| settings := settings s; messages := messages s;
     currentMessage := currentMessage s; isRecording := isRecording s;
     isConnected := isConnected s; isConnecting := isConnecting s;
     hasRecording := hasRecording s; sessionId := sessionId s;
     clientRef := clientRef s; audioHandlerRef := audioHandlerRef s;
     proactiveManagerRef := v;
     searchClientRef := searchClientRef s; isUserSpeaking := isUserSpeaking s;
     peerConnection := peerConnection s; heap := heap s; trace := trace s |}.

Definition set_searchClientRef (v : option SearchClient) (s : State) : State :=
  {| settings := settings s; messages := messages s;
     currentMessage := currentMessage s; isRecording := isRecording s;
     isConnected := isConnected s; isConnecting := isConnecting s;
     hasRecording := hasRecording s; sessionId := sessionId s;
     clientRef := clientRef s; audioHandlerRef := audioHandlerRef s;
     proactiveManagerRef := proactiveManagerRef s;
     searchClientRef := v; isUserSpeaking := isUserSpeaking s;
     peerConnection := peerConnection s; heap := heap s; trace := trace s |}.

Definition set_isUserSpeaking (v : bool) (s : State) : State :=
  {| settings := settings s; messages := messages s;
     currentMessage := currentMessage s; isRecording := isRecording s;
     isConnected := isConnected s; isConnecting := isConnecting s;
     hasRecording := hasRecording s; sessionId := sessionId s;
     clientRef := clientRef s; audioHandlerRef := audioHandlerRef s;
     proactiveManagerRef := proactiveManagerRef s;
     searchClientRef := searchClientRef s; isUserSpeaking := v;
     peerConnection := peerConnection s; heap := heap s; trace := trace s |}.

Definition set_peerConnection (v : bool) (s : State) : State :=
  {| settings := settings s; messages := messages s;
     currentMessage := currentMessage s; isRecording := isRecording s;
     isConnected := isConnected s; isConnecting := isConnecting s;
     hasRecording := hasRecording s; sessionId := sessionId s;
     clientRef := clientRef s; audioHandlerRef := audioHandlerRef s;
     proactiveManagerRef := proactiveManagerRef s;
     searchClientRef := searchClientRef s; isUserSpeaking := isUserSpeaking s;
     peerConnection := v; heap := heap s; trace := trace s |}.

Definition set_heap (f : list Message -> list Message) (s : State) : State :=
  {| settings := settings s; messages := messages s;
     currentMessage := currentMessage s; isRecording := isRecording s;
     isConnected := isConnected s; isConnecting := isConnecting s;
     hasRecording := hasRecording s; sessionId := sessionId s;
     clientRef := clientRef s; audioHandlerRef := audioHandlerRef s;
     proactiveManagerRef := proactiveManagerRef s;
     searchClientRef := searchClientRef s; isUserSpeaking := isUserSpeaking s;
     peerConnection := peerConnection s; heap := f (heap s); trace := trace s |}.

Definition set_trace (f : list Event -> list Event) (s : State) : State :=
  {| settings := settings s; messages := messages s;
     currentMessage := currentMessage s; isRecording := isRecording s;
     isConnected := isConnected s; isConnecting := isConnecting s;
     hasRecording := hasRecording s; sessionId := sessionId s;
     clientRef := clientRef s; audioHandlerRef := audioHandlerRef s;
     proactiveManagerRef := proactiveManagerRef s;
     searchClientRef := searchClientRef s; isUserSpeaking := isUserSpeaking s;
     peerConnection := peerConnection s; heap := heap s; trace := f (trace s) |}.

Definition set_endpoint (v : string) (c : Settings) : Settings :=
  {| apiKey := apiKey c; endpoint := v; entraToken := entraToken c;
     model := model c; mode := mode c; agentProjectName := agentProjectName c;
     agentId := agentId c; instructions := instructions c;
     recognitionLanguage := recognitionLanguage c; useNS := useNS c;
     useEC := useEC c; enableProactive := enableProactive c;
     enableSearch := enableSearch c; searchEndpoint := searchEndpoint c;
     searchApiKey := searchApiKey c; searchIndex := searchIndex c;
     searchContentField := searchContentField c;
     searchIdentifierField := searchIdentifierField c;
     configLoaded := configLoaded c |}.

Definition set_entraToken (v : string) (c : Settings) : Settings :=
  {| apiKey := apiKey c; endpoint := endpoint c; entraToken := v;
     model := model c; mode := mode c; agentProjectName := agentProjectName c;
     agentId := agentId c; instructions := instructions c;
     recognitionLanguage := recognitionLanguage c; useNS := useNS c;
     useEC := useEC c; enableProactive := enableProactive c;
     enableSearch := enableSearch c; searchEndpoint := searchEndpoint c;
     searchApiKey := searchApiKey c; searchIndex := searchIndex c;
     searchContentField := searchContentField c;
     searchIdentifierField := searchIdentifierField c;
     configLoaded := configLoaded c |}.

(** The log as the presentation layer reads it: each reference resolved in
    the object store. *)
Definition rendered (s : State) : list Message :=
  omap (fun l => heap s !! l) (messages s).

(** ** The handler monad: state and exceptions *)

Inductive Res (A : Type) :=
| Val (a : A)
| Exn (e : string).
Arguments Val {A} a.
Arguments Exn {A} e.

Definition M (A : Type) : Type := State -> Res A * State.

Definition ret {A} (a : A) : M A := fun s => (Val a, s).

Definition throw {A} (e : string) : M A := fun s => (Exn e, s).

Definition bind {A B} (m : M A) (k : A -> M B) : M B :=
  fun s =>
    match m s with
    | (Val a, s') => k a s'
    | (Exn e, s') => (Exn e, s')
    end.

(** [try { m } catch (e) { h e }]. *)
Definition try_catch {A} (m : M A) (h : string -> M A) : M A :=
  fun s =>
    match m s with
    | (Val a, s') => (Val a, s')
    | (Exn e, s') => h e s'
    end.

(** [try { m } finally { f }], for an [f] that cannot throw. *)
Definition try_finally {A} (m : M A) (f : State -> State) : M A :=
  fun s => let (r, s') := m s in (r, f s').

Definition get {A} (f : State -> A) : M A := fun s => (Val (f s), s).

Definition modify (f : State -> State) : M unit := fun s => (Val tt, f s).

Definition when (b : bool) (m : M unit) : M unit := if b then m else ret tt.

Declare Scope handler_scope.
Delimit Scope handler_scope with handler.
Notation "x <- m ;; k" := (bind m (fun x => k))
  (at level 100, m at next level, right associativity) : handler_scope.
Notation "m ;; k" := (bind m (fun _ => k))
  (at level 100, right associativity) : handler_scope.
Local Open Scope handler_scope.

(** [for (const x of l) body(x)] over the fragments already known. *)
Fixpoint for_each {A} (body : A -> M unit) (l : list A) : M unit :=
  match l with
  | [] => ret tt
  | x :: l' => body x ;; for_each body l'
  end.

(** [for await (const x of st) body(x)]. *)
Definition for_await {A} (st : Stream A) (body : A -> M unit) : M unit :=
  for_each body (chunks st) ;;
  match rejects st with
  | Some e => throw e
  | None => ret tt
  end.

(** The steps of a task that runs [for await] over [st]. *)
Definition task_steps {A} (st : Stream A) (body : A -> M unit) : list (M unit) :=
  map body (chunks st) ++
  match rejects st with
  | Some e => [throw e]
  | None => []
  end.

(** The order in which the steps of two tasks are served. *)
Fixpoint interleave {A} (arrival : list bool) (l1 l2 : list A) : list A :=
  match arrival with
  | [] => l1 ++ l2
  | true :: arrival' =>
      match l1 with
      | x :: l1' => x :: interleave arrival' l1' l2
      | [] => l2
      end
  | false :: arrival' =>
      match l2 with
      | y :: l2' => y :: interleave arrival' l1 l2'
      | [] => l1
      end
  end.

(** [await Promise.all([t1(), t2()])] for two tasks that have run up to
    their first [await]: their steps are served in the order [arrival]; the
    first step that throws rejects the join, and the join resolves only
    when every step of both tasks has run.  What the other task still does
    after a rejection is not part of the run of the handler. *)
Definition promise_all (arrival : list bool) (t1 t2 : list (M unit)) : M unit :=
  for_each (fun step => step) (interleave arrival t1 t2).

(** ** Formatting helpers used by the tool branches *)

Definition LF : string := String (ascii_of_nat 10) EmptyString.

Definition weekday_name (n : nat) : string :=
  nth (n mod 7)
      ["Sunday"; "Monday"; "Tuesday"; "Wednesday"; "Thursday"; "Friday"; "Saturday"]
      "Sunday".

Definition month_name (n : nat) : string :=
  nth (n mod 12)
      ["January"; "February"; "March"; "April"; "May"; "June"; "July";
       "August"; "September"; "October"; "November"; "December"]
      "January".

Definition hour12 (h : nat) : nat :=
  if h mod 12 =? 0 then 12 else h mod 12.

Definition day_period (h : nat) : string :=
  if h mod 24 <? 12 then "AM" else "PM".

(** The platform's [Date.prototype.toLocaleString] for the locale ["en-US"]
    and the options [handleResponse] passes: long weekday and month, numeric
    day and year, 2-digit hour, minute and second, short time-zone name. *)
Definition toLocaleString (d : DateTime) : string :=
  weekday_name (weekday d) +:+ ", " +:+ month_name (month d) +:+ " " +:+
  decimal (day d) +:+ ", " +:+ decimal (year d) +:+ " at " +:+
  two_digit (hour12 (hour d)) +:+ ":" +:+ two_digit (minute d) +:+ ":" +:+
  two_digit (second d) +:+ " " +:+ day_period (hour d) +:+ " " +:+
  timeZoneName d.

(** [`${document[field]}`] for the own fields of the hit: a missing field
    prints as [undefined].  Names that every object inherits (such as
    [toString] or [constructor]) are outside this model. *)
Fixpoint field (name : string) (d : Document) : string :=
  match d with
  | [] => "undefined"
  | (k, v) :: d' => if String.eqb k name then v else field name d'
  end.

Definition separator : string := LF +:+ "-----" +:+ LF.

(** [`[${document[idField]}]: ${document[contentField]}\n-----\n`]. *)
Definition result_block (idField contentField : string) (d : Document) : string :=
  "[" +:+ field idField d +:+ "]: " +:+ field contentField d +:+ separator.

(** The loop [resultText += block] over the hits, from the empty string. *)
Definition resultText (idField contentField : string) (docs : list Document) : string :=
  fold_left (fun acc d => acc +:+ result_block idField contentField d) docs EmptyString.

(** ** In-place updates of the open message *)

(** [message.content += text] on the object at [l]. *)
Definition append_content (l : nat) (text : string) (h : list Message) : list Message :=
  match h !! l with
  | Some m => <[l := {| type := type m; content := content m +:+ text |}]> h
  | None => h
  end.

(** The updater passed to [setMessages] after each fragment: when the last
    entry of the log has non-empty content, that entry's content is
    overwritten with the content of the object at [l]. *)
Definition refresh_last (log : list nat) (l : nat) (h : list Message) : list Message :=
  match last log with
  | Some k =>
      match h !! k, h !! l with
      | Some mk, Some ml =>
          if truthy (content mk)
          then <[k := {| type := type mk; content := content ml |}]> h
          else h
      | _, _ => h
      end
  | None => h
  end.

Definition clientAuth (c : Settings) : Credential :=
  if truthy (entraToken c)
  then TokenCredential (entraToken c)
  else KeyCredential (apiKey c).

Definition client_target (c : Settings) : ModelOrAgent :=
  match mode c with
  | agent_mode => Agent (agentId c) (agentProjectName c) (entraToken c)
  | model_mode => Model (model c)
  end.

Definition new_RTClient (c : Settings) : RTClient :=
  {| client_url := endpoint c; client_auth := clientAuth c;
     modelOrAgent := client_target c; apiVersion := "2025-05-01-preview" |}.

Definition new_SearchClient (c : Settings) : SearchClient :=
  {| search_endpoint := searchEndpoint c; search_index := searchIndex c;
     search_key := searchApiKey c |}.

Definition session_request (c : Settings) : SessionRequest :=
  {| req_instructions :=
       if truthy (instructions c) then Some (instructions c) else None;
     req_transcription_model :=
       if includes "realtime-preview" (model c)
       then "whisper-1" else "azure-fast-transcription";
     req_language :=
       if String.eqb (recognitionLanguage c) "auto"
       then None else Some (recognitionLanguage c);
     input_audio_noise_reduction := useNS c;
     input_audio_echo_cancellation := useEC c |}.

(** ** The handlers *)

Section Handlers.

Variable env : Env.

(** A call that leaves the component: recorded in the trace, and throwing
    when the environment says so. *)
Definition call (ev : Event) : M unit :=
  fun s =>
    let s' := set_trace (fun t => t ++ [ev]) s in
    match throws env (length (trace s)) ev with
    | Some e => (Exn e, s')
    | None => (Val tt, s')
    end.

(** A recorded call whose failure cannot reach the caller. *)
Definition record (ev : Event) : M unit :=
  modify (set_trace (fun t => t ++ [ev])).

Definition clock : M nat := get (fun s => length (trace s)).

(** [clientRef.current?.f(...)]. *)
Definition client_call (ev : Event) : M unit :=
  c <- get clientRef ;;
  match c with
  | Some _ => call ev
  | None => ret tt
  end.

(** [audioHandlerRef.current?.f(...)]. *)
Definition audio_call (a : AudioCall) : M unit :=
  h <- get audioHandlerRef ;; when h (call (EvAudio a)).

(** [proactiveManagerRef.current?.f(...)]. *)
Definition proactive_call (ev : Event) : M unit :=
  p <- get proactiveManagerRef ;; when p (call ev).

(** [setMessages(prev => [...prev, m])] for a new object [m]; the result
    is the reference to that object. *)
Definition append_message (m : Message) : M nat :=
  fun s =>
    let l := length (heap s) in
    (Val l,
     set_trace (fun t => t ++ [EvSetMessages m])
       (set_messages (fun log => log ++ [l])
          (set_heap (fun h => h ++ [m]) s))).

(** The body of the fragment loops of [handleResponse]. *)
Definition on_text (l : nat) (text : string) : M unit :=
  modify (set_heap (append_content l text)) ;;
  modify (fun s => set_heap (refresh_last (messages s) l) s).

(** Modelled from the spec: [playChunk] of the AudioHandler class
    ([@/lib/audio], not part of the sources) forwards the fragment to the
    playback sink and runs the callback once per fragment.  The callback is
    an [async] function, so a failure inside it does not reach the caller. *)
Definition AudioHandler_playChunk (audio : Bytes) (callback : M unit) : M unit :=
  call (EvAudio (playChunk audio)) ;;
  fun s => (Val tt, snd (callback s)).

(** The body of the loop of [audioTask]. *)
Definition on_audio (audio : Bytes) : M unit :=
  h <- get audioHandlerRef ;;
  when h (AudioHandler_playChunk audio
            (proactive_call (EvUpdateActivity "agent speaking"))).

(** [audioTask] up to its first [await]. *)
Definition audioTask_start : M unit :=
  audio_call stopStreamingPlayback ;;
  audio_call startStreamingPlayback.

Definition process_part (l : nat) (part : ContentPart) : M unit :=
  match part with
  | text_part textChunks => for_await textChunks (on_text l)
  | audio_part transcriptChunks audioChunks arrival =>
      audioTask_start ;;
      promise_all arrival
        (task_steps transcriptChunks (on_text l))
        (task_steps audioChunks on_audio)
  | other_part => ret tt
  end.

Definition get_time_call (callId : string) : M unit :=
  n <- clock ;;
  let formattedTime := toLocaleString (now env n) in
  client_call (EvSendItem (function_call_output formattedTime callId)) ;;
  client_call (EvGenerateResponse None).

Definition search_call (arguments callId : string) : M unit :=
  call (EvJSONParse arguments) ;;
  let query := parsed_query env arguments in
  sc <- get searchClientRef ;;
  match sc with
  | Some _ =>
      cfg <- get settings ;;
      append_message
        {| type := status; content := "Searching [" +:+ query +:+ "]..." |} ;;
      n <- clock ;;
      call (EvSearch query 5 [searchContentField cfg; searchIdentifierField cfg]) ;;
      let results := search_results env n query in
      match rejects results with
      | Some e => throw e
      | None =>
          let text := resultText (searchIdentifierField cfg)
                                 (searchContentField cfg) (chunks results) in
          client_call (EvSendItem (function_call_output text callId)) ;;
          client_call (EvGenerateResponse None)
      end
  | None => ret tt
  end.

Definition handle_item (item : Item) : M unit :=
  match item with
  | message role_assistant parts =>
      l <- append_message {| type := assistant; content := EmptyString |} ;;
      for_await parts (process_part l)
  | message _ _ => ret tt
  | function_call functionName arguments callId =>
      call EvWaitForCompletion ;;
      if String.eqb functionName "get_time" then get_time_call callId
      else if String.eqb functionName "search" then search_call arguments callId
      else ret tt
  | other_item => ret tt
  end.

Definition handleResponse (response : RTResponse) : M unit :=
  for_await (items response) handle_item ;;
  match response_status response with
  | failed =>
      append_message
        {| type := error;
           content := "Response failed:" +:+ statusDetails response |} ;;
      ret tt
  | _ => ret tt
  end.

Definition handleInputAudio (item : RTInputAudioItem) : M unit :=
  modify (set_isUserSpeaking true) ;;
  audio_call stopStreamingPlayback ;;
  call EvWaitForCompletion ;;
  modify (set_isUserSpeaking false) ;;
  append_message
    {| type := user; content := or_default (transcription item) EmptyString |} ;;
  ret tt.

(** The body of the loop of [startResponseListener]. *)
Definition on_server_event (ev : ServerEvent) : M unit :=
  match ev with
  | response_event r => handleResponse r
  | input_audio_event i =>
      proactive_call (EvUpdateActivity "user start to speak") ;;
      handleInputAudio i
  end.

Definition startResponseListener (events : Stream ServerEvent) : M unit :=
  c <- get clientRef ;;
  match c with
  | None => ret tt
  | Some _ =>
      try_catch (for_await events on_server_event)
        (fun e =>
           c' <- get clientRef ;;
           when (held c')
                (record (EvConsoleError "Response iteration error:" e)))
  end.

Definition sendMessage : M unit :=
  currentMessage0 <- get currentMessage ;;
  c <- get clientRef ;;
  if truthy (trim currentMessage0) && held c then
    try_catch
      (let temporaryStorageMessage := currentMessage0 in
       modify (set_currentMessage EmptyString) ;;
       append_message {| type := user; content := temporaryStorageMessage |} ;;
       call (EvSendItem (message_item role_user temporaryStorageMessage)) ;;
       call (EvGenerateResponse None))
      (fun e => record (EvConsoleError "Failed to send message:" e))
  else ret tt.

(** [disconnect] after the transport is closed and the handles are
    cleared: the audio and proactive teardown. *)
Definition release_devices : M unit :=
  audio_call stopStreamingPlayback ;;
  proactive_call EvProactiveStop ;;
  modify (set_isUserSpeaking false) ;;
  audio_call stopRecordAnimation ;;
  audio_call stopPlayChunkAnimation ;;
  recording <- get isRecording ;;
  when recording
       (audio_call stopRecording ;; modify (set_isRecording false)) ;;
  h <- get audioHandlerRef ;;
  when h
       (call (EvAudio stopSessionRecording) ;;
        n <- clock ;;
        call (EvAudio hasRecordedAudio) ;;
        modify (set_hasRecording (recorded_audio env n))).

Definition disconnect : M unit :=
  c <- get clientRef ;;
  match c with
  | None => ret tt
  | Some _ =>
      try_catch
        (call EvClose ;;
         modify (set_clientRef None) ;;
         modify (set_peerConnection false) ;;
         modify (set_isConnected false) ;;
         release_devices)
        (fun e => record (EvConsoleError "Disconnect failed:" e))
  end.

(** The token refresh at the start of [handleConnect]. *)
Definition refresh_token : M unit :=
  try_catch
    (n <- clock ;;
     call EvFetchConfig ;;
     let config := fetch_config env n in
     when (ok config)
          (when (truthy (config_endpoint config))
                (modify (set_settings (set_endpoint (config_endpoint config)))) ;;
           when (truthy (config_token config))
                (modify (set_settings (set_entraToken (config_token config))))))
    (fun e => record (EvConsoleError "Failed to refresh token:" e)).

(** [handleConnect] from the creation of the client to the start of the
    proactive manager, for the settings [cfg] of the render the handler
    was created in.  The voice, avatar and turn-detection values computed
    on the way only feed the [configure] request. *)
Definition open_session (cfg : Settings) : M unit :=
  call (EvNewURL (endpoint cfg)) ;;
  call (EvNewRTClient (new_RTClient cfg)) ;;
  modify (set_clientRef (Some (new_RTClient cfg))) ;;
  when (enableSearch cfg)
       (call (EvNewSearchClient (new_SearchClient cfg)) ;;
        modify (set_searchClientRef (Some (new_SearchClient cfg)))) ;;
  n <- clock ;;
  call (EvConfigure (session_request cfg)) ;;
  let session := configure_session env n in
  when (session_avatar session)
       (call EvGetLocalDescription ;;
        modify (set_peerConnection true)) ;;
  record EvStartResponseListener ;;
  audio_call startSessionRecording ;;
  modify (set_isConnected true) ;;
  append_message
    {| type := status;
       content :=
         "Session started, click on the mic button to start conversation! debug id: "
         +:+ session_id session |} ;;
  modify (set_sessionId (session_id session)) ;;
  when (enableProactive cfg)
       (modify (set_proactiveManagerRef true) ;;
        call EvProactiveStart).

(** [mode === "agent" && !agentId]. *)
Definition agent_not_selected (cfg : Settings) : bool :=
  match mode cfg with
  | agent_mode => negb (truthy (agentId cfg))
  | model_mode => false
  end.

(** [handleConnect] reads the settings of the render it was created in
    ([cfg]); updates made by the token refresh are seen by later renders
    only. *)
Definition handleConnect : M unit :=
  connected <- get isConnected ;;
  cfg <- get settings ;;
  if negb connected then
    try_finally
      (try_catch
         (modify (set_isConnecting true) ;;
          when (configLoaded cfg) refresh_token ;;
          if agent_not_selected cfg then
            append_message
              {| type := error; content := "Please input/select an agent." |} ;;
            ret tt
          else open_session cfg)
         (fun e =>
            record (EvConsoleError "Connection failed:" e) ;;
            append_message
              {| type := error;
                 content := "Error connecting to the server: " +:+ e |} ;;
            ret tt))
      (set_isConnecting false)
  else
    record EvClearVideo ;; disconnect.

End Handlers.

(** * Vocabulary of the properties *)

(** [l] is a shuffle of [l1] and [l2] that keeps the order inside each. *)
Inductive merge {A} : list A -> list A -> list A -> Prop :=
| merge_nil_l (l : list A) : merge [] l l
| merge_nil_r (l : list A) : merge l [] l
| merge_l (x : A) (l1 l2 l : list A) : merge l1 l2 l -> merge (x :: l1) l2 (x :: l)
| merge_r (y : A) (l1 l2 l : list A) : merge l1 l2 l -> merge l1 (y :: l2) (y :: l).

(** The fragments of a list, joined in order. *)
Definition join (l : list string) : string := fold_right String.append EmptyString l.

Definition assistant_message (c : string) : Message :=
  {| type := assistant; content := c |}.

(** The state reached from [s] when the object at [l] holds the assistant
    text [c] and the calls [tr] have been made. *)
Definition streaming (l : nat) (c : string) (tr : list Event) (s : State) : State :=
  set_trace (fun t => t ++ tr)
    (set_heap (fun h => <[l := assistant_message c]> h) s).

(** The steps of the two tasks of an audio part, as data. *)
Inductive Step :=
| step_text (text : string)
| step_audio (audio : Bytes)
| step_reject (in_text_task : bool) (e : string).

Definition from_text_task (st : Step) : bool :=
  match st with
  | step_text _ => true
  | step_audio _ => false
  | step_reject b _ => b
  end.

Definition is_reject (st : Step) : bool :=
  match st with
  | step_reject _ _ => true
  | _ => false
  end.

Definition text_steps (st : Stream string) : list Step :=
  map step_text (chunks st) ++
  match rejects st with Some e => [step_reject true e] | None => [] end.

Definition audio_steps (st : Stream Bytes) : list Step :=
  map step_audio (chunks st) ++
  match rejects st with Some e => [step_reject false e] | None => [] end.

Fixpoint texts_of (steps : list Step) : list string :=
  match steps with
  | [] => []
  | step_text t :: steps' => t :: texts_of steps'
  | _ :: steps' => texts_of steps'
  end.

Fixpoint audios_of (steps : list Step) : list Bytes :=
  match steps with
  | [] => []
  | step_audio a :: steps' => a :: audios_of steps'
  | _ :: steps' => audios_of steps'
  end.

(** The calls made for the audio fragments [audios] when no call throws. *)
Definition playback_events (h p : bool) (audios : list Bytes) : list Event :=
  if h
  then flat_map (fun a => EvAudio (playChunk a) ::
                          if p then [EvUpdateActivity "agent speaking"] else [])
                audios
  else [].

Definition run_step (env : Env) (l : nat) (st : Step) : M unit :=
  match st with
  | step_text t => on_text l t
  | step_audio a => on_audio env a
  | step_reject _ e => throw e
  end.

(** The text a part contributes to the open message. *)
Definition part_fragments (part : ContentPart) : list string :=
  match part with
  | text_part textChunks => chunks textChunks
  | audio_part transcriptChunks _ _ => chunks transcriptChunks
  | other_part => []
  end.

(** The calls a part makes when it is processed to its end. *)
Definition part_events (h p : bool) (part : ContentPart) : list Event :=
  match part with
  | audio_part _ audioChunks _ =>
      (if h then [EvAudio stopStreamingPlayback; EvAudio startStreamingPlayback]
       else []) ++ playback_events h p (chunks audioChunks)
  | _ => []
  end.

(** Every lazy sequence of the part ends without an error. *)
Definition part_drained (part : ContentPart) : Prop :=
  match part with
  | text_part textChunks => rejects textChunks = None
  | audio_part transcriptChunks audioChunks _ =>
      rejects transcriptChunks = None /\ rejects audioChunks = None
  | other_part => True
  end.

(** [m] neither adds nor removes an entry of the log or an object of the
    store, whatever its outcome. *)
Definition keeps_log {A} (m : M A) : Prop :=
  forall s, messages (snd (m s)) = messages s /\
            length (heap (snd (m s))) = length (heap s).

(** The state right after the new, empty assistant message is pushed. *)
Definition opened (s : State) : State :=
  set_trace (fun t => t ++ [EvSetMessages (assistant_message EmptyString)])
    (set_messages (fun log => log ++ [length (heap s)])
       (set_heap (fun h => h ++ [assistant_message EmptyString]) s)).

(** The calls a [get_time] item leads to, in order. *)
Definition get_time_calls (env : Env) (s : State) (callId : string) : list Event :=
  [EvWaitForCompletion;
   EvSendItem (function_call_output
                 (toLocaleString (now env (length (trace s) + 1))) callId);
   EvGenerateResponse None].

(** The outcome of a call, from the environment's answer. *)
Definition outcome (o : option string) : Res unit :=
  match o with
  | Some e => Exn e
  | None => Val tt
  end.

(** [s] after the calls [evs]. *)
Definition after (evs : list Event) (s : State) : State :=
  set_trace (fun t => t ++ evs) s.

Definition agent_missing : Message :=
  {| type := error; content := "Please input/select an agent." |}.

(** The calls of the token refresh at the start of [handleConnect]. *)
Definition refresh_calls (env : Env) (s : State) : list Event :=
  if configLoaded (settings s) then
    EvFetchConfig ::
    match throws env (length (trace s)) EvFetchConfig with
    | Some e => [EvConsoleError "Failed to refresh token:" e]
    | None => []
    end
  else [].

Definition session_started (id : string) : Message :=
  {| type := status;
     content :=
       "Session started, click on the mic button to start conversation! debug id: "
       +:+ id |}.

(** [m] leaves the observation [f] of the state unchanged, whatever its
    outcome. *)
Definition preserves {A B} (f : State -> B) (m : M A) : Prop :=
  forall s, f (snd (m s)) = f s.

(** The connection handle and the connected flag. *)
Definition connection (s : State) : option RTClient * bool :=
  (clientRef s, isConnected s).

Definition user_message (text : string) : Message :=
  {| type := user; content := text |}.

(** The calls of [sendMessage] after the user Message is appended. *)
Definition send_calls (env : Env) (s : State) : list Event :=
  let n := length (trace s) in
  let send := EvSendItem (message_item role_user (currentMessage s)) in
  send ::
  match throws env (n + 1) send with
  | Some e => [EvConsoleError "Failed to send message:" e]
  | None =>
      EvGenerateResponse None ::
      match throws env (n + 2) (EvGenerateResponse None) with
      | Some e => [EvConsoleError "Failed to send message:" e]
      | None => []
      end
  end.

Definition hyphen : ascii := ascii_of_nat 45.

Fixpoint hyphen_free (s : string) : bool :=
  match s with
  | EmptyString => true
  | String c s' => negb (Ascii.eqb c hyphen) && hyphen_free s'
  end.

(** The [-----] sequences a hit brings along inside its selected fields. *)
Definition stray_separators (idField contentField : string) (d : Document) : nat :=
  occurrences "-----" (field idField d) + occurrences "-----" (field contentField d).

(** The text consists of hyphens only. *)
Fixpoint only_hyphens (p : string) : bool :=
  match p with
  | EmptyString => true
  | String c p' => Ascii.eqb c hyphen && only_hyphens p'
  end.

(** The outputs of the function_call_output turns among the calls [tr]. *)
Definition outputs_sent (tr : list Event) : list string :=
  flat_map (fun ev =>
              match ev with
              | EvSendItem (function_call_output output _) => [output]
              | _ => []
              end) tr.

Definition searching (query : string) : Message :=
  {| type := status; content := "Searching [" +:+ query +:+ "]..." |}.

(** The calls a [search] item leads to when the lookup client is set. *)
Definition search_calls (env : Env) (s : State) (arguments callId : string) : list Event :=
  let query := parsed_query env arguments in
  let cfg := settings s in
  let results := search_results env (length (trace s) + 3) query in
  [EvWaitForCompletion; EvJSONParse arguments; EvSetMessages (searching query);
   EvSearch query 5 [searchContentField cfg; searchIdentifierField cfg];
   EvSendItem (function_call_output
                 (resultText (searchIdentifierField cfg) (searchContentField cfg)
                             (chunks results)) callId);
   EvGenerateResponse None].

(** Modelled from the spec: the AudioHandler class ([@/lib/audio]) is not
    part of the sources.  Streaming playback is taken to be on from a call
    of [startStreamingPlayback] until the next [stopStreamingPlayback]. *)
Definition playback_active (tr : list Event) : bool :=
  fold_left
    (fun on ev =>
       match ev with
       | EvAudio startStreamingPlayback => true
       | EvAudio stopStreamingPlayback => false
       | _ => on
       end)
    tr false.

(** The calls an [input_audio] event leads to before the item is awaited. *)
Definition input_audio_prelude (s : State) : list Event :=
  (if proactiveManagerRef s then [EvUpdateActivity "user start to speak"] else []) ++
  (if audioHandlerRef s then [EvAudio stopStreamingPlayback] else []).

(** All the calls an [input_audio] event leads to, in order. *)
Definition input_audio_calls (s : State) (item : RTInputAudioItem) : list Event :=
  input_audio_prelude s ++
  [EvWaitForCompletion;
   EvSetMessages (user_message (or_default (transcription item) EmptyString))].


(** The calls among [calls] that are made, from position [n] of the trace,
    when they are attempted in turn and the first one that throws ends the
    run; and the error that one throws, if any does. *)
Fixpoint attempted (env : Env) (n : nat) (calls : list Event) : list Event * option string :=
  match calls with
  | [] => ([], None)
  | ev :: calls' =>
      match throws env n ev with
      | Some e => ([ev], Some e)
      | None =>
          let (made, failure) := attempted env (n + 1) calls' in
          (ev :: made, failure)
      end
  end.

(** The calls of the teardown of [disconnect], in the order of the source:
    which of them are made depends on the handles held and on whether a
    recording is running. *)
Definition teardown_calls (s : State) : list Event :=
  [EvClose] ++
  (if audioHandlerRef s then [EvAudio stopStreamingPlayback] else []) ++
  (if proactiveManagerRef s then [EvProactiveStop] else []) ++
  (if audioHandlerRef s
   then [EvAudio stopRecordAnimation; EvAudio stopPlayChunkAnimation] else []) ++
  (if isRecording s && audioHandlerRef s then [EvAudio stopRecording] else []) ++
  (if audioHandlerRef s
   then [EvAudio stopSessionRecording; EvAudio hasRecordedAudio] else []).



(** * The parameters panel and the remaining handlers *)

(** ** More JavaScript strings *)

(** [String.prototype.toLowerCase], restricted to the one-byte characters:
    the letters A to Z are mapped to a to z. *)
Definition lower (c : ascii) : ascii :=
  let n := nat_of_ascii c in
  if (65 <=? n) && (n <=? 90) then ascii_of_nat (n + 32) else c.

Fixpoint toLowerCase (s : string) : string :=
  match s with
  | EmptyString => EmptyString
  | String c s' => String (lower c) (toLowerCase s')
  end.

(** [s.split(sep)] for a separator of one character. *)
Fixpoint split (sep : ascii) (s : string) : list string :=
  match s with
  | EmptyString => [EmptyString]
  | String c s' =>
      if Ascii.eqb c sep then EmptyString :: split sep s'
      else
        match split sep s' with
        | piece :: pieces => String c piece :: pieces
        | [] => [String c EmptyString]
        end
  end.

(** [l.join(sep)]. *)
Fixpoint join_with (sep : string) (l : list string) : string :=
  match l with
  | [] => EmptyString
  | [x] => x
  | x :: l' => x +:+ sep +:+ join_with sep l'
  end.

Definition colon : ascii := ascii_of_nat 58.

Definition dot : ascii := ascii_of_nat 46.

(** [s.replace(/[:.]/g, "-")]. *)
Fixpoint replace_colon_dot (s : string) : string :=
  match s with
  | EmptyString => EmptyString
  | String c s' =>
      String (if Ascii.eqb c colon || Ascii.eqb c dot then hyphen else c)
             (replace_colon_dot s')
  end.

(** Truthiness of a number: zero is falsy.  Numbers are only tested for
    truthiness and passed on; they are represented by rationals. *)
Definition number_truthy (x : Q) : bool := negb (Qeq_bool x 0).

(** ** Presentation of a message *)

Definition getMessageClassNames (t : MessageType) : string :=
  match t with
  | user => "bg-blue-100 ml-auto max-w-[80%]"
  | assistant => "bg-gray-100 mr-auto max-w-[80%]"
  | status => "bg-yellow-200 mx-auto max-w-[80%]"
  | _ => "bg-red-100 mx-auto max-w-[80%]"
  end.

(** ** Tools *)

Record Property := {
  property_name : string;
  property_type : string;
  property_enum : list string;
  property_description : string
}.

(** The [parameters] of a tool: an object schema. *)
Record Parameters := {
  properties : list Property;
  required : list string;
  additionalProperties : bool
}.

Record ToolDeclaration := {
  name : string;
  parameters : option Parameters;
  description : string
}.

Record PredefinedTool := {
  tool_id : string;
  label : string;
  tool : ToolDeclaration;
  enabled : bool
}.

Definition search_tool : PredefinedTool :=
  {| tool_id := "search"; label := "Search";
     tool :=
       {| name := "search";
          parameters :=
            Some {| properties :=
                      [ {| property_name := "query"; property_type := "string";
                           property_enum := [];
                           property_description := "Search query" |} ];
                    required := ["query"];
                    additionalProperties := false |};
          description :=
            "Search the knowledge base. The knowledge base is in English, translate to and from English if " +:+
            "needed. Results are formatted as a source name first in square brackets, followed by the text " +:+
            "content, and a line with '-----' at the end of each result." |};
     enabled := true |}.

Definition time_tool : PredefinedTool :=
  {| tool_id := "time"; label := "Time Lookup";
     tool :=
       {| name := "get_time"; parameters := None;
          description := "Get the current time." |};
     enabled := true |}.

Definition weather_tool : PredefinedTool :=
  {| tool_id := "weather"; label := "Weather Checking";
     tool :=
       {| name := "get_weather";
          parameters :=
            Some {| properties :=
                      [ {| property_name := "location"; property_type := "string";
                           property_enum := [];
                           property_description :=
                             "Location to check the weather for" |};
                        {| property_name := "unit"; property_type := "string";
                           property_enum := ["celsius"; "fahrenheit"];
                           property_description := "Unit of temperature" |} ];
                    required := ["location"; "unit"];
                    additionalProperties := false |};
          description :=
            "Get the current weather. The location is a string, and the unit is either 'celsius' or 'fahrenheit'." |};
     enabled := false |}.

Definition calculator_tool : PredefinedTool :=
  {| tool_id := "calculator"; label := "Calculator";
     tool :=
       {| name := "calculate";
          parameters :=
            Some {| properties :=
                      [ {| property_name := "expression"; property_type := "string";
                           property_enum := [];
                           property_description :=
                             "Mathematical expression to calculate" |} ];
                    required := ["expression"];
                    additionalProperties := false |};
          description := "Perform a calculation. The expression is a string." |};
     enabled := false |}.

Definition predefinedTools : list PredefinedTool :=
  [search_tool; time_tool; weather_tool; calculator_tool].

(** ** Turn detection, voice and avatar *)

(** The turn-detection object: its [type] and the two optional fields
    [handleConnect] writes. *)
Record TurnDetection := {
  td_type : string;
  end_of_utterance_detection : option string;     (* { model } *)
  remove_filler_words : option bool
}.

Inductive Voice :=
| voice_id (voice_name : string)
| azure_standard (voice_name : string) (voice_temperature : option Q)
| azure_custom (voice_name endpoint_id : string) (voice_temperature : option Q).

Record AvatarConfigVideoParams := {
  codec : string;
  crop_top_left : nat * nat;
  crop_bottom_right : nat * nat
}.

Record AvatarConfig := {
  character : string;
  style : option string;
  customized : option bool;
  video : AvatarConfigVideoParams
}.

(** ** Predefined scenarios and the answer of [/config] *)

Record ScenarioVoice := {
  custom_voice : bool;
  deployment_id : option string;
  scenario_voice_name : string;
  scenario_temperature : option Q
}.

Record ScenarioAvatar := {
  avatar_enabled : bool;
  avatar_customized : bool;
  avatar_name : string
}.

Record PredefinedScenario := {
  scenario_name : string;
  scenario_instructions : option string;
  pro_active : option bool;
  scenario_voice : option ScenarioVoice;
  scenario_avatar : option ScenarioAvatar
}.

Record AgentEntry := { entry_id : string; entry_name : string }.

Record AgentConfig := {
  project_name : string;
  agent_entries : option (list AgentEntry)     (* [None]: not an array *)
}.

Record Config := {
  fetched_endpoint : string;
  fetched_token : string;
  pre_defined_scenarios : option (gmap string PredefinedScenario);
  agent : option AgentConfig
}.

(** What [fetch("/config")] and [response.json()] lead to. *)
Inductive ConfigOutcome :=
| config_failed (e : string)       (* either of them throws *)
| config_not_found                 (* status 404 *)
| config_found (c : Config).

(** ** The panel *)

(** The React state of the parameters panel that is not part of
    [Settings]. *)
Record Panel := {
  turnDetectionType : option TurnDetection;
  eouDetectionType : string;
  removeFillerWords : bool;
  temperature : Q;
  voiceTemperature : Q;
  useCNV : bool;
  voiceName : string;
  customVoiceName : string;
  voiceDeploymentId : string;
  avatarName : string;
  customAvatarName : string;
  isAvatar : bool;
  isCustomAvatar : bool;
  tools : list ToolDeclaration;
  predefinedScenarios : gmap string PredefinedScenario;
  selectedScenario : string;
  agents : list AgentEntry
}.

Definition set_agentProjectName (v : string) (c : Settings) : Settings :=
  {| apiKey := apiKey c; endpoint := endpoint c; entraToken := entraToken c;
     model := model c; mode := mode c; agentProjectName := v;
     agentId := agentId c; instructions := instructions c;
     recognitionLanguage := recognitionLanguage c; useNS := useNS c;
     useEC := useEC c; enableProactive := enableProactive c;
     enableSearch := enableSearch c; searchEndpoint := searchEndpoint c;
     searchApiKey := searchApiKey c; searchIndex := searchIndex c;
     searchContentField := searchContentField c;
     searchIdentifierField := searchIdentifierField c;
     configLoaded := configLoaded c |}.

Definition set_agentId (v : string) (c : Settings) : Settings :=
  {| apiKey := apiKey c; endpoint := endpoint c; entraToken := entraToken c;
     model := model c; mode := mode c;
     agentProjectName := agentProjectName c; agentId := v;
     instructions := instructions c;
     recognitionLanguage := recognitionLanguage c; useNS := useNS c;
     useEC := useEC c; enableProactive := enableProactive c;
     enableSearch := enableSearch c; searchEndpoint := searchEndpoint c;
     searchApiKey := searchApiKey c; searchIndex := searchIndex c;
     searchContentField := searchContentField c;
     searchIdentifierField := searchIdentifierField c;
     configLoaded := configLoaded c |}.

Definition set_instructions (v : string) (c : Settings) : Settings :=
  {| apiKey := apiKey c; endpoint := endpoint c; entraToken := entraToken c;
     model := model c; mode := mode c;
     agentProjectName := agentProjectName c; agentId := agentId c;
     instructions := v; recognitionLanguage := recognitionLanguage c;
     useNS := useNS c; useEC := useEC c;
     enableProactive := enableProactive c; enableSearch := enableSearch c;
     searchEndpoint := searchEndpoint c; searchApiKey := searchApiKey c;
     searchIndex := searchIndex c;
     searchContentField := searchContentField c;
     searchIdentifierField := searchIdentifierField c;
     configLoaded := configLoaded c |}.

Definition set_enableProactive (v : bool) (c : Settings) : Settings :=
  {| apiKey := apiKey c; endpoint := endpoint c; entraToken := entraToken c;
     model := model c; mode := mode c;
     agentProjectName := agentProjectName c; agentId := agentId c;
     instructions := instructions c;
     recognitionLanguage := recognitionLanguage c; useNS := useNS c;
     useEC := useEC c; enableProactive := v; enableSearch := enableSearch c;
     searchEndpoint := searchEndpoint c; searchApiKey := searchApiKey c;
     searchIndex := searchIndex c;
     searchContentField := searchContentField c;
     searchIdentifierField := searchIdentifierField c;
     configLoaded := configLoaded c |}.

Definition set_enableSearch (v : bool) (c : Settings) : Settings :=
  {| apiKey := apiKey c; endpoint := endpoint c; entraToken := entraToken c;
     model := model c; mode := mode c;
     agentProjectName := agentProjectName c; agentId := agentId c;
     instructions := instructions c;
     recognitionLanguage := recognitionLanguage c; useNS := useNS c;
     useEC := useEC c; enableProactive := enableProactive c;
     enableSearch := v; searchEndpoint := searchEndpoint c;
     searchApiKey := searchApiKey c; searchIndex := searchIndex c;
     searchContentField := searchContentField c;
     searchIdentifierField := searchIdentifierField c;
     configLoaded := configLoaded c |}.

Definition set_configLoaded (v : bool) (c : Settings) : Settings :=
  {| apiKey := apiKey c; endpoint := endpoint c; entraToken := entraToken c;
     model := model c; mode := mode c;
     agentProjectName := agentProjectName c; agentId := agentId c;
     instructions := instructions c;
     recognitionLanguage := recognitionLanguage c; useNS := useNS c;
     useEC := useEC c; enableProactive := enableProactive c;
     enableSearch := enableSearch c; searchEndpoint := searchEndpoint c;
     searchApiKey := searchApiKey c; searchIndex := searchIndex c;
     searchContentField := searchContentField c;
     searchIdentifierField := searchIdentifierField c; configLoaded := v |}.

Definition set_turnDetectionType (v : option TurnDetection) (p : Panel) : Panel :=
  {| turnDetectionType := v; eouDetectionType := eouDetectionType p;
     removeFillerWords := removeFillerWords p; temperature := temperature p;
     voiceTemperature := voiceTemperature p; useCNV := useCNV p;
     voiceName := voiceName p; customVoiceName := customVoiceName p;
     voiceDeploymentId := voiceDeploymentId p; avatarName := avatarName p;
     customAvatarName := customAvatarName p; isAvatar := isAvatar p;
     isCustomAvatar := isCustomAvatar p; tools := tools p;
     predefinedScenarios := predefinedScenarios p;
     selectedScenario := selectedScenario p; agents := agents p |}.

Definition set_eouDetectionType (v : string) (p : Panel) : Panel :=
  {| turnDetectionType := turnDetectionType p; eouDetectionType := v;
     removeFillerWords := removeFillerWords p; temperature := temperature p;
     voiceTemperature := voiceTemperature p; useCNV := useCNV p;
     voiceName := voiceName p; customVoiceName := customVoiceName p;
     voiceDeploymentId := voiceDeploymentId p; avatarName := avatarName p;
     customAvatarName := customAvatarName p; isAvatar := isAvatar p;
     isCustomAvatar := isCustomAvatar p; tools := tools p;
     predefinedScenarios := predefinedScenarios p;
     selectedScenario := selectedScenario p; agents := agents p |}.

Definition set_voiceTemperature (v : Q) (p : Panel) : Panel :=
  {| turnDetectionType := turnDetectionType p;
     eouDetectionType := eouDetectionType p;
     removeFillerWords := removeFillerWords p; temperature := temperature p;
     voiceTemperature := v; useCNV := useCNV p; voiceName := voiceName p;
     customVoiceName := customVoiceName p;
     voiceDeploymentId := voiceDeploymentId p; avatarName := avatarName p;
     customAvatarName := customAvatarName p; isAvatar := isAvatar p;
     isCustomAvatar := isCustomAvatar p; tools := tools p;
     predefinedScenarios := predefinedScenarios p;
     selectedScenario := selectedScenario p; agents := agents p |}.

Definition set_useCNV (v : bool) (p : Panel) : Panel :=
  {| turnDetectionType := turnDetectionType p;
     eouDetectionType := eouDetectionType p;
     removeFillerWords := removeFillerWords p; temperature := temperature p;
     voiceTemperature := voiceTemperature p; useCNV := v;
     voiceName := voiceName p; customVoiceName := customVoiceName p;
     voiceDeploymentId := voiceDeploymentId p; avatarName := avatarName p;
     customAvatarName := customAvatarName p; isAvatar := isAvatar p;
     isCustomAvatar := isCustomAvatar p; tools := tools p;
     predefinedScenarios := predefinedScenarios p;
     selectedScenario := selectedScenario p; agents := agents p |}.

Definition set_voiceName (v : string) (p : Panel) : Panel :=
  {| turnDetectionType := turnDetectionType p;
     eouDetectionType := eouDetectionType p;
     removeFillerWords := removeFillerWords p; temperature := temperature p;
     voiceTemperature := voiceTemperature p; useCNV := useCNV p;
     voiceName := v; customVoiceName := customVoiceName p;
     voiceDeploymentId := voiceDeploymentId p; avatarName := avatarName p;
     customAvatarName := customAvatarName p; isAvatar := isAvatar p;
     isCustomAvatar := isCustomAvatar p; tools := tools p;
     predefinedScenarios := predefinedScenarios p;
     selectedScenario := selectedScenario p; agents := agents p |}.

Definition set_customVoiceName (v : string) (p : Panel) : Panel :=
  {| turnDetectionType := turnDetectionType p;
     eouDetectionType := eouDetectionType p;
     removeFillerWords := removeFillerWords p; temperature := temperature p;
     voiceTemperature := voiceTemperature p; useCNV := useCNV p;
     voiceName := voiceName p; customVoiceName := v;
     voiceDeploymentId := voiceDeploymentId p; avatarName := avatarName p;
     customAvatarName := customAvatarName p; isAvatar := isAvatar p;
     isCustomAvatar := isCustomAvatar p; tools := tools p;
     predefinedScenarios := predefinedScenarios p;
     selectedScenario := selectedScenario p; agents := agents p |}.

Definition set_voiceDeploymentId (v : string) (p : Panel) : Panel :=
  {| turnDetectionType := turnDetectionType p;
     eouDetectionType := eouDetectionType p;
     removeFillerWords := removeFillerWords p; temperature := temperature p;
     voiceTemperature := voiceTemperature p; useCNV := useCNV p;
     voiceName := voiceName p; customVoiceName := customVoiceName p;
     voiceDeploymentId := v; avatarName := avatarName p;
     customAvatarName := customAvatarName p; isAvatar := isAvatar p;
     isCustomAvatar := isCustomAvatar p; tools := tools p;
     predefinedScenarios := predefinedScenarios p;
     selectedScenario := selectedScenario p; agents := agents p |}.

Definition set_avatarName (v : string) (p : Panel) : Panel :=
  {| turnDetectionType := turnDetectionType p;
     eouDetectionType := eouDetectionType p;
     removeFillerWords := removeFillerWords p; temperature := temperature p;
     voiceTemperature := voiceTemperature p; useCNV := useCNV p;
     voiceName := voiceName p; customVoiceName := customVoiceName p;
     voiceDeploymentId := voiceDeploymentId p; avatarName := v;
     customAvatarName := customAvatarName p; isAvatar := isAvatar p;
     isCustomAvatar := isCustomAvatar p; tools := tools p;
     predefinedScenarios := predefinedScenarios p;
     selectedScenario := selectedScenario p; agents := agents p |}.

Definition set_customAvatarName (v : string) (p : Panel) : Panel :=
  {| turnDetectionType := turnDetectionType p;
     eouDetectionType := eouDetectionType p;
     removeFillerWords := removeFillerWords p; temperature := temperature p;
     voiceTemperature := voiceTemperature p; useCNV := useCNV p;
     voiceName := voiceName p; customVoiceName := customVoiceName p;
     voiceDeploymentId := voiceDeploymentId p; avatarName := avatarName p;
     customAvatarName := v; isAvatar := isAvatar p;
     isCustomAvatar := isCustomAvatar p; tools := tools p;
     predefinedScenarios := predefinedScenarios p;
     selectedScenario := selectedScenario p; agents := agents p |}.

Definition set_isAvatar (v : bool) (p : Panel) : Panel :=
  {| turnDetectionType := turnDetectionType p;
     eouDetectionType := eouDetectionType p;
     removeFillerWords := removeFillerWords p; temperature := temperature p;
     voiceTemperature := voiceTemperature p; useCNV := useCNV p;
     voiceName := voiceName p; customVoiceName := customVoiceName p;
     voiceDeploymentId := voiceDeploymentId p; avatarName := avatarName p;
     customAvatarName := customAvatarName p; isAvatar := v;
     isCustomAvatar := isCustomAvatar p; tools := tools p;
     predefinedScenarios := predefinedScenarios p;
     selectedScenario := selectedScenario p; agents := agents p |}.

Definition set_isCustomAvatar (v : bool) (p : Panel) : Panel :=
  {| turnDetectionType := turnDetectionType p;
     eouDetectionType := eouDetectionType p;
     removeFillerWords := removeFillerWords p; temperature := temperature p;
     voiceTemperature := voiceTemperature p; useCNV := useCNV p;
     voiceName := voiceName p; customVoiceName := customVoiceName p;
     voiceDeploymentId := voiceDeploymentId p; avatarName := avatarName p;
     customAvatarName := customAvatarName p; isAvatar := isAvatar p;
     isCustomAvatar := v; tools := tools p;
     predefinedScenarios := predefinedScenarios p;
     selectedScenario := selectedScenario p; agents := agents p |}.

Definition set_tools (v : list ToolDeclaration) (p : Panel) : Panel :=
  {| turnDetectionType := turnDetectionType p;
     eouDetectionType := eouDetectionType p;
     removeFillerWords := removeFillerWords p; temperature := temperature p;
     voiceTemperature := voiceTemperature p; useCNV := useCNV p;
     voiceName := voiceName p; customVoiceName := customVoiceName p;
     voiceDeploymentId := voiceDeploymentId p; avatarName := avatarName p;
     customAvatarName := customAvatarName p; isAvatar := isAvatar p;
     isCustomAvatar := isCustomAvatar p; tools := v;
     predefinedScenarios := predefinedScenarios p;
     selectedScenario := selectedScenario p; agents := agents p |}.

Definition set_predefinedScenarios (v : gmap string PredefinedScenario) (p : Panel) : Panel :=
  {| turnDetectionType := turnDetectionType p;
     eouDetectionType := eouDetectionType p;
     removeFillerWords := removeFillerWords p; temperature := temperature p;
     voiceTemperature := voiceTemperature p; useCNV := useCNV p;
     voiceName := voiceName p; customVoiceName := customVoiceName p;
     voiceDeploymentId := voiceDeploymentId p; avatarName := avatarName p;
     customAvatarName := customAvatarName p; isAvatar := isAvatar p;
     isCustomAvatar := isCustomAvatar p; tools := tools p;
     predefinedScenarios := v; selectedScenario := selectedScenario p;
     agents := agents p |}.

Definition set_selectedScenario (v : string) (p : Panel) : Panel :=
  {| turnDetectionType := turnDetectionType p;
     eouDetectionType := eouDetectionType p;
     removeFillerWords := removeFillerWords p; temperature := temperature p;
     voiceTemperature := voiceTemperature p; useCNV := useCNV p;
     voiceName := voiceName p; customVoiceName := customVoiceName p;
     voiceDeploymentId := voiceDeploymentId p; avatarName := avatarName p;
     customAvatarName := customAvatarName p; isAvatar := isAvatar p;
     isCustomAvatar := isCustomAvatar p; tools := tools p;
     predefinedScenarios := predefinedScenarios p; selectedScenario := v;
     agents := agents p |}.

Definition set_agents (v : list AgentEntry) (p : Panel) : Panel :=
  {| turnDetectionType := turnDetectionType p;
     eouDetectionType := eouDetectionType p;
     removeFillerWords := removeFillerWords p; temperature := temperature p;
     voiceTemperature := voiceTemperature p; useCNV := useCNV p;
     voiceName := voiceName p; customVoiceName := customVoiceName p;
     voiceDeploymentId := voiceDeploymentId p; avatarName := avatarName p;
     customAvatarName := customAvatarName p; isAvatar := isAvatar p;
     isCustomAvatar := isCustomAvatar p; tools := tools p;
     predefinedScenarios := predefinedScenarios p;
     selectedScenario := selectedScenario p; agents := v |}.


(** The settings as a whole. *)
Definition Form : Type := Settings * Panel.

Definition set_audioHandlerRef (v : bool) (s : State) : State :=
  {| settings := settings s; messages := messages s;
     currentMessage := currentMessage s; isRecording := isRecording s;
     isConnected := isConnected s; isConnecting := isConnecting s;
     hasRecording := hasRecording s; sessionId := sessionId s;
     clientRef := clientRef s; audioHandlerRef := v;
     proactiveManagerRef := proactiveManagerRef s;
     searchClientRef := searchClientRef s; isUserSpeaking := isUserSpeaking s;
     peerConnection := peerConnection s; heap := heap s; trace := trace s |}.

(** ** The configuration request, continued *)

(** [isCascaded(mode, model)]. *)
Definition cascadedModels : list string :=
  ["gpt-4o"; "gpt-4o-mini"; "gpt-4.1"; "gpt-4.1-mini"; "gpt-4.1-nano"; "phi4-mini"].

Definition isCascaded (m : Mode) (model_name : string) : bool :=
  match m with
  | agent_mode => true
  | model_mode => existsb (String.eqb model_name) cascadedModels
  end.

(** The [turnDetection] of [handleConnect].  It is the object held in the
    [turnDetectionType] state, and the two assignments change that object
    in place: the result is what [configure] is sent and also what the
    state holds from then on. *)
Definition turnDetection (cfg : Settings) (p : Panel) : option TurnDetection :=
  match turnDetectionType p with
  | None => None
  | Some td =>
      let td1 :=
        if negb (String.eqb (eouDetectionType p) "none") &&
           isCascaded (mode cfg) (model cfg)
        then {| td_type := td_type td;
                end_of_utterance_detection := Some (eouDetectionType p);
                remove_filler_words := remove_filler_words td |}
        else td in
      Some (if String.eqb (td_type td1) "azure_semantic_vad"
            then {| td_type := td_type td1;
                    end_of_utterance_detection := end_of_utterance_detection td1;
                    remove_filler_words := Some (removeFillerWords p) |}
            else td1)
  end.

(** The panel after [handleConnect] has computed its request. *)
Definition connect_panel (cfg : Settings) (p : Panel) : Panel :=
  set_turnDetectionType (turnDetection cfg p) p.

(** The [onValueChange] of the turn-detection selector. *)
Definition select_turn_detection (value : string) (p : Panel) : Panel :=
  set_turnDetectionType
    (if String.eqb value "none" then None
     else Some {| td_type := value; end_of_utterance_detection := None;
                  remove_filler_words := None |})
    p.

(** The [voice] of [handleConnect]. *)
Definition voice (p : Panel) : Voice :=
  if useCNV p then
    azure_custom (customVoiceName p) (voiceDeploymentId p)
      (if includes "dragonhd" (toLowerCase (customVoiceName p))
       then Some (voiceTemperature p) else None)
  else if includes "-" (voiceName p) then
    azure_standard (voiceName p)
      (if includes "dragonhd" (toLowerCase (voiceName p))
       then Some (voiceTemperature p) else None)
  else voice_id (voiceName p).

Definition videoParams : AvatarConfigVideoParams :=
  {| codec := "h264"; crop_top_left := (560, 0); crop_bottom_right := (1360, 1080) |}.

(** [avatarName.split("-")]; the array is never empty, so its element 0
    exists. *)
Definition getAvatarConfig (p : Panel) : option AvatarConfig :=
  if negb (isAvatar p) then None
  else if isCustomAvatar p && truthy (customAvatarName p) then
    Some {| character := customAvatarName p; style := None;
            customized := Some true; video := videoParams |}
  else if isAvatar p && negb (isCustomAvatar p) then
    Some {| character := toLowerCase (hd EmptyString (split hyphen (avatarName p)));
            style := Some (join_with "-" (tl (split hyphen (avatarName p))));
            customized := None; video := videoParams |}
  else None.

(** [isAvatar && (avatarName || customAvatarName)], as a condition. *)
Definition isEnableAvatar (p : Panel) : bool :=
  isAvatar p && (truthy (avatarName p) || truthy (customAvatarName p)).

(** ** Handlers of the panel *)

(** The [onChange] of the checkbox of the predefined tool [t]. *)
Definition onToolChange (checked : bool) (t : PredefinedTool) (f : Form) : Form :=
  let (cfg, p) := f in
  let p' :=
    if checked then set_tools (tools p ++ [tool t]) p
    else set_tools
           (List.filter (fun d => negb (String.eqb (name d) (name (tool t))))
                        (tools p)) p in
  (if String.eqb (tool_id t) "search" then set_enableSearch checked cfg else cfg, p').

Definition apply_voice (v : ScenarioVoice) (p : Panel) : Panel :=
  if custom_voice v then
    let p1 := set_useCNV true p in
    let p2 :=
      match deployment_id v with
      | Some d => if truthy d then set_voiceDeploymentId d p1 else p1
      | None => p1
      end in
    let p3 :=
      if truthy (scenario_voice_name v)
      then set_customVoiceName (scenario_voice_name v) p2 else p2 in
    match scenario_temperature v with
    | Some t => if number_truthy t then set_voiceTemperature t p3 else p3
    | None => p3
    end
  else
    let p1 := set_useCNV false p in
    if truthy (scenario_voice_name v)
    then set_voiceName (scenario_voice_name v) p1 else p1.

Definition apply_avatar (a : option ScenarioAvatar) (p : Panel) : Panel :=
  match a with
  | Some a =>
      let p1 := set_isAvatar (avatar_enabled a) p in
      if avatar_enabled a then
        let p2 := set_isCustomAvatar (avatar_customized a) p1 in
        if avatar_customized a
        then set_customAvatarName (avatar_name a) p2
        else set_avatarName (avatar_name a) p2
      else p1
  | None => set_isAvatar false p
  end.

(** [applyScenario].  The selector offers the own keys of the scenarios
    object ([Object.entries]), so the lookup is a lookup in the map; names
    inherited from [Object.prototype] are outside the model. *)
Definition applyScenario (scenarioKey : string) (f : Form) : Form :=
  let (cfg, p) := f in
  match predefinedScenarios p !! scenarioKey with
  | None => f
  | Some scenario =>
      let cfg1 :=
        match scenario_instructions scenario with
        | Some i => if truthy i then set_instructions i cfg else cfg
        | None => cfg
        end in
      let cfg2 :=
        match pro_active scenario with
        | Some b => set_enableProactive b cfg1
        | None => cfg1
        end in
      let p1 :=
        match scenario_voice scenario with
        | Some v => apply_voice v p
        | None => p
        end in
      let p2 := apply_avatar (scenario_avatar scenario) p1 in
      (cfg2, set_selectedScenario scenarioKey p2)
  end.

(** The effect of [fetchConfig] on the settings, for each answer of
    [/config]. *)
Definition apply_agent_config (a : AgentConfig) (f : Form) : Form :=
  let (cfg, p) := f in
  let cfg1 := set_agentProjectName (project_name a) cfg in
  match agent_entries a with
  | Some entries =>
      (match entries with
       | [entry] => set_agentId (entry_id entry) cfg1
       | _ => cfg1
       end,
       set_agents entries p)
  | None => (cfg1, p)
  end.

Definition fetchConfig (answer : ConfigOutcome) (f : Form) : Form :=
  let (cfg, p) := f in
  match answer with
  | config_not_found => (set_configLoaded false cfg, p)
  | config_failed _ => (set_configLoaded true cfg, p)
  | config_found config =>
      let cfg1 :=
        if truthy (fetched_endpoint config)
        then set_endpoint (fetched_endpoint config) cfg else cfg in
      let cfg2 :=
        if truthy (fetched_token config)
        then set_entraToken (fetched_token config) cfg1 else cfg1 in
      let p1 :=
        match pre_defined_scenarios config with
        | Some scenarios => set_predefinedScenarios scenarios p
        | None => p
        end in
      let (cfg3, p2) :=
        match agent config with
        | Some a =>
            if truthy (project_name a) then apply_agent_config a (cfg2, p1)
            else (cfg2, p1)
        | None => (cfg2, p1)
        end in
      (set_configLoaded true cfg3, p2)
  end.

(** The file name [downloadRecording] passes to the audio handler, with
    the session identifier, for the timestamp [iso] ([toISOString]);
    nothing is called without an audio handler. *)
Definition downloadRecording (iso : string) (s : State) : option (string * string) :=
  if audioHandlerRef s
  then Some ("conversation-" +:+ replace_colon_dot iso, sessionId s)
  else None.

(** ** Handlers of the proactive manager *)

Section Proactive.

Variable env : Env.

Definition whenGreeting : M unit :=
  c <- get clientRef ;;
  when (held c)
       (try_catch
          (call env (EvGenerateResponse (Some " Welcome the user.")))
          (fun e => record (EvConsoleError "Error generating greeting message:" e))).

Definition whenInactive : M unit :=
  c <- get clientRef ;;
  when (held c)
       (try_catch
          (call env
             (EvSendItem
                (message_item role_system
                   "User hasn't response for a while, please say something to continue the conversation.")) ;;
           call env (EvGenerateResponse None))
          (fun e => record (EvConsoleError "Error sending no activity message:" e))).

End Proactive.

(** ** Recording *)

Section Recording.

Variable env : Env.

(** The calls of [toggleRecording] that have no entry in [Event] are taken
    as arbitrary computations: [new AudioHandler()], [initialize],
    [startRecording] (with its callback), and [commitAudio]. *)
Variable AudioHandler_new : M unit.
Variable AudioHandler_initialize : M unit.
Variable AudioHandler_startRecording : M unit.
Variable RTClient_commitAudio : M RTInputAudioItem.

(** [await clientRef.current?.commitAudio()]. *)
Definition commitAudio : M (option RTInputAudioItem) :=
  c <- get clientRef ;;
  match c with
  | Some _ => item <- RTClient_commitAudio ;; ret (Some item)
  | None => ret None
  end.

(** [handleInputAudio(inputAudio!)]: without an item, the call of
    [waitForCompletion] is a TypeError. *)
Definition handleInputAudio_of (inputAudio : option RTInputAudioItem) : M unit :=
  match inputAudio with
  | Some item => handleInputAudio env item
  | None =>
      modify (set_isUserSpeaking true) ;;
      audio_call env stopStreamingPlayback ;;
      throw "TypeError: Cannot read properties of undefined (reading 'waitForCompletion')"
  end.

Definition toggleRecording (turnDetectionType : option TurnDetection) : M unit :=
  recording <- get isRecording ;;
  c <- get clientRef ;;
  h <- get audioHandlerRef ;;
  if negb recording && held c then
    try_catch
      (when (negb h)
            (AudioHandler_new ;;
             modify (set_audioHandlerRef true) ;;
             AudioHandler_initialize) ;;
       AudioHandler_startRecording ;;
       modify (set_isRecording true))
      (fun e => record (EvConsoleError "Failed to start recording:" e))
  else if h then
    try_catch
      (call env (EvAudio stopRecording) ;;
       call env (EvAudio stopRecordAnimation) ;;
       match turnDetectionType with
       | None =>
           inputAudio <- commitAudio ;;
           proactive_call env (EvUpdateActivity "user speaking") ;;
           handleInputAudio_of inputAudio ;;
           client_call env (EvGenerateResponse None)
       | Some _ => ret tt
       end ;;
       modify (set_isRecording false))
      (fun e => record (EvConsoleError "Failed to stop recording:" e))
  else ret tt.

End Recording.

(** ** Vocabulary of the panel properties *)

(** The [search] tool is among the declared tools. *)
Definition search_declared (l : list ToolDeclaration) : bool :=
  existsb (fun d => String.eqb (name d) "search") l.

(** The avatar a scenario asks for. *)
Definition scenario_avatar_config (a : option ScenarioAvatar) : option AvatarConfig :=
  match a with
  | Some a =>
      if avatar_enabled a then
        if avatar_customized a then
          if truthy (avatar_name a)
          then Some {| character := avatar_name a; style := None;
                       customized := Some true; video := videoParams |}
          else None
        else
          Some {| character :=
                    toLowerCase (hd EmptyString (split hyphen (avatar_name a)));
                  style := Some (join_with "-" (tl (split hyphen (avatar_name a))));
                  customized := None; video := videoParams |}
      else None
  | None => None
  end.


(** Every character is below 128, so the string is the same text in
    JavaScript, one code unit per character. *)
Definition ascii_only (s : string) : bool :=
  forallb (fun c => nat_of_ascii c <? 128) (list_ascii_of_string s).

(** [m] takes every state to one that [R] relates it to, whatever its
    outcome. *)
Definition advances (R : State -> State -> Prop) {A} (m : M A) : Prop :=
  forall s, R s (snd (m s)).


(** The lookup client, the proactive manager and the audio handler are
    still held if they were. *)
Definition keeps_handles (s s' : State) : Prop :=
  (held (searchClientRef s) = true -> held (searchClientRef s') = true) /\
  (proactiveManagerRef s = true -> proactiveManagerRef s' = true) /\
  (audioHandlerRef s = true -> audioHandlerRef s' = true).

(** [m] only adds calls to the trace, and every call it adds is one [P]
    accepts, whatever its outcome. *)
Definition emits (P : Event -> bool) {A} (m : M A) : Prop :=
  forall s, exists evs, trace (snd (m s)) = trace s ++ evs /\ forallb P evs = true.

(** The calls that handling server events can lead to: appending to the
    log, awaiting an item, parsing arguments, a lookup, a function-call
    output, a plain response request, playback control, activity reports
    and console errors. *)
Definition listener_call (ev : Event) : bool :=
  match ev with
  | EvSetMessages _ | EvWaitForCompletion | EvJSONParse _ | EvSearch _ _ _
  | EvUpdateActivity _ | EvConsoleError _ _ => true
  | EvSendItem (function_call_output _ _) => true
  | EvGenerateResponse None => true
  | EvAudio stopStreamingPlayback | EvAudio startStreamingPlayback
  | EvAudio (playChunk _) => true
  | _ => false
  end.

(** The settings after the answer [config] of a token refresh. *)
Definition refreshed (config : FetchResponse) (c : Settings) : Settings :=
  if ok config then
    let c1 :=
      if truthy (config_endpoint config)
      then set_endpoint (config_endpoint config) c else c in
    if truthy (config_token config)
    then set_entraToken (config_token config) c1 else c1
  else c.

(** The system message [whenInactive] sends. *)
Definition inactivity_nudge : OutItem :=
  message_item role_system
    "User hasn't response for a while, please say something to continue the conversation.".

(** The calls of [whenInactive] while a client is held. *)
Definition inactive_calls (env : Env) (s : State) : list Event :=
  let n := length (trace s) in
  EvSendItem inactivity_nudge ::
  match throws env n (EvSendItem inactivity_nudge) with
  | Some e => [EvConsoleError "Error sending no activity message:" e]
  | None =>
      EvGenerateResponse None ::
      match throws env (n + 1) (EvGenerateResponse None) with
      | Some e => [EvConsoleError "Error sending no activity message:" e]
      | None => []
      end
  end.

(** The calls of [whenGreeting] while a client is held. *)
Definition greeting_calls (env : Env) (s : State) : list Event :=
  let greet := EvGenerateResponse (Some " Welcome the user.") in
  greet ::
  match throws env (length (trace s)) greet with
  | Some e => [EvConsoleError "Error generating greeting message:" e]
  | None => []
  end.

(** The calls of [toggleRecording] when it stops the recording under
    server-side turn detection. *)
Definition stop_recording_calls (env : Env) (s : State) : list Event :=
  let n := length (trace s) in
  EvAudio stopRecording ::
  match throws env n (EvAudio stopRecording) with
  | Some e => [EvConsoleError "Failed to stop recording:" e]
  | None =>
      EvAudio stopRecordAnimation ::
      match throws env (n + 1) (EvAudio stopRecordAnimation) with
      | Some e => [EvConsoleError "Failed to stop recording:" e]
      | None => []
      end
  end.

(** * Sample sessions and environments *)

(** An environment in which every call succeeds. *)
Definition quiet_env : Env :=
  {| throws := fun _ _ => None;
     fetch_config := fun _ =>
       {| ok := false; config_endpoint := EmptyString; config_token := EmptyString |};
     configure_session := fun _ => {| session_id := "sess-1"; session_avatar := false |};
     now := fun _ =>
       {| weekday := 2; year := 2026; month := 10; day := 3; hour := 16;
          minute := 5; second := 9; timeZoneName := "UTC" |};
     parsed_query := fun text => text;
     search_results := fun _ _ =>
       {| chunks := [[("chunk_id", "doc1"); ("chunk", "first hit")];
                     [("chunk_id", "doc2"); ("chunk", "second hit")]];
          rejects := None |};
     recorded_audio := fun _ => true |}.

(** The settings of a fresh component. *)
Definition default_settings : Settings :=
  {| apiKey := EmptyString; endpoint := EmptyString; entraToken := EmptyString;
     model := "gpt-4o-realtime-preview"; mode := model_mode;
     agentProjectName := EmptyString; agentId := EmptyString;
     instructions := EmptyString; recognitionLanguage := "auto";
     useNS := false; useEC := false; enableProactive := false;
     enableSearch := false; searchEndpoint := EmptyString;
     searchApiKey := EmptyString; searchIndex := EmptyString;
     searchContentField := "chunk"; searchIdentifierField := "chunk_id";
     configLoaded := false |}.

(** The component as first rendered, after the audio handler was set up. *)
Definition initial_state : State :=
  {| settings := default_settings; messages := []; currentMessage := EmptyString;
     isRecording := false; isConnected := false; isConnecting := false;
     hasRecording := false; sessionId := EmptyString; clientRef := None;
     audioHandlerRef := true; proactiveManagerRef := false;
     searchClientRef := None; isUserSpeaking := false; peerConnection := false;
     heap := []; trace := [] |}.

(** A connected session: the state [handleConnect] reaches from
    [initial_state] when nothing fails. *)
Definition connected_state : State := snd (handleConnect quiet_env initial_state).

(** A text part followed by an audio part. *)
Definition sample_parts : Stream ContentPart :=
  {| chunks :=
       [text_part {| chunks := ["Hel"; "lo"]; rejects := None |};
        audio_part {| chunks := [", "; "wor"; "ld"]; rejects := None |}
                   {| chunks := [[Byte.x01]; [Byte.x02]]; rejects := None |}
                   [false; true; true; false]];
     rejects := None |}.

(** Agent mode selected, no agent chosen yet. *)
Definition agent_settings : Settings :=
  {| apiKey := EmptyString; endpoint := "https://example.cognitiveservices.azure.com/";
     entraToken := "token";
     model := "gpt-4o-realtime-preview"; mode := agent_mode;
     agentProjectName := "project"; agentId := EmptyString;
     instructions := EmptyString; recognitionLanguage := "auto";
     useNS := false; useEC := false; enableProactive := false;
     enableSearch := false; searchEndpoint := EmptyString;
     searchApiKey := EmptyString; searchIndex := EmptyString;
     searchContentField := "chunk"; searchIdentifierField := "chunk_id";
     configLoaded := true |}.

Definition agent_mode_state : State :=
  set_settings (fun _ => agent_settings) initial_state.



(** Closing the transport fails. *)
Definition failing_close_env : Env :=
  {| throws := fun _ ev =>
       match ev with
       | EvClose => Some "socket error"
       | _ => None
       end;
     fetch_config := fetch_config quiet_env;
     configure_session := configure_session quiet_env;
     now := now quiet_env;
     parsed_query := parsed_query quiet_env;
     search_results := search_results quiet_env;
     recorded_audio := recorded_audio quiet_env |}.

(** Every [sendItem] fails. *)
Definition failing_send_env : Env :=
  {| throws := fun _ ev =>
       match ev with
       | EvSendItem _ => Some "network down"
       | _ => None
       end;
     fetch_config := fetch_config quiet_env;
     configure_session := configure_session quiet_env;
     now := now quiet_env;
     parsed_query := parsed_query quiet_env;
     search_results := search_results quiet_env;
     recorded_audio := recorded_audio quiet_env |}.

(** A connected session in which the user has typed "hello". *)
Definition typing_state : State := set_currentMessage "hello" connected_state.


(** [JSON.parse] rejects the arguments. *)
Definition failing_parse_env : Env :=
  {| throws := fun _ ev =>
       match ev with
       | EvJSONParse _ => Some "SyntaxError: Unexpected end of JSON input"
       | _ => None
       end;
     fetch_config := fetch_config quiet_env;
     configure_session := configure_session quiet_env;
     now := now quiet_env;
     parsed_query := parsed_query quiet_env;
     search_results := search_results quiet_env;
     recorded_audio := recorded_audio quiet_env |}.


(** A connected session in which an assistant answer is being played. *)
Definition playing_state : State :=
  snd (handle_item quiet_env (message role_assistant sample_parts) connected_state).


(** Stopping the playback fails. *)
Definition failing_playback_env : Env :=
  {| throws := fun _ ev =>
       match ev with
       | EvAudio stopStreamingPlayback => Some "playback error"
       | _ => None
       end;
     fetch_config := fetch_config quiet_env;
     configure_session := configure_session quiet_env;
     now := now quiet_env;
     parsed_query := parsed_query quiet_env;
     search_results := search_results quiet_env;
     recorded_audio := recorded_audio quiet_env |}.


Definition double_quote : string := String (ascii_of_nat 34) EmptyString.

(** The arguments of a search call: the JSON text of an object whose
    [query] is the string test. *)
Definition search_arguments : string :=
  "{" +:+ double_quote +:+ "query" +:+ double_quote +:+ ":" +:+
  double_quote +:+ "test" +:+ double_quote +:+ "}".

(** An environment in which every call succeeds, [search_arguments] parses
    to the query test, and the lookup finds two documents. *)
Definition service_env : Env :=
  {| throws := fun _ _ => None;
     fetch_config := fetch_config quiet_env;
     configure_session := configure_session quiet_env;
     now := now quiet_env;
     parsed_query := fun text =>
       if String.eqb text search_arguments then "test" else "undefined";
     search_results := fun _ _ =>
       {| chunks := [[("chunk_id", "doc-1"); ("chunk", "first hit")];
                     [("chunk_id", "doc-2"); ("chunk", "second hit")]];
          rejects := None |};
     recorded_audio := recorded_audio quiet_env |}.

(** An endpoint and an API key; the search tool is not selected. *)
Definition service_settings : Settings :=
  {| apiKey := "key-1"; endpoint := "https://example.cognitiveservices.azure.com/";
     entraToken := EmptyString;
     model := "gpt-4o-realtime-preview"; mode := model_mode;
     agentProjectName := EmptyString; agentId := EmptyString;
     instructions := EmptyString; recognitionLanguage := "auto";
     useNS := false; useEC := false; enableProactive := false;
     enableSearch := false; searchEndpoint := EmptyString;
     searchApiKey := EmptyString; searchIndex := EmptyString;
     searchContentField := "chunk"; searchIdentifierField := "chunk_id";
     configLoaded := false |}.

(** The same, with the search tool selected and configured. *)
Definition lookup_settings : Settings :=
  {| apiKey := "key-1"; endpoint := "https://example.cognitiveservices.azure.com/";
     entraToken := EmptyString;
     model := "gpt-4o-realtime-preview"; mode := model_mode;
     agentProjectName := EmptyString; agentId := EmptyString;
     instructions := EmptyString; recognitionLanguage := "auto";
     useNS := false; useEC := false; enableProactive := false;
     enableSearch := true; searchEndpoint := "https://example.search.windows.net";
     searchApiKey := "search-key"; searchIndex := "documents";
     searchContentField := "chunk"; searchIdentifierField := "chunk_id";
     configLoaded := false |}.

(** The sessions [handleConnect] opens from these settings. *)
Definition service_session : State :=
  snd (handleConnect service_env
         (set_settings (fun _ => service_settings) initial_state)).

Definition lookup_session : State :=
  snd (handleConnect service_env
         (set_settings (fun _ => lookup_settings) initial_state)).

(** ** Sample panels *)

(** The panel of a fresh component. *)
Definition default_panel : Panel :=
  {| turnDetectionType :=
       Some {| td_type := "server_vad"; end_of_utterance_detection := None;
               remove_filler_words := None |};
     eouDetectionType := "none"; removeFillerWords := false;
     temperature := (9 # 10)%Q; voiceTemperature := (9 # 10)%Q;
     useCNV := false; voiceName := "en-US-AvaNeural";
     customVoiceName := EmptyString; voiceDeploymentId := EmptyString;
     avatarName := "Lisa-casual-sitting"; customAvatarName := EmptyString;
     isAvatar := false; isCustomAvatar := false; tools := [];
     predefinedScenarios := empty; selectedScenario := EmptyString; agents := [] |}.

(** The avatar switched on, with the default avatar. *)
Definition avatar_panel : Panel := set_isAvatar true default_panel.

(** A custom avatar chosen, but not named. *)
Definition unnamed_avatar_panel : Panel := set_isCustomAvatar true avatar_panel.

(** A cascaded model selected. *)
Definition cascaded_settings : Settings :=
  {| apiKey := EmptyString; endpoint := "https://example.cognitiveservices.azure.com/";
     entraToken := EmptyString;
     model := "gpt-4.1"; mode := model_mode;
     agentProjectName := EmptyString; agentId := EmptyString;
     instructions := EmptyString; recognitionLanguage := "auto";
     useNS := false; useEC := false; enableProactive := false;
     enableSearch := false; searchEndpoint := EmptyString;
     searchApiKey := EmptyString; searchIndex := EmptyString;
     searchContentField := "chunk"; searchIdentifierField := "chunk_id";
     configLoaded := false |}.

(** End-of-utterance detection switched on. *)
Definition eou_panel : Panel := set_eouDetectionType "semantic_detection_v1" default_panel.

(** Two scenarios: one with instructions, a custom voice and a standard
    avatar, one that only names itself. *)
Definition support_scenario : PredefinedScenario :=
  {| scenario_name := "Support";
     scenario_instructions := Some "You are a support agent.";
     pro_active := Some true;
     scenario_voice :=
       Some {| custom_voice := true; deployment_id := Some "deployment-1";
               scenario_voice_name := "SupportVoice";
               scenario_temperature := None |};
     scenario_avatar :=
       Some {| avatar_enabled := true; avatar_customized := false;
               avatar_name := "Meg-formal" |} |}.

Definition plain_scenario : PredefinedScenario :=
  {| scenario_name := "Plain"; scenario_instructions := None;
     pro_active := None; scenario_voice := None; scenario_avatar := None |}.

Definition scenario_panel : Panel :=
  set_predefinedScenarios
    (<["support" := support_scenario]> (<["plain" := plain_scenario]> empty))
    default_panel.

(** The component before [service_session] is opened. *)
Definition service_state : State :=
  set_settings (fun _ => service_settings) initial_state.

(** A response that asks for a search with arguments that do not parse. *)
Definition broken_search_response : RTResponse :=
  {| items := {| chunks := [function_call "search" "{" "call-1"]; rejects := None |};
     response_status := completed; statusDetails := "null" |}.

Definition utterance : RTInputAudioItem := {| transcription := Some "hello" |}.

(** An answer is being streamed (its first fragment has arrived) when the
    user sends a typed message. *)
Definition interrupted_state : State :=
  snd (sendMessage service_env
         (set_currentMessage "hi"
            (snd (on_text 1 "Hel" (opened service_session))))).

(** [/config] answers with a fresh token. *)
Definition token_env : Env :=
  {| throws := fun _ _ => None;
     fetch_config := fun _ =>
       {| ok := true; config_endpoint := EmptyString; config_token := "fresh-token" |};
     configure_session := configure_session quiet_env;
     now := now quiet_env;
     parsed_query := parsed_query quiet_env;
     search_results := search_results quiet_env;
     recorded_audio := recorded_audio quiet_env |}.

(** The configuration was loaded when the component was mounted; the
    session uses an API key. *)
Definition key_settings : Settings :=
  {| apiKey := "key-1"; endpoint := "https://example.cognitiveservices.azure.com/";
     entraToken := EmptyString;
     model := "gpt-4o-realtime-preview"; mode := model_mode;
     agentProjectName := EmptyString; agentId := EmptyString;
     instructions := EmptyString; recognitionLanguage := "auto";
     useNS := false; useEC := false; enableProactive := false;
     enableSearch := false; searchEndpoint := EmptyString;
     searchApiKey := EmptyString; searchIndex := EmptyString;
     searchContentField := "chunk"; searchIdentifierField := "chunk_id";
     configLoaded := true |}.

Definition key_state : State := set_settings (fun _ => key_settings) initial_state.

(** An answer of [/config] that lists one agent. *)
Definition single_agent : AgentConfig :=
  {| project_name := "project";
     agent_entries := Some [{| entry_id := "agent-1"; entry_name := "Helper" |}] |}.

Definition single_agent_config : Config :=
  {| fetched_endpoint := "https://example.cognitiveservices.azure.com/";
     fetched_token := "token";
     pre_defined_scenarios := None;
     agent := Some single_agent |}.

(** * Properties *)

(** ** States *)

Lemma state_eq (s1 s2 : State) :
  settings s1 = settings s2 -> messages s1 = messages s2 ->
  currentMessage s1 = currentMessage s2 -> isRecording s1 = isRecording s2 ->
  isConnected s1 = isConnected s2 -> isConnecting s1 = isConnecting s2 ->
  hasRecording s1 = hasRecording s2 -> sessionId s1 = sessionId s2 ->
  clientRef s1 = clientRef s2 -> audioHandlerRef s1 = audioHandlerRef s2 ->
  proactiveManagerRef s1 = proactiveManagerRef s2 ->
  searchClientRef s1 = searchClientRef s2 ->
  isUserSpeaking s1 = isUserSpeaking s2 ->
  peerConnection s1 = peerConnection s2 ->
  heap s1 = heap s2 -> trace s1 = trace s2 -> s1 = s2.
Proof. destruct s1, s2; simpl; intros; subst; reflexivity. Qed.

Ltac state_ext :=
  apply state_eq; simpl; rewrite <- ?app_assoc; try reflexivity.

(** ** Strings *)

Lemma append_cons (a : ascii) (s t : string) :
  String a s +:+ t = String a (s +:+ t).
Proof. reflexivity. Qed.

Lemma append_nil_r (s : string) : s +:+ EmptyString = s.
Proof.
  induction s as [|a s IH]; [reflexivity | now rewrite append_cons, IH].
Qed.

Lemma append_assoc (s1 s2 s3 : string) : (s1 +:+ s2) +:+ s3 = s1 +:+ (s2 +:+ s3).
Proof.
  induction s1 as [|a s1 IH]; [reflexivity | now rewrite !append_cons, IH].
Qed.

Lemma join_app (l1 l2 : list string) : join (l1 ++ l2) = join l1 +:+ join l2.
Proof.
  induction l1 as [|x l1 IH]; simpl; [reflexivity |].
  now rewrite IH, append_assoc.
Qed.

(** ** The monad *)

Lemma for_each_app {A} (body : A -> M unit) (l1 l2 : list A) (s : State) :
  for_each body (l1 ++ l2) s =
  match for_each body l1 s with
  | (Val _, s') => for_each body l2 s'
  | (Exn e, s') => (Exn e, s')
  end.
Proof.
  revert s. induction l1 as [|x l1 IH]; intros s; simpl; [reflexivity |].
  unfold bind. destruct (body x s) as [[[]|e] s1]; [apply IH | reflexivity].
Qed.

Lemma for_each_map {A B} (f : A -> B) (body : B -> M unit) (l : list A) :
  for_each body (map f l) = for_each (fun x => body (f x)) l.
Proof. induction l as [|x l IH]; simpl; [reflexivity | now rewrite IH]. Qed.

Lemma interleave_map {A B} (f : A -> B) (arrival : list bool) (l1 l2 : list A) :
  interleave arrival (map f l1) (map f l2) = map f (interleave arrival l1 l2).
Proof.
  revert l1 l2. induction arrival as [|[] arrival IH]; intros l1 l2; simpl.
  - now rewrite map_app.
  - destruct l1; simpl; [reflexivity | now rewrite IH].
  - destruct l2; simpl; [reflexivity |]. now rewrite <- IH.
Qed.

(** The orders [interleave] can produce are exactly the shuffles of the two
    step lists. *)
Lemma merge_app {A} (l1 l2 : list A) : merge l1 l2 (l1 ++ l2).
Proof.
  induction l1 as [|x l1 IH]; simpl; [apply merge_nil_l | now apply merge_l].
Qed.

Lemma interleave_merge {A} (arrival : list bool) (l1 l2 : list A) :
  merge l1 l2 (interleave arrival l1 l2).
Proof.
  revert l1 l2. induction arrival as [|[] arrival IH]; intros l1 l2; simpl.
  - apply merge_app.
  - destruct l1; [apply merge_nil_l | apply merge_l, IH].
  - destruct l2; [apply merge_nil_r | apply merge_r, IH].
Qed.

Lemma merge_interleave {A} (l1 l2 l : list A) :
  merge l1 l2 l -> exists arrival, interleave arrival l1 l2 = l.
Proof.
  induction 1 as [l|l|x l1 l2 l _ [arrival IH]|y l1 l2 l _ [arrival IH]].
  - now exists [].
  - exists []. simpl. apply List.app_nil_r.
  - exists (true :: arrival). simpl. now rewrite IH.
  - exists (false :: arrival). simpl. now rewrite IH.
Qed.

(** Interleaving loses nothing and keeps the order inside each task. *)
Lemma interleave_filter_l {A} (P : A -> bool) (arrival : list bool) (l1 l2 : list A) :
  forallb P l1 = true -> forallb (fun x => negb (P x)) l2 = true ->
  List.filter P (interleave arrival l1 l2) = l1.
Proof.
  revert l1 l2. induction arrival as [|b arrival IH]; intros l1 l2 H1 H2.
  - simpl. rewrite List.filter_app.
    assert (E2 : List.filter P l2 = []).
    { clear H1. induction l2 as [|y l2 IHl]; simpl in *; [reflexivity |].
      apply andb_true_iff in H2 as [Hy H2]. apply negb_true_iff in Hy.
      rewrite Hy. now apply IHl. }
    assert (E1 : List.filter P l1 = l1).
    { clear H2. induction l1 as [|x l1 IHl]; simpl in *; [reflexivity |].
      apply andb_true_iff in H1 as [Hx H1]. rewrite Hx. f_equal. now apply IHl. }
    now rewrite E1, E2, List.app_nil_r.
  - destruct b; simpl.
    + destruct l1 as [|x l1]; simpl in *.
      * clear IH H1. induction l2 as [|y l2 IHl]; simpl in *; [reflexivity |].
        apply andb_true_iff in H2 as [Hy H2]. apply negb_true_iff in Hy.
        rewrite Hy. now apply IHl.
      * apply andb_true_iff in H1 as [Hx H1]. rewrite Hx. f_equal. now apply IH.
    + destruct l2 as [|y l2]; simpl in *.
      * clear IH H2. induction l1 as [|x l1 IHl]; simpl in *; [reflexivity |].
        apply andb_true_iff in H1 as [Hx H1]. rewrite Hx. f_equal. now apply IHl.
      * apply andb_true_iff in H2 as [Hy H2]. apply negb_true_iff in Hy.
        rewrite Hy. now apply IH.
Qed.

Lemma interleave_swap {A} (P : A -> bool) (arrival : list bool) (l1 l2 : list A) :
  forallb P l1 = true -> forallb (fun x => negb (P x)) l2 = true ->
  List.filter (fun x => negb (P x)) (interleave arrival l1 l2) = l2.
Proof.
  revert l1 l2. induction arrival as [|b arrival IH]; intros l1 l2 H1 H2.
  - simpl. rewrite List.filter_app.
    assert (E1 : List.filter (fun x => negb (P x)) l1 = []).
    { clear H2. induction l1 as [|x l1 IHl]; simpl in *; [reflexivity |].
      apply andb_true_iff in H1 as [Hx H1]. rewrite Hx. simpl. now apply IHl. }
    assert (E2 : List.filter (fun x => negb (P x)) l2 = l2).
    { clear H1. induction l2 as [|y l2 IHl]; simpl in *; [reflexivity |].
      apply andb_true_iff in H2 as [Hy H2]. rewrite Hy. f_equal. now apply IHl. }
    now rewrite E1, E2.
  - destruct b; simpl.
    + destruct l1 as [|x l1]; simpl in *.
      * clear IH H1. induction l2 as [|y l2 IHl]; simpl in *; [reflexivity |].
        apply andb_true_iff in H2 as [Hy H2]. rewrite Hy. f_equal. now apply IHl.
      * apply andb_true_iff in H1 as [Hx H1]. rewrite Hx. simpl. now apply IH.
    + destruct l2 as [|y l2]; simpl in *.
      * clear IH H2. induction l1 as [|x l1 IHl]; simpl in *; [reflexivity |].
        apply andb_true_iff in H1 as [Hx H1]. rewrite Hx. simpl. now apply IHl.
      * apply andb_true_iff in H2 as [Hy H2]. rewrite Hy. f_equal. now apply IH.
Qed.

(** ** Calls *)

Lemma length_snoc {A} (l : list A) (x : A) : length (l ++ [x]) = length l + 1.
Proof. rewrite length_app. reflexivity. Qed.

Lemma call_run (env : Env) (ev : Event) (s : State) :
  call env ev s = (outcome (throws env (length (trace s)) ev), after [ev] s).
Proof. unfold call, after. now destruct (throws env _ ev). Qed.

Lemma after_after (evs1 evs2 : list Event) (s : State) :
  after evs2 (after evs1 s) = after (evs1 ++ evs2) s.
Proof. unfold after, set_trace; simpl. now rewrite app_assoc. Qed.

Lemma trace_after (evs : list Event) (s : State) :
  length (trace (after evs s)) = length (trace s) + length evs.
Proof. unfold after; simpl. apply length_app. Qed.

Lemma call_quiet (env : Env) (ev : Event) (s : State) :
  quiet env -> call env ev s = (Val tt, after [ev] s).
Proof. intros Hq. unfold call. now rewrite Hq. Qed.

Ltac run_quiet env E :=
  repeat first
    [ rewrite (call_quiet env) in E by assumption
    | progress cbn [when] in E
    | progress unfold ret in E
    | progress cbv beta iota zeta in E ].

(** Running a handler call by call. *)
Lemma bind_call (env : Env) (ev : Event) {B} (k : unit -> M B) (s : State) :
  bind (call env ev) k s =
  match throws env (length (trace s)) ev with
  | Some e => (Exn e, after [ev] s)
  | None => k tt (after [ev] s)
  end.
Proof. unfold bind. rewrite call_run. now destruct (throws env _ ev). Qed.

Lemma bind_assoc {A B C} (m : M A) (k1 : A -> M B) (k2 : B -> M C) (s : State) :
  bind (bind m k1) k2 s = bind m (fun a => bind (k1 a) k2) s.
Proof. unfold bind. now destruct (m s) as [[a|e] s1]. Qed.

Lemma bind_get {A B} (f : State -> A) (k : A -> M B) (s : State) :
  bind (get f) k s = k (f s) s.
Proof. reflexivity. Qed.

Lemma bind_modify {B} (g : State -> State) (k : unit -> M B) (s : State) :
  bind (modify g) k s = k tt (g s).
Proof. reflexivity. Qed.

Lemma bind_ret {A B} (a : A) (k : A -> M B) (s : State) :
  bind (ret a) k s = k a s.
Proof. reflexivity. Qed.

(** Runs the computation in [E] up to each call, with a case for each
    outcome of the call; [Hh], [Hp] and [Hr] say which handles are held and
    whether a recording is running. *)
Ltac run_calls E Hh Hp Hr :=
  repeat first
    [ rewrite bind_assoc in E
    | rewrite bind_get in E
    | rewrite bind_modify in E
    | rewrite bind_ret in E
    | rewrite bind_call in E
    | rewrite call_run in E
    | rewrite length_snoc in E
    | progress cbn [when outcome audioHandlerRef proactiveManagerRef isRecording
                    trace after set_trace set_clientRef set_peerConnection
                    set_isConnected set_isRecording set_isUserSpeaking
                    set_hasRecording] in E
    | rewrite Hh in E
    | rewrite Hp in E
    | rewrite Hr in E
    | match type of E with
      | context [throws ?en ?n ?ev] => destruct (throws en n ev) eqn:?
      end
    | progress unfold modify, ret in E ].

(** ** Streaming into the open message *)

Lemma streaming_record (l : nat) (c : string) (tr evs : list Event) (s : State) :
  set_trace (fun t => t ++ evs) (streaming l c tr s) = streaming l c (tr ++ evs) s.
Proof. unfold streaming, set_trace, set_heap; simpl. now rewrite app_assoc. Qed.

Lemma on_text_streaming (l : nat) (text c : string) (tr : list Event) (s : State) :
  last (messages s) = Some l -> l < length (heap s) ->
  on_text l text (streaming l c tr s) = (Val tt, streaming l (c +:+ text) tr s).
Proof.
  intros Hlast Hl.
  unfold on_text, bind, modify, streaming, set_trace, set_heap; simpl.
  do 2 f_equal.
  unfold append_content. rewrite list_lookup_insert_eq by exact Hl.
  rewrite list_insert_insert_eq. simpl.
  unfold refresh_last. rewrite Hlast.
  rewrite list_lookup_insert_eq by exact Hl. simpl.
  destruct (truthy (c +:+ text)); [| reflexivity].
  now rewrite list_insert_insert_eq.
Qed.

Lemma call_streaming (env : Env) (ev : Event) (l : nat) (c : string)
      (tr : list Event) (s : State) :
  call env ev (streaming l c tr s) =
  (match throws env (length (trace s ++ tr)) ev with
   | Some e => Exn e
   | None => Val tt
   end, streaming l c (tr ++ [ev]) s).
Proof.
  unfold call. rewrite streaming_record.
  change (trace (streaming l c tr s)) with (trace s ++ tr).
  now destruct (throws env _ ev).
Qed.

Lemma proactive_call_snd (env : Env) (ev : Event) (s : State) :
  snd (proactive_call env ev s) =
  if proactiveManagerRef s then after [ev] s else s.
Proof.
  unfold proactive_call, bind, get.
  destruct (proactiveManagerRef s); cbn [when]; [| reflexivity].
  now rewrite call_run.
Qed.

Lemma on_audio_streaming (env : Env) (a : Bytes) (l : nat) (c : string)
      (tr : list Event) (s : State) :
  on_audio env a (streaming l c tr s) =
  if audioHandlerRef s then
    match throws env (length (trace s ++ tr)) (EvAudio (playChunk a)) with
    | Some e => (Exn e, streaming l c (tr ++ [EvAudio (playChunk a)]) s)
    | None =>
        (Val tt,
         streaming l c
           (tr ++ playback_events true (proactiveManagerRef s) [a]) s)
    end
  else (Val tt, streaming l c tr s).
Proof.
  unfold on_audio, bind, get.
  change (audioHandlerRef (streaming l c tr s)) with (audioHandlerRef s).
  destruct (audioHandlerRef s); simpl; [| reflexivity].
  unfold AudioHandler_playChunk, bind. rewrite call_streaming.
  destruct (throws env _ _); [reflexivity |].
  rewrite proactive_call_snd.
  change (proactiveManagerRef (streaming l c (tr ++ [EvAudio (playChunk a)]) s))
    with (proactiveManagerRef s).
  destruct (proactiveManagerRef s); simpl.
  - unfold after. rewrite streaming_record. now rewrite <- app_assoc.
  - reflexivity.
Qed.

Lemma playback_events_nil (h p : bool) : playback_events h p [] = [].
Proof. now destruct h. Qed.

Lemma playback_events_cons (h p : bool) (a : Bytes) (audios : list Bytes) :
  playback_events h p (a :: audios) =
  playback_events h p [a] ++ playback_events h p audios.
Proof. destruct h; [| reflexivity]. simpl. now rewrite List.app_nil_r. Qed.

Lemma texts_of_text_steps (st : Stream string) : texts_of (text_steps st) = chunks st.
Proof.
  unfold text_steps. induction (chunks st) as [|t ts IH]; simpl.
  - now destruct (rejects st).
  - now rewrite IH.
Qed.

Lemma audios_of_audio_steps (st : Stream Bytes) : audios_of (audio_steps st) = chunks st.
Proof.
  unfold audio_steps. induction (chunks st) as [|t ts IH]; simpl.
  - now destruct (rejects st).
  - now rewrite IH.
Qed.

Lemma texts_of_filter (steps : list Step) :
  texts_of (List.filter from_text_task steps) = texts_of steps.
Proof.
  induction steps as [|[t|a|[] e] steps IH]; simpl; try exact IH.
  - reflexivity.
  - now rewrite IH.
Qed.

Lemma audios_of_filter (steps : list Step) :
  audios_of (List.filter (fun st => negb (from_text_task st)) steps) = audios_of steps.
Proof.
  induction steps as [|[t|a|[] e] steps IH]; simpl; try exact IH.
  - reflexivity.
  - now rewrite IH.
Qed.

Lemma existsb_reject_filter (P : Step -> bool) (steps : list Step) :
  existsb is_reject steps = false -> existsb is_reject (List.filter P steps) = false.
Proof.
  induction steps as [|st steps IH]; simpl; [reflexivity |].
  intros H. apply orb_false_iff in H as [H1 H2].
  destruct (P st); simpl; [rewrite H1 |]; now apply IH.
Qed.

Lemma text_steps_reject (st : Stream string) :
  existsb is_reject (text_steps st) = false <-> rejects st = None.
Proof.
  unfold text_steps. rewrite existsb_app.
  assert (E : existsb is_reject (map step_text (chunks st)) = false)
    by (induction (chunks st); simpl; auto).
  rewrite E. simpl. destruct (rejects st); simpl; split; congruence.
Qed.

Lemma audio_steps_reject (st : Stream Bytes) :
  existsb is_reject (audio_steps st) = false <-> rejects st = None.
Proof.
  unfold audio_steps. rewrite existsb_app.
  assert (E : existsb is_reject (map step_audio (chunks st)) = false)
    by (induction (chunks st); simpl; auto).
  rewrite E. simpl. destruct (rejects st); simpl; split; congruence.
Qed.

Lemma text_steps_side (st : Stream string) :
  forallb from_text_task (text_steps st) = true.
Proof.
  unfold text_steps. rewrite forallb_app.
  assert (E : forallb from_text_task (map step_text (chunks st)) = true)
    by (induction (chunks st); simpl; auto).
  rewrite E. now destruct (rejects st).
Qed.

Lemma audio_steps_side (st : Stream Bytes) :
  forallb (fun x => negb (from_text_task x)) (audio_steps st) = true.
Proof.
  unfold audio_steps. rewrite forallb_app.
  assert (E : forallb (fun x => negb (from_text_task x))
                      (map step_audio (chunks st)) = true)
    by (induction (chunks st); simpl; auto).
  rewrite E. now destruct (rejects st).
Qed.

Section Streaming.

Variable env : Env.
Variable l : nat.
Variable s : State.
Hypothesis Hlast : last (messages s) = Some l.
Hypothesis Hl : l < length (heap s).

Let h := audioHandlerRef s.
Let p := proactiveManagerRef s.

(** A run of steps that ends normally has met no rejection, has appended
    every text fragment and has forwarded every audio fragment. *)
Lemma run_steps_val (steps : list Step) :
  forall c tr s',
    for_each (run_step env l) steps (streaming l c tr s) = (Val tt, s') ->
    existsb is_reject steps = false /\
    s' = streaming l (c +:+ join (texts_of steps))
                   (tr ++ playback_events h p (audios_of steps)) s.
Proof.
  induction steps as [|st steps IH]; intros c tr s' H.
  - simpl in H. injection H as <-. split; [reflexivity |].
    simpl. now rewrite append_nil_r, playback_events_nil, List.app_nil_r.
  - cbn [for_each] in H. unfold bind in H.
    destruct st as [t|a|b e]; cbn [run_step] in H.
    + rewrite on_text_streaming in H by assumption.
      apply IH in H as [Hr ->]. split; [exact Hr |].
      simpl. now rewrite append_assoc.
    + rewrite on_audio_streaming in H. fold h p in H.
      simpl. rewrite playback_events_cons.
      destruct h eqn:Eh.
      * destruct (throws env _ _); [discriminate |].
        apply IH in H as [Hr ->]. split; [exact Hr |].
        now rewrite app_assoc.
      * apply IH in H as [Hr ->]. split; [exact Hr | reflexivity].
    + discriminate.
Qed.

(** When no call throws and no stream rejects, the run ends normally. *)
Lemma run_steps_quiet (steps : list Step) :
  quiet env -> existsb is_reject steps = false ->
  forall c tr,
    fst (for_each (run_step env l) steps (streaming l c tr s)) = Val tt.
Proof.
  intros Hq. induction steps as [|st steps IH]; intros Hr c tr.
  - reflexivity.
  - simpl in Hr. apply orb_false_iff in Hr as [Hst Hr].
    cbn [for_each]. unfold bind. destruct st as [t|a|b e]; cbn [run_step].
    + rewrite on_text_streaming by assumption. now apply IH.
    + rewrite on_audio_streaming. destruct (audioHandlerRef s).
      * rewrite Hq. now apply IH.
      * now apply IH.
    + discriminate.
Qed.

End Streaming.

(** ** Content parts *)

Lemma task_steps_text (env : Env) (l : nat) (st : Stream string) :
  task_steps st (on_text l) = map (run_step env l) (text_steps st).
Proof.
  unfold task_steps, text_steps. rewrite map_app, map_map.
  now destruct (rejects st).
Qed.

Lemma task_steps_audio (env : Env) (l : nat) (st : Stream Bytes) :
  task_steps st (on_audio env) = map (run_step env l) (audio_steps st).
Proof.
  unfold task_steps, audio_steps. rewrite map_app, map_map.
  now destruct (rejects st).
Qed.

Lemma promise_all_steps (env : Env) (l : nat) (t : Stream string)
      (a : Stream Bytes) (arrival : list bool) :
  promise_all arrival (task_steps t (on_text l)) (task_steps a (on_audio env)) =
  for_each (run_step env l) (interleave arrival (text_steps t) (audio_steps a)).
Proof.
  unfold promise_all.
  rewrite (task_steps_text env l), (task_steps_audio env l).
  now rewrite interleave_map, for_each_map.
Qed.

Lemma for_await_steps (env : Env) (l : nat) (t : Stream string) (s : State) :
  for_await t (on_text l) s = for_each (run_step env l) (text_steps t) s.
Proof.
  unfold for_await, text_steps, bind.
  rewrite for_each_app, for_each_map.
  change (fun x => run_step env l (step_text x)) with (on_text l).
  destruct (for_each (on_text l) (chunks t) s) as [[[]|e] s1]; [| reflexivity].
  now destruct (rejects t).
Qed.

Section Parts.

Variable env : Env.
Variable l : nat.
Variable s : State.
Hypothesis Hlast : last (messages s) = Some l.
Hypothesis Hl : l < length (heap s).

Let h := audioHandlerRef s.
Let p := proactiveManagerRef s.

Lemma interleave_texts (t : Stream string) (a : Stream Bytes) (arrival : list bool) :
  texts_of (interleave arrival (text_steps t) (audio_steps a)) = chunks t.
Proof.
  rewrite <- texts_of_filter.
  rewrite interleave_filter_l by (apply text_steps_side || apply audio_steps_side).
  apply texts_of_text_steps.
Qed.

Lemma interleave_audios (t : Stream string) (a : Stream Bytes) (arrival : list bool) :
  audios_of (interleave arrival (text_steps t) (audio_steps a)) = chunks a.
Proof.
  rewrite <- audios_of_filter.
  rewrite (interleave_swap from_text_task)
    by (apply text_steps_side || apply audio_steps_side).
  apply audios_of_audio_steps.
Qed.

Lemma interleave_rejects (t : Stream string) (a : Stream Bytes) (arrival : list bool) :
  existsb is_reject (interleave arrival (text_steps t) (audio_steps a)) = false <->
  rejects t = None /\ rejects a = None.
Proof.
  split.
  - intros H. split.
    + apply text_steps_reject.
      rewrite <- (interleave_filter_l from_text_task arrival (text_steps t) (audio_steps a))
        by (apply text_steps_side || apply audio_steps_side).
      now apply existsb_reject_filter.
    + apply audio_steps_reject.
      rewrite <- (interleave_swap from_text_task arrival (text_steps t) (audio_steps a))
        by (apply text_steps_side || apply audio_steps_side).
      now apply existsb_reject_filter.
  - intros [Ht Ha]. unfold text_steps, audio_steps. rewrite Ht, Ha.
    rewrite !List.app_nil_r.
    generalize (chunks t) (chunks a). clear.
    induction arrival as [|[] arrival IH]; intros ts aus; simpl.
    + rewrite existsb_app.
      assert (E1 : existsb is_reject (map step_text ts) = false)
        by (induction ts; simpl; auto).
      assert (E2 : existsb is_reject (map step_audio aus) = false)
        by (induction aus; simpl; auto).
      now rewrite E1, E2.
    + destruct ts; simpl; [induction aus; simpl; auto | apply IH].
    + destruct aus; simpl; [induction ts; simpl; auto | apply IH].
Qed.

Lemma audioTask_start_streaming (c : string) (tr : list Event) :
  audioTask_start env (streaming l c tr s) =
  if h then
    match throws env (length (trace s ++ tr)) (EvAudio stopStreamingPlayback) with
    | Some e => (Exn e, streaming l c (tr ++ [EvAudio stopStreamingPlayback]) s)
    | None =>
        (match throws env (length (trace s ++ tr ++ [EvAudio stopStreamingPlayback]))
                      (EvAudio startStreamingPlayback) with
         | Some e => Exn e
         | None => Val tt
         end,
         streaming l c
           (tr ++ [EvAudio stopStreamingPlayback; EvAudio startStreamingPlayback]) s)
    end
  else (Val tt, streaming l c tr s).
Proof.
  unfold audioTask_start, audio_call, bind, get, h.
  change (audioHandlerRef (streaming l c tr s)) with (audioHandlerRef s).
  destruct (audioHandlerRef s) eqn:Eh; simpl; [| now rewrite Eh].
  rewrite call_streaming. destruct (throws env _ _); [reflexivity |].
  change (audioHandlerRef (streaming l c (tr ++ [EvAudio stopStreamingPlayback]) s))
    with (audioHandlerRef s).
  rewrite Eh. simpl. rewrite call_streaming.
  now rewrite <- !app_assoc.
Qed.

(** A part that is processed to its end has drained every lazy sequence
    it owns: all its text is in the open message and all its audio has
    been forwarded. *)
Lemma process_part_val (part : ContentPart) (c : string) (tr : list Event) (s' : State) :
  process_part env l part (streaming l c tr s) = (Val tt, s') ->
  part_drained part /\
  s' = streaming l (c +:+ join (part_fragments part))
                 (tr ++ part_events h p part) s.
Proof.
  intros H. destruct part as [t|t a arrival|]; cbn [process_part] in H.
  - rewrite (for_await_steps env) in H.
    apply run_steps_val in H as [Hr ->]; [| assumption..].
    split; [now apply text_steps_reject |].
    rewrite texts_of_text_steps. simpl. f_equal.
    assert (E : audios_of (text_steps t) = []).
    { unfold text_steps. induction (chunks t); simpl; [now destruct (rejects t) | assumption]. }
    now rewrite E, playback_events_nil.
  - unfold bind in H. rewrite audioTask_start_streaming in H.
    rewrite promise_all_steps in H. cbn [part_events part_fragments part_drained].
    unfold h, p in *. destruct (audioHandlerRef s) eqn:Eh.
    + destruct (throws env _ _); [discriminate |].
      destruct (throws env _ _); [discriminate |].
      apply run_steps_val in H as [Hr ->]; [| assumption..].
      apply interleave_rejects in Hr. split; [exact Hr |].
      rewrite interleave_texts, interleave_audios. rewrite Eh.
      now rewrite <- app_assoc.
    + apply run_steps_val in H as [Hr ->]; [| assumption..].
      apply interleave_rejects in Hr. split; [exact Hr |].
      rewrite interleave_texts, interleave_audios. now rewrite Eh.
  - injection H as <-. split; [exact I |]. simpl.
    now rewrite append_nil_r, List.app_nil_r.
Qed.

Lemma process_part_quiet (part : ContentPart) (c : string) (tr : list Event) :
  quiet env -> part_drained part ->
  fst (process_part env l part (streaming l c tr s)) = Val tt.
Proof.
  intros Hq Hd. destruct part as [t|t a arrival|]; cbn [process_part].
  - rewrite (for_await_steps env).
    apply run_steps_quiet; try assumption. now apply text_steps_reject.
  - unfold bind. rewrite audioTask_start_streaming, promise_all_steps.
    unfold h. destruct (audioHandlerRef s); rewrite ?Hq;
      (apply run_steps_quiet; try assumption; now apply interleave_rejects).
  - reflexivity.
Qed.

(** The loop over the parts of the item. *)
Lemma parts_val (parts : list ContentPart) :
  forall c tr s',
    for_each (process_part env l) parts (streaming l c tr s) = (Val tt, s') ->
    Forall part_drained parts /\
    s' = streaming l (c +:+ join (flat_map part_fragments parts))
                   (tr ++ flat_map (part_events h p) parts) s.
Proof.
  induction parts as [|part parts IH]; intros c tr s' H.
  - injection H as <-. split; [constructor |]. simpl.
    now rewrite append_nil_r, List.app_nil_r.
  - cbn [for_each] in H. unfold bind in H.
    destruct (process_part env l part (streaming l c tr s)) as [[[]|e] s1] eqn:E;
      [| discriminate].
    apply process_part_val in E as [Hd ->].
    apply IH in H as [Hds ->]. split; [now constructor |].
    simpl. now rewrite join_app, append_assoc, <- app_assoc.
Qed.

Lemma parts_quiet (parts : list ContentPart) :
  quiet env -> Forall part_drained parts ->
  forall c tr,
    fst (for_each (process_part env l) parts (streaming l c tr s)) = Val tt.
Proof.
  intros Hq. induction parts as [|part parts IH]; intros Hd c tr.
  - reflexivity.
  - inversion Hd as [|? ? Hd1 Hd2]; subst.
    cbn [for_each]. unfold bind.
    pose proof (process_part_quiet part c tr Hq Hd1) as Hv.
    destruct (process_part env l part (streaming l c tr s)) as [[[]|e] s1] eqn:E;
      [| discriminate].
    apply process_part_val in E as [_ ->]. now apply IH.
Qed.

End Parts.

(** ** Computations that leave the log alone *)

Lemma keeps_log_ret {A} (a : A) : keeps_log (ret a).
Proof. now intros s. Qed.

Lemma keeps_log_throw {A} (e : string) : keeps_log (@throw A e).
Proof. now intros s. Qed.

Lemma keeps_log_get {A} (f : State -> A) : keeps_log (get f).
Proof. now intros s. Qed.

Lemma keeps_log_bind {A B} (m : M A) (k : A -> M B) :
  keeps_log m -> (forall a, keeps_log (k a)) -> keeps_log (bind m k).
Proof.
  intros Hm Hk s. unfold bind. specialize (Hm s).
  destruct (m s) as [[a|e] s1]; simpl in *; [| exact Hm].
  destruct (Hk a s1) as [H1 H2]. destruct Hm as [H3 H4].
  split; congruence.
Qed.

Lemma keeps_log_call (env : Env) (ev : Event) : keeps_log (call env ev).
Proof. intros s. unfold call. now destruct (throws env _ ev). Qed.

Lemma keeps_log_record (ev : Event) : keeps_log (record ev).
Proof. now intros s. Qed.

Lemma keeps_log_when (b : bool) (m : M unit) : keeps_log m -> keeps_log (when b m).
Proof. destruct b; [trivial | intros _; apply keeps_log_ret]. Qed.

Lemma keeps_log_for_each {A} (body : A -> M unit) (l : list A) :
  (forall x, keeps_log (body x)) -> keeps_log (for_each body l).
Proof.
  intros Hb. induction l as [|x l IH]; simpl; [apply keeps_log_ret |].
  apply keeps_log_bind; [apply Hb | intros _; exact IH].
Qed.

Lemma length_append_content (l : nat) (text : string) (h : list Message) :
  length (append_content l text h) = length h.
Proof. unfold append_content. destruct (h !! l); [apply length_insert | reflexivity]. Qed.

Lemma length_refresh_last (log : list nat) (l : nat) (h : list Message) :
  length (refresh_last log l h) = length h.
Proof.
  unfold refresh_last. destruct (last log); [| reflexivity].
  destruct (h !! n); [| reflexivity]. destruct (h !! l); [| reflexivity].
  destruct (truthy _); [apply length_insert | reflexivity].
Qed.

Lemma keeps_log_on_text (l : nat) (text : string) : keeps_log (on_text l text).
Proof.
  intros s. unfold on_text, bind, modify; simpl. split; [reflexivity |].
  now rewrite length_refresh_last, length_append_content.
Qed.

Lemma keeps_log_on_audio (env : Env) (a : Bytes) : keeps_log (on_audio env a).
Proof.
  unfold on_audio. apply keeps_log_bind; [apply keeps_log_get |]. intros h.
  apply keeps_log_when. unfold AudioHandler_playChunk.
  apply keeps_log_bind; [apply keeps_log_call |]. intros _ s.
  cbn [snd]. rewrite proactive_call_snd. now destruct (proactiveManagerRef s).
Qed.

Lemma keeps_log_audio_call (env : Env) (a : AudioCall) : keeps_log (audio_call env a).
Proof.
  unfold audio_call. apply keeps_log_bind; [apply keeps_log_get |]. intros h.
  apply keeps_log_when, keeps_log_call.
Qed.

Lemma keeps_log_process_part (env : Env) (l : nat) (part : ContentPart) :
  keeps_log (process_part env l part).
Proof.
  destruct part as [t|t a arrival|]; cbn [process_part].
  - unfold for_await. apply keeps_log_bind.
    + apply keeps_log_for_each. intros x. apply keeps_log_on_text.
    + intros _. destruct (rejects t); [apply keeps_log_throw | apply keeps_log_ret].
  - apply keeps_log_bind.
    + unfold audioTask_start. apply keeps_log_bind; [apply keeps_log_audio_call |].
      intros _. apply keeps_log_audio_call.
    + intros _. rewrite promise_all_steps. apply keeps_log_for_each.
      intros [x|x|b e]; cbn [run_step].
      * apply keeps_log_on_text.
      * apply keeps_log_on_audio.
      * apply keeps_log_throw.
  - apply keeps_log_ret.
Qed.

(** ** Assistant message items *)

Lemma opened_streaming (s : State) :
  opened s = streaming (length (heap s)) EmptyString [] (opened s).
Proof.
  apply state_eq; try reflexivity.
  - cbn [heap streaming opened set_trace set_messages set_heap].
    rewrite list_insert_id; [reflexivity |].
    now rewrite lookup_app_r, Nat.sub_diag by lia.
  - cbn [trace streaming opened set_trace set_messages set_heap].
    now rewrite List.app_nil_r.
Qed.

Lemma handle_item_message (env : Env) (parts : Stream ContentPart) (s : State) :
  handle_item env (message role_assistant parts) s =
  for_await parts (process_part env (length (heap s)))
            (streaming (length (heap s)) EmptyString [] (opened s)).
Proof. rewrite <- opened_streaming. reflexivity. Qed.

Lemma handle_item_message_log (env : Env) (parts : Stream ContentPart) (s : State) :
  let s' := snd (handle_item env (message role_assistant parts) s) in
  messages s' = messages s ++ [length (heap s)] /\
  length (heap s') = S (length (heap s)).
Proof.
  rewrite handle_item_message, <- opened_streaming.
  assert (K : keeps_log (for_await parts (process_part env (length (heap s))))).
  { unfold for_await. apply keeps_log_bind.
    - apply keeps_log_for_each. intros x. apply keeps_log_process_part.
    - intros _. destruct (rejects parts); [apply keeps_log_throw | apply keeps_log_ret]. }
  destruct (K (opened s)) as [K1 K2]. simpl. rewrite K1, K2. simpl.
  split; [reflexivity |]. rewrite length_app. simpl. lia.
Qed.

Lemma handle_item_message_val (env : Env) (parts : Stream ContentPart) (s s' : State) :
  handle_item env (message role_assistant parts) s = (Val tt, s') ->
  rejects parts = None /\ Forall part_drained (chunks parts) /\
  s' = streaming (length (heap s))
                 (join (flat_map part_fragments (chunks parts)))
                 (flat_map (part_events (audioHandlerRef s) (proactiveManagerRef s))
                           (chunks parts))
                 (opened s).
Proof.
  rewrite handle_item_message. unfold for_await, bind. intros H.
  destruct (for_each _ (chunks parts) _) as [[[]|e] s1] eqn:E; [| discriminate].
  apply parts_val in E as [Hd ->].
  - destruct (rejects parts); [discriminate |]. injection H as <-.
    split; [reflexivity |]. split; [exact Hd | reflexivity].
  - simpl. apply last_snoc.
  - simpl. rewrite length_app. simpl. lia.
Qed.

Lemma handle_item_message_quiet (env : Env) (parts : Stream ContentPart) (s : State) :
  quiet env -> rejects parts = None -> Forall part_drained (chunks parts) ->
  fst (handle_item env (message role_assistant parts) s) = Val tt.
Proof.
  intros Hq Hr Hd. rewrite handle_item_message. unfold for_await, bind.
  pose proof (parts_quiet env (length (heap s)) (opened s)) as Hv.
  specialize (Hv (last_snoc _ _)).
  assert (Hl : length (heap s) < length (heap (opened s)))
    by (simpl; rewrite length_app; simpl; lia).
  specialize (Hv Hl (chunks parts) Hq Hd EmptyString []).
  destruct (for_each _ (chunks parts) _) as [[[]|e] s1]; [| discriminate].
  now rewrite Hr.
Qed.

(** ** C1: one message per assistant item, holding the fragments in order *)

(** C1.  Processing an assistant message item pushes exactly one entry on
    the log, whatever happens afterwards; when the item has been consumed to
    its end, the object that entry refers to holds the concatenation, in
    arrival order, of the text fragments of its parts (text chunks of text
    parts, transcript chunks of audio parts) and no other object of the
    store was touched; and the item is consumed to its end whenever no
    stream rejects and no call throws. *)
Theorem assistant_item_one_message_with_all_fragments
        (env : Env) (s : State) (parts : Stream ContentPart) :
  let rs := handle_item env (message role_assistant parts) s in
  (messages (snd rs) = messages s ++ [length (heap s)] /\
   length (heap (snd rs)) = S (length (heap s))) /\
  (fst rs = Val tt ->
   heap (snd rs) =
   heap s ++ [assistant_message (join (flat_map part_fragments (chunks parts)))]) /\
  (quiet env -> rejects parts = None -> Forall part_drained (chunks parts) ->
   fst rs = Val tt).
Proof.
  intros rs. split; [apply handle_item_message_log |]. split.
  - intros Hv. subst rs.
    destruct (handle_item env (message role_assistant parts) s) as [r s'] eqn:E.
    simpl in Hv. subst r.
    apply handle_item_message_val in E as (_ & _ & ->).
    simpl. rewrite insert_app_r_alt, Nat.sub_diag by lia. reflexivity.
  - intros Hq Hr Hd. now apply handle_item_message_quiet.
Qed.

Lemma assistant_item_one_message_with_all_fragments_witness :
  rendered (snd (handle_item quiet_env (message role_assistant sample_parts)
                             initial_state)) =
  [assistant_message "Hello, world"].
Proof.
  destruct (assistant_item_one_message_with_all_fragments
              quiet_env initial_state sample_parts) as ((Hlog & _) & Hval & Hrun).
  unfold rendered. rewrite Hlog, Hval.
  - reflexivity.
  - apply Hrun.
    + intros n ev. reflexivity.
    + reflexivity.
    + repeat constructor.
Defined.

(** ** C2: an audio part is joined before the next part starts *)

(** C2.  Let the loop over the content parts stand at an audio part, with
    the open message at [l].  Whatever the order [arrival] in which the two
    tasks are served: the loop goes on to the remaining parts only from the
    state in which the transcript task has appended every transcript
    fragment and the playback task has forwarded every audio fragment, both
    streams having ended without error; otherwise the loop stops with the
    error and runs none of the remaining parts.  When no stream rejects and
    no call throws, both tasks do run to completion. *)
Theorem audio_part_joined_before_next_part
        (env : Env) (l : nat) (s : State) (c : string) (tr : list Event)
        (transcriptChunks : Stream string) (audioChunks : Stream Bytes)
        (arrival : list bool) (rest : list ContentPart) :
  last (messages s) = Some l -> l < length (heap s) ->
  let part := audio_part transcriptChunks audioChunks arrival in
  let loop := for_each (process_part env l) in
  match process_part env l part (streaming l c tr s) with
  | (Val _, s1) =>
      rejects transcriptChunks = None /\ rejects audioChunks = None /\
      s1 = streaming l (c +:+ join (chunks transcriptChunks))
             (tr ++ part_events (audioHandlerRef s) (proactiveManagerRef s) part) s /\
      loop (part :: rest) (streaming l c tr s) = loop rest s1
  | (Exn e, s1) => loop (part :: rest) (streaming l c tr s) = (Exn e, s1)
  end /\
  (quiet env -> rejects transcriptChunks = None -> rejects audioChunks = None ->
   fst (process_part env l part (streaming l c tr s)) = Val tt).
Proof.
  intros Hlast Hl part loop. split.
  - subst loop. cbn [for_each]. unfold bind.
    destruct (process_part env l part (streaming l c tr s)) as [[[]|e] s1] eqn:E;
      [| reflexivity].
    apply process_part_val in E as [[Ht Ha] ->]; try assumption.
    repeat split; assumption.
  - intros Hq Ht Ha. apply process_part_quiet; try assumption. now split.
Qed.

Lemma audio_part_joined_before_next_part_witness :
  let s := opened initial_state in
  let part :=
    audio_part {| chunks := [", "; "wor"; "ld"]; rejects := None |}
               {| chunks := [[Byte.x01]; [Byte.x02]]; rejects := None |}
               [false; true; true; false] in
  process_part quiet_env 0 part (streaming 0 "Hello" [] s) =
  (Val tt,
   streaming 0 "Hello, world"
     [EvAudio stopStreamingPlayback; EvAudio startStreamingPlayback;
      EvAudio (playChunk [Byte.x01]); EvAudio (playChunk [Byte.x02])] s).
Proof.
  intros s part.
  destruct (audio_part_joined_before_next_part
              quiet_env 0 s "Hello" [] {| chunks := [", "; "wor"; "ld"]; rejects := None |}
              {| chunks := [[Byte.x01]; [Byte.x02]]; rejects := None |}
              [false; true; true; false] [])
    as [Hjoin Hrun].
  - reflexivity.
  - simpl. lia.
  - fold part in Hjoin, Hrun.
    assert (Hv : fst (process_part quiet_env 0 part (streaming 0 "Hello" [] s)) = Val tt).
    { apply Hrun; [intros n ev; reflexivity | reflexivity | reflexivity]. }
    destruct (process_part quiet_env 0 part (streaming 0 "Hello" [] s)) as [[[]|e] s1];
      [| discriminate].
    destruct Hjoin as (_ & _ & -> & _). reflexivity.
Defined.

(** ** C3: the [get_time] tool *)

Lemma append_eq_empty (s1 s2 : string) :
  s1 +:+ s2 = EmptyString -> s1 = EmptyString /\ s2 = EmptyString.
Proof. destruct s1; [now split | discriminate]. Qed.

Lemma toLocaleString_nonempty (d : DateTime) : toLocaleString d <> EmptyString.
Proof.
  unfold toLocaleString. intros H.
  apply append_eq_empty in H as [_ H]. discriminate.
Qed.

Lemma get_time_run (env : Env) (s : State) (arguments callId : string) :
  let n := length (trace s) in
  let send := EvSendItem (function_call_output
                            (toLocaleString (now env (n + 1))) callId) in
  handle_item env (function_call "get_time" arguments callId) s =
  match throws env n EvWaitForCompletion with
  | Some e => (Exn e, after [EvWaitForCompletion] s)
  | None =>
      match clientRef s with
      | None => (Val tt, after [EvWaitForCompletion] s)
      | Some _ =>
          match throws env (n + 1) send with
          | Some e => (Exn e, after [EvWaitForCompletion; send] s)
          | None =>
              (outcome (throws env (n + 2) (EvGenerateResponse None)),
               after [EvWaitForCompletion; send; EvGenerateResponse None] s)
          end
      end
  end.
Proof.
  intros n send. cbn [handle_item].
  change (String.eqb "get_time" "get_time") with true. cbn iota.
  unfold bind at 1. rewrite call_run. fold n.
  destruct (throws env n EvWaitForCompletion) as [e|]; [reflexivity |].
  cbn [outcome]. unfold get_time_call, clock, client_call, bind, get.
  rewrite trace_after. cbn [length]. fold n send.
  change (clientRef (after [EvWaitForCompletion] s)) with (clientRef s).
  destruct (clientRef s) as [client|] eqn:Eclient;
    [| unfold ret; simpl; now rewrite Eclient].
  rewrite call_run, after_after, trace_after. cbn [length]. fold n.
  destruct (throws env (n + 1) send) as [e|]; [reflexivity |].
  cbn [outcome].
  change (clientRef (after ([EvWaitForCompletion] ++ [send]) s)) with (clientRef s).
  rewrite Eclient, call_run, after_after, trace_after. cbn [length app]. fold n.
  reflexivity.
Qed.

(** C3.  For a function-call item named [get_time]: the timestamp string is
    never empty; the calls made are always an initial segment of
    "await the item, send one function_call_output carrying the item's call
    id and the timestamp, request one response", so a response is never
    requested before the output is sent; and in a session that holds a
    client, when the item completes and the send succeeds, exactly these
    three calls are made and nothing else changes. *)
Theorem get_time_sends_output_then_requests_response
        (env : Env) (s : State) (arguments callId : string) :
  let n := length (trace s) in
  let output := toLocaleString (now env (n + 1)) in
  let s' := snd (handle_item env (function_call "get_time" arguments callId) s) in
  output <> EmptyString /\
  (exists k, trace s' = trace s ++ take k (get_time_calls env s callId)) /\
  (clientRef s <> None ->
   throws env n EvWaitForCompletion = None ->
   throws env (n + 1) (EvSendItem (function_call_output output callId)) = None ->
   s' = after [EvWaitForCompletion;
               EvSendItem (function_call_output output callId);
               EvGenerateResponse None] s).
Proof.
  cbv zeta. split; [apply toLocaleString_nonempty |].
  rewrite get_time_run. cbv zeta.
  destruct (throws env (length (trace s)) EvWaitForCompletion) as [e|].
  { split; [exists 1; reflexivity | congruence]. }
  destruct (clientRef s) as [client|].
  2: { split; [exists 1; reflexivity | congruence]. }
  destruct (throws env (length (trace s) + 1) _) as [e|].
  { split; [exists 2; reflexivity | congruence]. }
  split; [exists 3; reflexivity | reflexivity].
Qed.

Lemma get_time_sends_output_then_requests_response_witness :
  snd (handle_item quiet_env (function_call "get_time" EmptyString "call-1")
                   connected_state) =
  after [EvWaitForCompletion;
         EvSendItem (function_call_output
                       "Tuesday, November 3, 2026 at 04:05:09 PM UTC" "call-1");
         EvGenerateResponse None] connected_state.
Proof.
  destruct (get_time_sends_output_then_requests_response
              quiet_env connected_state EmptyString "call-1") as (_ & _ & H).
  apply H; [discriminate | reflexivity | reflexivity].
Defined.

(** ** C4: agent mode without an agent *)

(** C4.  When [handleConnect] runs in a disconnected session with agent
    mode selected and no agent identifier, it returns normally; the log
    gains exactly one entry, the error Message "Please input/select an
    agent."; apart from the optional token refresh no call is made, so no
    client is created; the client reference is left as it was and the
    connected and connecting flags are false afterwards. *)
Theorem connect_agent_mode_without_agent
        (env : Env) (s : State) :
  isConnected s = false ->
  mode (settings s) = agent_mode ->
  agentId (settings s) = EmptyString ->
  let rs := handleConnect env s in
  fst rs = Val tt /\
  messages (snd rs) = messages s ++ [length (heap s)] /\
  heap (snd rs) = heap s ++ [agent_missing] /\
  trace (snd rs) = trace s ++ refresh_calls env s ++ [EvSetMessages agent_missing] /\
  clientRef (snd rs) = clientRef s /\
  isConnected (snd rs) = false /\
  isConnecting (snd rs) = false.
Proof.
  intros Hc Hm Ha. cbv zeta.
  unfold handleConnect, bind, get, try_finally, try_catch, refresh_calls.
  unfold agent_not_selected. rewrite Hc, Hm, Ha. cbn [negb truthy].
  destruct (configLoaded (settings s)); cbn [when].
  - unfold refresh_token, try_catch, bind, clock, get, call, modify, record,
      append_message, ret.
    cbn [set_isConnecting trace].
    destruct (throws env (length (trace s)) EvFetchConfig) as [e|].
    + repeat split; simpl; rewrite <- ?app_assoc; (reflexivity || exact Hc).
    + destruct (ok (fetch_config env (length (trace s)))); cbn [when].
      * destruct (truthy (config_endpoint _)), (truthy (config_token _));
          repeat split; simpl; rewrite <- ?app_assoc; (reflexivity || exact Hc).
      * repeat split; simpl; rewrite <- ?app_assoc; (reflexivity || exact Hc).
  - repeat split; simpl; (reflexivity || exact Hc).
Qed.

Lemma connect_agent_mode_without_agent_witness :
  rendered (snd (handleConnect quiet_env agent_mode_state)) = [agent_missing] /\
  clientRef (snd (handleConnect quiet_env agent_mode_state)) = None /\
  isConnected (snd (handleConnect quiet_env agent_mode_state)) = false.
Proof.
  destruct (connect_agent_mode_without_agent quiet_env agent_mode_state)
    as (_ & Hlog & Hheap & _ & Hclient & Hconn & _); try reflexivity.
  unfold rendered. rewrite Hlog, Hheap, Hclient, Hconn. repeat split.
Defined.

(** ** C8: credentials are not checked by [handleConnect] *)

Lemma refresh_token_val (env : Env) (s : State) :
  fst (refresh_token env s) = Val tt /\
  isConnected (snd (refresh_token env s)) = isConnected s /\
  audioHandlerRef (snd (refresh_token env s)) = audioHandlerRef s /\
  heap (snd (refresh_token env s)) = heap s.
Proof.
  unfold refresh_token, try_catch, bind, clock, get, call, modify, record.
  cbn [trace].
  destruct (throws env (length (trace s)) EvFetchConfig) as [e|]; [now repeat split |].
  destruct (ok (fetch_config env (length (trace s)))); cbn [when]; [| now repeat split].
  now destruct (truthy (config_endpoint _)), (truthy (config_token _)).
Qed.

Lemma open_session_quiet (env : Env) (cfg : Settings) (s : State) :
  quiet env ->
  let rs := open_session env cfg s in
  fst rs = Val tt /\
  isConnected (snd rs) = true /\
  clientRef (snd rs) = Some (new_RTClient cfg) /\
  In (EvNewRTClient (new_RTClient cfg)) (trace (snd rs)) /\
  In (EvConfigure (session_request cfg)) (trace (snd rs)) /\
  exists id, heap (snd rs) = heap s ++ [session_started id].
Proof.
  intros Hq rs. subst rs.
  destruct (open_session env cfg s) as [r s'] eqn:E.
  unfold open_session, audio_call, clock, record, append_message in E.
  unfold bind, get, modify in E.
  destruct (enableSearch cfg), (enableProactive cfg); run_quiet env E;
    (destruct (session_avatar _); run_quiet env E;
     cbn [audioHandlerRef after set_trace set_clientRef set_searchClientRef
          set_peerConnection] in E;
     destruct (audioHandlerRef s); run_quiet env E;
     injection E as <- <-;
     (split; [reflexivity |]); (split; [reflexivity |]);
     (split; [reflexivity |]);
     (split; [cbn [snd trace after set_trace set_clientRef set_searchClientRef
                    set_peerConnection set_heap set_messages set_isConnected
                    set_sessionId set_proactiveManagerRef];
              rewrite ?in_app_iff; cbn [In]; tauto |]);
     (split; [cbn [snd trace after set_trace set_clientRef set_searchClientRef
                    set_peerConnection set_heap set_messages set_isConnected
                    set_sessionId set_proactiveManagerRef];
              rewrite ?in_app_iff; cbn [In]; tauto |]);
     eexists; reflexivity).
Qed.















Lemma handleConnect_opens_session (env : Env) (s : State) :
  isConnected s = false ->
  agent_not_selected (settings s) = false ->
  exists s1 evs,
    trace (snd (handleConnect env s)) =
    trace (snd (open_session env (settings s) s1)) ++ evs /\
    s1 = snd (when (configLoaded (settings s)) (refresh_token env)
                   (set_isConnecting true s)).
Proof.
  intros Hc Hm.
  exists (snd (when (configLoaded (settings s)) (refresh_token env)
                    (set_isConnecting true s))).
  assert (Hr : fst (when (configLoaded (settings s)) (refresh_token env)
                         (set_isConnecting true s)) = Val tt).
  { destruct (configLoaded (settings s)); cbn [when]; [| reflexivity].
    apply refresh_token_val. }
  unfold handleConnect, bind at 1 2, get.
  rewrite Hc, Hm. cbn [negb].
  unfold try_finally, try_catch, bind at 1, modify at 1.
  unfold bind at 1.
  destruct (when (configLoaded (settings s)) (refresh_token env)
                 (set_isConnecting true s)) as [r s1].
  cbn [fst snd] in *. subst r.
  destruct (open_session env (settings s) s1) as [[[]|e] s2]; cbn [snd].
  - exists []. split; [| reflexivity]. simpl. now rewrite List.app_nil_r.
  - eexists. split; [| reflexivity].
    unfold bind, record, modify, append_message. simpl.
    rewrite <- app_assoc. reflexivity.
Qed.








(** ** C7: [disconnect] *)

Section Preserves.

Context {B : Type} (f : State -> B).
Hypothesis f_trace : forall g s, f (set_trace g s) = f s.

Lemma preserves_ret {A} (a : A) : preserves f (ret a).
Proof. now intros s. Qed.

Lemma preserves_get {A} (g : State -> A) : preserves f (get g).
Proof. now intros s. Qed.

Lemma preserves_bind {A C} (m : M A) (k : A -> M C) :
preserves f m -> (forall a, preserves f (k a)) -> preserves f (bind m k).
Proof.
intros Hm Hk s. unfold bind. specialize (Hm s).
destruct (m s) as [[a|e] s1]; cbn [snd] in *; [| exact Hm].
now rewrite Hk.
Qed.

Lemma preserves_modify (g : State -> State) :
(forall s, f (g s) = f s) -> preserves f (modify g).
Proof. intros Hg s. apply Hg. Qed.

Lemma preserves_call (env : Env) (ev : Event) : preserves f (call env ev).
Proof. intros s. rewrite call_run. apply f_trace. Qed.

Lemma preserves_record (ev : Event) : preserves f (record ev).
Proof. intros s. apply f_trace. Qed.

Lemma preserves_when (b : bool) (m : M unit) :
preserves f m -> preserves f (when b m).
Proof. destruct b; [trivial | intros _; apply preserves_ret]. Qed.

Lemma preserves_audio_call (env : Env) (a : AudioCall) :
preserves f (audio_call env a).
Proof.
apply preserves_bind; [apply preserves_get |]. intros h.
apply preserves_when, preserves_call.
Qed.

Lemma preserves_proactive_call (env : Env) (ev : Event) :
preserves f (proactive_call env ev).
Proof.
apply preserves_bind; [apply preserves_get |]. intros h.
apply preserves_when, preserves_call.
Qed.

End Preserves.

Lemma release_devices_connection (env : Env) :
  preserves connection (release_devices env).
Proof.
  assert (Ht : forall g s, connection (set_trace g s) = connection s)
    by reflexivity.
  unfold release_devices.
  repeat first
    [ apply preserves_bind; [| intros ?]
    | apply preserves_when
    | apply preserves_audio_call; exact Ht
    | apply preserves_proactive_call; exact Ht
    | apply preserves_call; exact Ht
    | apply preserves_get
    | apply preserves_modify; reflexivity ].
Qed.

(** A handler whose failures are all caught and logged returns normally. *)
Lemma try_catch_record (m : M unit) (label : string) (s : State) :
  fst (try_catch m (fun e => record (EvConsoleError label e)) s) = Val tt.
Proof. unfold try_catch. now destruct (m s) as [[[]|e] s1]. Qed.

Lemma disconnect_idle (env : Env) (s : State) :
  clientRef s = None -> disconnect env s = (Val tt, s).
Proof. intros H. unfold disconnect, bind, get. now rewrite H. Qed.

(** The teardown makes its calls in order up to the first one that throws;
    that failure is logged to the console, and nothing more is called. *)
Lemma disconnect_trace (env : Env) (s : State) :
  clientRef s <> None ->
  trace (snd (disconnect env s)) =
  trace s ++ fst (attempted env (length (trace s)) (teardown_calls s)) ++
  match snd (attempted env (length (trace s)) (teardown_calls s)) with
  | Some e => [EvConsoleError "Disconnect failed:" e]
  | None => []
  end.
Proof.
  intros Hc.
  destruct (disconnect env s) as [r s'] eqn:E. cbn [snd].
  unfold disconnect in E. rewrite bind_get in E.
  destruct (clientRef s) as [c|]; [clear Hc | now destruct Hc].
  unfold try_catch in E.
  destruct (bind (call env EvClose) _ s) as [rb sb] eqn:Eb.
  unfold release_devices, audio_call, proactive_call, clock in Eb.
  unfold teardown_calls.
  destruct (audioHandlerRef s) eqn:Hh, (proactiveManagerRef s) eqn:Hp,
           (isRecording s) eqn:Hr; cbn [andb app attempted].
  all: run_calls Eb Hh Hp Hr.
  all: injection Eb as <- <-; unfold record, modify in E; injection E as <- <-;
    cbn [fst snd trace after set_trace set_clientRef set_peerConnection
         set_isConnected set_isRecording set_isUserSpeaking set_hasRecording];
    rewrite <- ?app_assoc; reflexivity.
Qed.

(** C7, as amended.  [disconnect] never throws: every teardown failure is
    caught and logged.  Without a client it does nothing at all.  With a
    client, the calls of the teardown are made in the order of the source
    up to the first one that throws; that failure, whichever call it comes
    from, is logged to the console as "Disconnect failed:", and nothing
    more is called; when no call throws, nothing is logged.  When the
    transport closes, the client reference is cleared and the connected
    flag is false afterwards, whether or not a later teardown step fails,
    and a second call then performs no teardown and changes nothing.  When
    closing the transport itself fails, the failure is logged and the
    client reference and the connected flag are left as they were. *)
Theorem disconnect_swallows_errors_and_is_idempotent_after_close
        (env : Env) (s : State) :
  let rs := disconnect env s in
  let run := attempted env (length (trace s)) (teardown_calls s) in
  fst rs = Val tt /\
  (clientRef s = None -> snd rs = s) /\
  (clientRef s <> None ->
   throws env (length (trace s)) EvClose = None ->
   clientRef (snd rs) = None /\ isConnected (snd rs) = false /\
   forall env', disconnect env' (snd rs) = (Val tt, snd rs)) /\
  (clientRef s <> None ->
   forall e, throws env (length (trace s)) EvClose = Some e ->
   snd rs = after [EvClose; EvConsoleError "Disconnect failed:" e] s) /\
  (clientRef s <> None ->
   trace (snd rs) =
   trace s ++ fst run ++
   match snd run with
   | Some e => [EvConsoleError "Disconnect failed:" e]
   | None => []
   end).
Proof.
  cbv zeta. split; [| split; [| split; [| split]]].
  - unfold disconnect, bind, get.
    destruct (clientRef s); [apply try_catch_record | reflexivity].
  - intros H. now rewrite disconnect_idle.
  - intros Hc Hclose.
    assert (Hconn : connection (snd (disconnect env s)) = (None, false)).
    { unfold disconnect, bind at 1, get.
      destruct (clientRef s) as [c|]; [clear Hc | now destruct Hc].
      unfold try_catch, bind at 1. rewrite call_run, Hclose. cbn [outcome].
      unfold bind at 1 2 3, modify at 1 2 3.
      set (s1 := set_isConnected false _).
      pose proof (release_devices_connection env s1) as Hrel.
      destruct (release_devices env s1) as [[[]|e] s2]; cbn [snd] in *.
      - exact Hrel.
      - exact Hrel. }
    injection Hconn as H1 H2.
    repeat split; try assumption.
    intros env'. now apply disconnect_idle.
  - intros Hc e Hclose.
    unfold disconnect, bind at 1, get.
    destruct (clientRef s) as [c|]; [clear Hc | now destruct Hc].
    unfold try_catch, bind at 1. rewrite call_run, Hclose. cbn [outcome].
    unfold record, modify, after, set_trace. cbn. now rewrite <- app_assoc.
  - intros Hc. now apply disconnect_trace.
Qed.

Lemma disconnect_swallows_errors_and_is_idempotent_after_close_witness :
  isConnected (snd (disconnect quiet_env connected_state)) = false /\
  disconnect quiet_env (snd (disconnect quiet_env connected_state)) =
  (Val tt, snd (disconnect quiet_env connected_state)) /\
  trace (snd (disconnect failing_playback_env connected_state)) =
  trace connected_state ++
  [EvClose; EvAudio stopStreamingPlayback;
   EvConsoleError "Disconnect failed:" "playback error"].
Proof.
  assert (Hc : clientRef connected_state <> None) by discriminate.
  destruct (disconnect_swallows_errors_and_is_idempotent_after_close
              quiet_env connected_state) as (_ & _ & H & _).
  destruct (H Hc eq_refl) as (_ & H2 & H3).
  destruct (disconnect_swallows_errors_and_is_idempotent_after_close
              failing_playback_env connected_state) as (_ & _ & _ & _ & Ht).
  split; [exact H2 | split; [apply H3 |]].
  rewrite (Ht Hc). reflexivity.
Defined.

(** When closing the transport fails, [disconnect] returns normally but the
    session is still connected and still holds its client, and a second
    call tries the teardown again. *)
Lemma disconnect_failed_close_counterexample :
  let s1 := snd (disconnect failing_close_env connected_state) in
  fst (disconnect failing_close_env connected_state) = Val tt /\
  isConnected s1 = true /\
  clientRef s1 = clientRef connected_state /\
  clientRef s1 <> None /\
  trace (snd (disconnect failing_close_env s1)) =
  trace connected_state ++
  [EvClose; EvConsoleError "Disconnect failed:" "socket error";
   EvClose; EvConsoleError "Disconnect failed:" "socket error"].
Proof. repeat split. discriminate. Qed.

(** ** C5: [sendMessage] *)

Lemma sendMessage_run (env : Env) (s : State) :
  clientRef s <> None ->
  truthy (trim (currentMessage s)) = true ->
  sendMessage env s =
  (Val tt,
   after (EvSetMessages (user_message (currentMessage s)) :: send_calls env s)
     (set_messages (fun log => log ++ [length (heap s)])
        (set_heap (fun h => h ++ [user_message (currentMessage s)])
           (set_currentMessage EmptyString s)))).
Proof.
  intros Hc Ht. unfold sendMessage, bind at 1 2, get.
  rewrite Ht. destruct (clientRef s) as [c|]; [| now destruct Hc].
  cbn [andb held]. unfold try_catch, bind, modify, append_message.
  rewrite !call_run. cbn [trace set_trace set_messages set_heap set_currentMessage heap].
  rewrite length_snoc. unfold send_calls.
  destruct (throws env (length (trace s) + 1) _) as [e|]; cbn [outcome].
  - unfold record, modify. f_equal. state_ext.
  - rewrite trace_after.
    cbn [trace set_trace set_messages set_heap set_currentMessage length].
    rewrite length_snoc.
    replace (length (trace s) + 1 + 1) with (length (trace s) + 2) by lia.
    destruct (throws env (length (trace s) + 2) _) as [e|]; cbn [outcome];
      unfold record, modify; f_equal; state_ext.
Qed.

(** C5, as amended.  For [sendMessage] with non-blank input while a client
    is held: the user Message is appended to the log before the send is
    attempted; the handler returns normally whether or not the send or the
    response request fails; a failure is only logged to the console, so the
    log gains the user Message and nothing else: no error Message is
    appended and the user Message is not rolled back. *)
Theorem sendMessage_appends_before_send_and_only_logs_failures
        (env : Env) (s : State) :
  clientRef s <> None ->
  truthy (trim (currentMessage s)) = true ->
  let rs := sendMessage env s in
  let m := user_message (currentMessage s) in
  fst rs = Val tt /\
  trace (snd rs) = trace s ++ EvSetMessages m :: send_calls env s /\
  messages (snd rs) = messages s ++ [length (heap s)] /\
  heap (snd rs) = heap s ++ [m].
Proof.
  intros Hc Ht. cbv zeta. rewrite sendMessage_run by assumption.
  repeat split.
Qed.

Lemma sendMessage_appends_before_send_and_only_logs_failures_witness :
  rendered (snd (sendMessage quiet_env typing_state)) =
  rendered typing_state ++ [user_message "hello"] /\
  trace (snd (sendMessage quiet_env typing_state)) =
  trace typing_state ++
  [EvSetMessages (user_message "hello");
   EvSendItem (message_item role_user "hello");
   EvGenerateResponse None].
Proof.
  destruct (sendMessage_appends_before_send_and_only_logs_failures
              quiet_env typing_state) as (_ & Htrace & Hlog & Hheap);
    [discriminate | reflexivity |].
  unfold rendered. rewrite Htrace, Hlog, Hheap. split; reflexivity.
Defined.

(** When the send fails, the log ends with the user Message: no error
    Message is appended. *)
Lemma sendMessage_failure_counterexample :
  throws failing_send_env (length (trace typing_state) + 1)
         (EvSendItem (message_item role_user "hello")) = Some "network down" /\
  rendered (snd (sendMessage failing_send_env typing_state)) =
  [session_started "sess-1"; user_message "hello"] /\
  Forall (fun m => type m <> error)
         (rendered (snd (sendMessage failing_send_env typing_state))).
Proof.
  split; [reflexivity |]. split; [vm_compute; reflexivity |].
  assert (E : rendered (snd (sendMessage failing_send_env typing_state)) =
              [session_started "sess-1"; user_message "hello"])
    by (vm_compute; reflexivity).
  rewrite E. repeat constructor; discriminate.
Qed.

(** ** The text sent back for a search *)

Lemma resultText_fold (idField contentField : string) (docs : list Document)
      (acc : string) :
  fold_left (fun acc d => acc +:+ result_block idField contentField d) docs acc =
  acc +:+ join (map (result_block idField contentField) docs).
Proof.
  revert acc. induction docs as [|d docs IH]; intros acc; simpl.
  - now rewrite append_nil_r.
  - now rewrite IH, append_assoc.
Qed.

Lemma resultText_join (idField contentField : string) (docs : list Document) :
  resultText idField contentField docs =
  join (map (result_block idField contentField) docs).
Proof. unfold resultText. now rewrite resultText_fold. Qed.

Lemma prefix_cons (a b : ascii) (p s : string) :
  String.prefix (String a p) (String b s) =
  if ascii_dec a b then String.prefix p s else false.
Proof. reflexivity. Qed.

Lemma occurrences_separator (rest : string) :
  occurrences "-----" ("-----" +:+ LF +:+ rest) = 1 + occurrences "-----" rest.
Proof. reflexivity. Qed.

Lemma prefix_boundary (p a rest : string) (c : ascii) :
  only_hyphens p = true -> p <> EmptyString -> Ascii.eqb c hyphen = false ->
  String.prefix p (a +:+ String c rest) = String.prefix p a.
Proof.
  intros Hp Hne Hc. revert a.
  induction p as [|h p IH]; intros a; [now destruct Hne |].
  cbn [only_hyphens] in Hp. apply andb_prop in Hp as [Hh Hp].
  apply Ascii.eqb_eq in Hh. subst h.
  destruct a as [|x a].
  - change (EmptyString +:+ String c rest) with (String c rest).
    rewrite prefix_cons. cbn [String.prefix].
    destruct (ascii_dec hyphen c) as [<-|]; [| reflexivity].
    now rewrite Ascii.eqb_refl in Hc.
  - rewrite append_cons, !prefix_cons.
    destruct (ascii_dec hyphen x); [| reflexivity].
    destruct p as [|h' p']; [now destruct (a +:+ String c rest), a |].
    apply IH; [exact Hp | discriminate].
Qed.

Lemma occurrences_cons (p : string) (c : ascii) (s : string) :
  occurrences p (String c s) =
  (if String.prefix p (String c s) then 1 else 0) + occurrences p s.
Proof. reflexivity. Qed.

(** A character that is no hyphen separates the occurrences before it from
    those after it. *)
Lemma occurrences_boundary (p a rest : string) (c : ascii) :
  only_hyphens p = true -> p <> EmptyString -> Ascii.eqb c hyphen = false ->
  occurrences p (a +:+ String c rest) = occurrences p a + occurrences p rest.
Proof.
  intros Hp Hne Hc. induction a as [|x a IH].
  - change (EmptyString +:+ String c rest) with (String c rest).
    rewrite occurrences_cons.
    assert (E : String.prefix p (String c rest) = false).
    { destruct p as [|h p]; [now destruct Hne |].
      cbn [only_hyphens] in Hp. apply andb_prop in Hp as [Hh _].
      apply Ascii.eqb_eq in Hh. subst h. rewrite prefix_cons.
      destruct (ascii_dec hyphen c) as [<-|]; [| reflexivity].
      now rewrite Ascii.eqb_refl in Hc. }
    rewrite E. destruct p; [now destruct Hne | reflexivity].
  - rewrite append_cons, !occurrences_cons, IH.
    rewrite <- append_cons, (prefix_boundary p (String x a) rest c Hp Hne Hc).
    lia.
Qed.

Lemma occurrences_block (idField contentField : string) (d : Document) (rest : string) :
  occurrences "-----" (result_block idField contentField d +:+ rest) =
  1 + stray_separators idField contentField d + occurrences "-----" rest.
Proof.
  unfold result_block, separator, stray_separators.
  rewrite !append_assoc.
  change ("[" +:+ ?x) with (String "[" x).
  change ("]: " +:+ ?x) with (String "]" (String ":" (String " " x))).
  change (LF +:+ ?x) with (String (ascii_of_nat 10) x).
  rewrite occurrences_cons.
  change (String.prefix "-----" (String "[" ?x)) with false. cbn [Nat.add].
  rewrite (occurrences_boundary "-----" (field idField d)) by (reflexivity || discriminate).
  rewrite 2!occurrences_cons.
  change (String.prefix "-----" (String ":" ?x)) with false.
  change (String.prefix "-----" (String " " ?x)) with false. cbn [Nat.add].
  rewrite (occurrences_boundary "-----" (field contentField d)) by (reflexivity || discriminate).
  rewrite occurrences_separator. lia.
Qed.

Lemma resultText_count (idField contentField : string) (docs : list Document) :
  occurrences "-----" (resultText idField contentField docs) =
  length docs + list_sum (map (stray_separators idField contentField) docs).
Proof.
  rewrite resultText_join.
  induction docs as [|d docs IH]; [reflexivity |].
  cbn [join map fold_right length list_sum].
  fold (join (map (result_block idField contentField) docs)).
  fold (list_sum (map (stray_separators idField contentField) docs)).
  rewrite occurrences_block, IH. lia.
Qed.

Lemma list_sum_zero (l : list nat) : list_sum l = 0 <-> Forall (fun n => n = 0) l.
Proof.
  induction l as [|n l IH]; cbn [list_sum fold_right].
  - split; [constructor | reflexivity].
  - fold (list_sum l). split.
    + intros H. constructor; [lia |]. apply IH. lia.
    + intros H. inversion H as [|? ? Hn Hl]; subst. apply IH in Hl. lia.
Qed.

(** The text of a search result list: one block per hit, in order; empty
    for no hit; one separator per hit, and besides those exactly the
    [-----] sequences that the selected fields contain themselves. *)
Lemma resultText_format (idField contentField : string) (docs : list Document) :
  (resultText idField contentField docs =
   join (map (result_block idField contentField) docs)) /\
  (docs = [] -> resultText idField contentField docs = EmptyString) /\
  (occurrences "-----" (resultText idField contentField docs) =
   length docs + list_sum (map (stray_separators idField contentField) docs)) /\
  (occurrences "-----" (resultText idField contentField docs) = length docs <->
   Forall (fun d => stray_separators idField contentField d = 0) docs).
Proof.
  split; [apply resultText_join |]. split; [now intros -> |].
  split; [apply resultText_count |].
  rewrite resultText_count.
  rewrite <- (Forall_map (stray_separators idField contentField) (fun n => n = 0)).
  rewrite <- list_sum_zero. lia.
Qed.

(** ** Function-call items *)


Lemma search_item (env : Env) (s : State) (arguments callId : string) :
  handle_item env (function_call "search" arguments callId) s =
  bind (call env EvWaitForCompletion)
       (fun _ => search_call env arguments callId) s.
Proof. reflexivity. Qed.

Lemma search_parse_failure (env : Env) (s : State) (arguments callId e : string) :
  throws env (length (trace s)) EvWaitForCompletion = None ->
  throws env (length (trace s) + 1) (EvJSONParse arguments) = Some e ->
  handle_item env (function_call "search" arguments callId) s =
  (Exn e, after [EvWaitForCompletion; EvJSONParse arguments] s).
Proof.
  intros Hw Hp. rewrite search_item. unfold bind at 1.
  rewrite call_run, Hw. cbn [outcome].
  unfold search_call, bind at 1. rewrite call_run, trace_after.
  cbn [length]. rewrite Hp. cbn [outcome]. now rewrite after_after.
Qed.

Lemma search_unconfigured (env : Env) (s : State) (arguments callId : string) :
  searchClientRef s = None ->
  throws env (length (trace s)) EvWaitForCompletion = None ->
  throws env (length (trace s) + 1) (EvJSONParse arguments) = None ->
  handle_item env (function_call "search" arguments callId) s =
  (Val tt, after [EvWaitForCompletion; EvJSONParse arguments] s).
Proof.
  intros Hs Hw Hp. rewrite search_item. unfold bind at 1.
  rewrite call_run, Hw. cbn [outcome].
  unfold search_call, bind at 1. rewrite call_run, trace_after.
  cbn [length]. rewrite Hp. cbn [outcome]. rewrite after_after.
  unfold bind, get. cbn [searchClientRef after set_trace]. now rewrite Hs.
Qed.

Lemma search_configured (env : Env) (s : State) (arguments callId : string) :
  searchClientRef s <> None -> clientRef s <> None -> quiet env ->
  rejects (search_results env (length (trace s) + 3)
                          (parsed_query env arguments)) = None ->
  handle_item env (function_call "search" arguments callId) s =
  (Val tt,
   after (search_calls env s arguments callId)
     (set_messages (fun log => log ++ [length (heap s)])
        (set_heap (fun h => h ++ [searching (parsed_query env arguments)]) s))).
Proof.
  intros Hs Hc Hq Hr.
  destruct (searchClientRef s) as [sc|] eqn:Es; [clear Hs | now destruct Hs].
  destruct (clientRef s) as [c|] eqn:Ec; [clear Hc | now destruct Hc].
  destruct (handle_item env (function_call "search" arguments callId) s)
    as [r s'] eqn:E.
  rewrite search_item in E.
  unfold search_call, client_call, append_message, clock in E.
  unfold bind, get in E.
  repeat first
    [ rewrite (call_quiet env) in E by assumption
    | progress cbn [clientRef searchClientRef trace heap settings after
                    set_trace set_messages set_heap] in E
    | rewrite Es in E
    | rewrite Ec in E
    | rewrite length_snoc in E ].
  replace (length (trace s) + 1 + 1 + 1) with (length (trace s) + 3) in E by lia.
  rewrite Hr in E.
  repeat first
    [ rewrite (call_quiet env) in E by assumption
    | progress cbn [clientRef searchClientRef trace heap settings after
                    set_trace set_messages set_heap] in E
    | rewrite Ec in E ].
  rewrite <- E. f_equal. unfold search_calls. state_ext.
Qed.


(** ** C6: the [search] tool *)

(** C6, as amended.  For a function-call item named [search]: the text
    built from the hits is the concatenation, in ranked order, of one block
    [[identifier]: content], newline, [-----], newline per hit; it is empty
    for no hit, and it contains one [-----] per hit plus the [-----]
    sequences that occur inside the selected fields themselves, so exactly
    as many as hits if and only if no selected field contains one.  With
    the lookup client set and a client held, when no call fails, the
    handler appends the "Searching" status Message, asks for the top 5 hits
    and sends that text in one function_call_output turn with the item's
    call id, then requests a response.  With no lookup client set, once the
    arguments have parsed the handler does nothing more: no
    function_call_output turn is sent, so there is no output string at
    all, and no error is raised.  When the arguments do not parse, the
    error leaves the handler, whether or not a lookup client is set. *)
Theorem search_sends_one_block_per_result
        (env : Env) (s : State) (arguments callId : string) :
  let n := length (trace s) in
  let cfg := settings s in
  let results := search_results env (n + 3) (parsed_query env arguments) in
  let text := resultText (searchIdentifierField cfg) (searchContentField cfg)
                         (chunks results) in
  let block := result_block (searchIdentifierField cfg) (searchContentField cfg) in
  let stray := stray_separators (searchIdentifierField cfg)
                                (searchContentField cfg) in
  let rs := handle_item env (function_call "search" arguments callId) s in
  ((text = join (map block (chunks results))) /\
   (chunks results = [] -> text = EmptyString) /\
   (occurrences "-----" text =
    length (chunks results) + list_sum (map stray (chunks results))) /\
   (length (chunks results) <= occurrences "-----" text) /\
   (occurrences "-----" text = length (chunks results) <->
    Forall (fun d => stray d = 0) (chunks results))) /\
  (searchClientRef s <> None -> clientRef s <> None -> quiet env ->
   rejects results = None ->
   fst rs = Val tt /\
   trace (snd rs) = trace s ++ search_calls env s arguments callId /\
   outputs_sent (search_calls env s arguments callId) = [text]) /\
  (searchClientRef s = None ->
   throws env n EvWaitForCompletion = None ->
   throws env (n + 1) (EvJSONParse arguments) = None ->
   rs = (Val tt, after [EvWaitForCompletion; EvJSONParse arguments] s) /\
   outputs_sent [EvWaitForCompletion; EvJSONParse arguments] = []) /\
  (forall e,
   throws env n EvWaitForCompletion = None ->
   throws env (n + 1) (EvJSONParse arguments) = Some e ->
   rs = (Exn e, after [EvWaitForCompletion; EvJSONParse arguments] s)).
Proof.
  cbv zeta. split; [| split; [| split]].
  - destruct (resultText_format
                (searchIdentifierField (settings s))
                (searchContentField (settings s))
                (chunks (search_results env (length (trace s) + 3)
                           (parsed_query env arguments))))
      as (H1 & H2 & H3 & H4).
    repeat (split; [assumption |]). split; [rewrite H3; lia | exact H4].
  - intros Hs Hc Hq Hr. rewrite search_configured by assumption.
    repeat split.
  - intros Hs Hw Hp. rewrite search_unconfigured by assumption.
    split; reflexivity.
  - intros e Hw Hp. now apply search_parse_failure.
Qed.

Lemma search_sends_one_block_per_result_witness :
  outputs_sent
    (trace (snd (handle_item service_env
                   (function_call "search" search_arguments "call-7")
                   lookup_session))) =
  ["[doc-1]: first hit" +:+ LF +:+ "-----" +:+ LF +:+
   "[doc-2]: second hit" +:+ LF +:+ "-----" +:+ LF] /\
  occurrences "-----"
    (resultText "chunk_id" "chunk"
       (chunks (search_results service_env 0 "test"))) = 2 /\
  handle_item service_env (function_call "search" search_arguments "call-7")
              service_session =
  (Val tt,
   after [EvWaitForCompletion; EvJSONParse search_arguments] service_session).
Proof.
  destruct (search_sends_one_block_per_result
              service_env lookup_session search_arguments "call-7")
    as ((_ & _ & _ & _ & Hcount) & Hset & _).
  destruct (search_sends_one_block_per_result
              service_env service_session search_arguments "call-7")
    as (_ & _ & Hunset & _).
  split; [| split].
  - destruct Hset as (_ & Htrace & _);
      [discriminate | discriminate | intros n ev; reflexivity | reflexivity |].
    rewrite Htrace. reflexivity.
  - apply Hcount. repeat constructor.
  - apply Hunset; reflexivity.
Defined.

(** With no lookup client set, a [search] item whose arguments parse leads
    to no function_call_output turn at all (so the output is not the empty
    string); and a hit whose content holds a [-----] line gives more
    separators than hits. *)
Lemma search_output_counterexample :
  searchClientRef service_session = None /\
  parsed_query service_env search_arguments = "test" /\
  fst (handle_item service_env (function_call "search" search_arguments "call-7")
                   service_session) = Val tt /\
  outputs_sent
    (trace (snd (handle_item service_env
                   (function_call "search" search_arguments "call-7")
                   service_session))) = [] /\
  occurrences "-----"
    (resultText "chunk_id" "chunk"
       [[("chunk_id", "doc-1");
         ("chunk", "above" +:+ LF +:+ "-----" +:+ LF +:+ "below")]])
  = 2.
Proof. repeat split. Qed.

(** ** C9: unknown tools and failing dispatches *)




(** ** C10: user barge-in *)

Lemma playback_active_stopped (tr : list Event) :
  playback_active (tr ++ [EvAudio stopStreamingPlayback]) = false.
Proof. unfold playback_active. now rewrite fold_left_app. Qed.

Ltac input_audio_leaf Hq :=
  match goal with
  | E : _ = (_, _) |- _ => injection E as <- <-
  end;
  split;
  [ first [ exists 0; simpl; rewrite <- ?app_assoc; reflexivity
          | exists 1; simpl; rewrite <- ?app_assoc; reflexivity
          | exists 2; simpl; rewrite <- ?app_assoc; reflexivity
          | exists 3; simpl; rewrite <- ?app_assoc; reflexivity
          | exists 4; simpl; rewrite <- ?app_assoc; reflexivity ]
  | split;
    [ intros Hh; first [ discriminate Hh
                       | rewrite ?app_assoc; apply playback_active_stopped ]
    | split;
      [ intros Hv; first [ discriminate Hv
                         | repeat split; simpl; rewrite <- ?app_assoc; reflexivity ]
      | split;
        [ intros Hn; first [ now destruct Hn | split; reflexivity ]
        | intros Hq; first [ reflexivity | congruence ] ] ] ] ].

(** C10.  For an [input_audio] event of the listener loop: the calls made
    are always an initial segment of "note user activity (when a proactive
    manager is held), stop streaming playback (when an audio handler is
    held), await the item, append the user Message"; with an audio handler
    held, playback is off when the item is awaited; when the handler returns
    normally exactly one Message, the user Message with the item's
    transcription (or the empty string), was appended, after the await; when
    it does not, nothing was appended; and it returns normally whenever no
    call throws. *)
Theorem input_audio_stops_playback_then_appends_user_message
        (env : Env) (s : State) (item : RTInputAudioItem) :
  let rs := on_server_event env (input_audio_event item) s in
  let m := user_message (or_default (transcription item) EmptyString) in
  (exists k, trace (snd rs) = trace s ++ take k (input_audio_calls s item)) /\
  (audioHandlerRef s = true ->
   playback_active (trace s ++ input_audio_prelude s) = false) /\
  (fst rs = Val tt ->
   trace (snd rs) = trace s ++ input_audio_calls s item /\
   messages (snd rs) = messages s ++ [length (heap s)] /\
   heap (snd rs) = heap s ++ [m]) /\
  (fst rs <> Val tt ->
   messages (snd rs) = messages s /\ heap (snd rs) = heap s) /\
  (quiet env -> fst rs = Val tt).
Proof.
  cbv zeta.
  destruct (on_server_event env (input_audio_event item) s) as [r s'] eqn:E.
  cbn [fst snd].
  unfold on_server_event, handleInputAudio, proactive_call, audio_call,
    append_message in E.
  unfold bind, get, modify in E. unfold input_audio_calls, input_audio_prelude.
  destruct (proactiveManagerRef s), (audioHandlerRef s) eqn:Eh;
    repeat first
      [ progress unfold ret in E
      | progress cbn [when audioHandlerRef set_isUserSpeaking after set_trace] in E
      | progress rewrite ?Eh in E
      | rewrite call_run in E;
        match type of E with
        | context [outcome (throws env ?n ?ev)] =>
            let Ho := fresh "Ho" in
            destruct (throws env n ev) eqn:Ho; cbn [outcome] in E
        end ];
    try input_audio_leaf Hq.
Qed.

Lemma input_audio_stops_playback_then_appends_user_message_witness :
  playback_active (trace playing_state) = true /\
  playback_active (trace playing_state ++ input_audio_prelude playing_state) = false /\
  trace (snd (on_server_event quiet_env
                (input_audio_event {| transcription := Some "stop please" |})
                playing_state)) =
  trace playing_state ++
  [EvAudio stopStreamingPlayback; EvWaitForCompletion;
   EvSetMessages (user_message "stop please")].
Proof.
  destruct (input_audio_stops_playback_then_appends_user_message
              quiet_env playing_state {| transcription := Some "stop please" |})
    as (_ & Hoff & Hval & _ & Hrun).
  split; [reflexivity |]. split; [apply Hoff; reflexivity |].
  apply Hval, Hrun. intros n ev. reflexivity.
Defined.

(** * Properties of the panel and of the remaining handlers *)

(** ** Splitting and joining *)

Lemma split_cons (sep : ascii) (s : string) :
  exists piece pieces, split sep s = piece :: pieces.
Proof.
  induction s as [|c s IH]; cbn [split]; [now eexists _, _ |].
  destruct (Ascii.eqb c sep); [now eexists _, _ |].
  destruct IH as (piece & pieces & ->). now eexists _, _.
Qed.

Lemma split_hyphen_free (s : string) :
  hyphen_free s = true -> split hyphen s = [s].
Proof.
  induction s as [|c s IH]; cbn [split hyphen_free]; [reflexivity |].
  intros [Hc Hs]%andb_prop. apply negb_true_iff in Hc. rewrite Hc.
  now rewrite (IH Hs).
Qed.

Lemma split_first (a b : string) :
  hyphen_free a = true ->
  split hyphen (a +:+ String hyphen b) = a :: split hyphen b.
Proof.
  induction a as [|c a IH]; intros Ha.
  - change (split hyphen (String hyphen b) = EmptyString :: split hyphen b).
    cbn [split]. now rewrite Ascii.eqb_refl.
  - cbn [hyphen_free] in Ha. apply andb_prop in Ha as [Hc Ha].
    apply negb_true_iff in Hc.
    rewrite append_cons. cbn [split]. rewrite Hc. now rewrite (IH Ha).
Qed.

Lemma join_with_cons (sep x : string) (l : list string) :
  l <> [] -> join_with sep (x :: l) = x +:+ sep +:+ join_with sep l.
Proof. now destruct l. Qed.

(** Joining the pieces with the separator gives the string back. *)
Lemma join_split (sep : ascii) (s : string) :
  join_with (String sep EmptyString) (split sep s) = s.
Proof.
  induction s as [|c s IH]; cbn [split]; [reflexivity |].
  destruct (split_cons sep s) as (piece & pieces & E). rewrite E in IH |- *.
  destruct (Ascii.eqb c sep) eqn:Hc.
  - apply Ascii.eqb_eq in Hc. subst c.
    rewrite join_with_cons by discriminate. now rewrite IH.
  - destruct pieces as [|q pieces].
    + cbn [join_with] in *. now subst piece.
    + rewrite join_with_cons in IH |- * by discriminate.
      rewrite append_cons. now rewrite IH.
Qed.

(** ** The avatar of the configuration request *)

(** X1.  For a standard avatar, [getAvatarConfig] splits the avatar name at
    its first hyphen only: the character is the part before it (of ASCII
    characters), in lower case, and the style is everything after it, later
    hyphens included.  A name without a hyphen is the character, with an
    empty style. *)
Theorem standard_avatar_split_at_first_hyphen (p : Panel) (c st : string) :
  isAvatar p = true -> isCustomAvatar p = false ->
  ascii_only c = true -> hyphen_free c = true ->
  (avatarName p = c +:+ "-" +:+ st ->
   getAvatarConfig p =
   Some {| character := toLowerCase c; style := Some st;
           customized := None; video := videoParams |}) /\
  (avatarName p = c ->
   getAvatarConfig p =
   Some {| character := toLowerCase c; style := Some EmptyString;
           customized := None; video := videoParams |}).
Proof.
  intros Ha Hc _ Hf. unfold getAvatarConfig. rewrite Ha, Hc. cbn [negb andb].
  split; intros ->.
  - change (c +:+ "-" +:+ st) with (c +:+ String hyphen st).
    rewrite (split_first c st Hf). cbn [hd tl].
    change (join_with "-" (split hyphen st))
      with (join_with (String hyphen EmptyString) (split hyphen st)).
    now rewrite join_split.
  - now rewrite (split_hyphen_free c Hf).
Qed.

Lemma standard_avatar_split_at_first_hyphen_witness :
  getAvatarConfig avatar_panel =
  Some {| character := "lisa"; style := Some "casual-sitting";
          customized := None; video := videoParams |}.
Proof.
  exact (proj1 (standard_avatar_split_at_first_hyphen
                  avatar_panel "Lisa" "casual-sitting"
                  eq_refl eq_refl eq_refl eq_refl) eq_refl).
Defined.

Lemma truthy_false (s : string) : truthy s = false <-> s = EmptyString.
Proof. now destruct s. Qed.

(** X2.  No avatar is requested exactly when the avatar switch is off, or
    a custom avatar is chosen and its name is empty.  In the second case
    the interface still counts the avatar as enabled as long as a standard
    avatar name is set. *)
Theorem no_avatar_requested_iff (p : Panel) :
  (getAvatarConfig p = None <->
   isAvatar p = false \/
   (isCustomAvatar p = true /\ customAvatarName p = EmptyString)) /\
  (isAvatar p = true -> isCustomAvatar p = true ->
   customAvatarName p = EmptyString -> avatarName p <> EmptyString ->
   isEnableAvatar p = true /\ getAvatarConfig p = None).
Proof.
  unfold getAvatarConfig, isEnableAvatar. split.
  - destruct (isAvatar p), (isCustomAvatar p); cbn [negb andb];
      rewrite <- ?truthy_false;
      destruct (truthy (customAvatarName p)); split; intros H;
      try discriminate; try reflexivity; auto;
      destruct H as [H | [H1 H2]]; discriminate.
  - intros -> -> -> Hn. cbn [negb andb truthy orb].
    split; [| reflexivity]. now destruct (avatarName p).
Qed.

Lemma no_avatar_requested_iff_witness :
  isEnableAvatar unnamed_avatar_panel = true /\
  getAvatarConfig unnamed_avatar_panel = None.
Proof.
  apply (proj2 (no_avatar_requested_iff unnamed_avatar_panel));
    (reflexivity || discriminate).
Defined.

(** ** Cascaded models and turn detection *)

(** X3.  In model mode, a model that [isCascaded] accepts is never
    transcribed with whisper-1: the configuration request names
    azure-fast-transcription for it. *)
Theorem cascaded_model_uses_fast_transcription (cfg : Settings) :
  mode cfg = model_mode ->
  isCascaded (mode cfg) (model cfg) = true ->
  req_transcription_model (session_request cfg) = "azure-fast-transcription".
Proof.
  intros Hm. rewrite Hm. unfold isCascaded, session_request, cascadedModels.
  cbn [existsb req_transcription_model].
  rewrite !orb_true_iff, !String.eqb_eq.
  intros [H|[H|[H|[H|[H|[H|H]]]]]]; try discriminate; now rewrite H.
Qed.

Lemma cascaded_model_uses_fast_transcription_witness :
  req_transcription_model (session_request cascaded_settings) =
  "azure-fast-transcription".
Proof.
  exact (cascaded_model_uses_fast_transcription cascaded_settings eq_refl eq_refl).
Defined.

(** X4.  [handleConnect] writes the end-of-utterance setting into the
    turn-detection object held in the state.  Once a connect has written
    it, every later connect that starts from the same object still sends
    it, although end-of-utterance detection has been set to "none" in the
    meantime; it is gone only when a turn-detection type is selected
    again, which replaces the object. *)
Theorem eou_detection_outlives_its_setting
        (cfg cfg' : Settings) (p p' : Panel) (td : TurnDetection) (value : string) :
  turnDetectionType p = Some td ->
  eouDetectionType p <> "none" ->
  isCascaded (mode cfg) (model cfg) = true ->
  turnDetectionType p' = turnDetectionType (connect_panel cfg p) ->
  eouDetectionType p' = "none" ->
  (exists td',
     turnDetection cfg' p' = Some td' /\
     end_of_utterance_detection td' = Some (eouDetectionType p)) /\
  (value <> "none" ->
   exists td',
     turnDetection cfg' (select_turn_detection value p') = Some td' /\
     end_of_utterance_detection td' = None).
Proof.
  intros Htd Heou Hc Hsame Hnone. split.
  - unfold turnDetection at 1. rewrite Hsame, Hnone.
    cbn [connect_panel turnDetectionType set_turnDetectionType String.eqb
         Ascii.eqb Bool.eqb negb andb].
    unfold turnDetection. rewrite Htd, Hc.
    apply String.eqb_neq in Heou. rewrite Heou. cbn [negb andb td_type].
    destruct (String.eqb (td_type td) "azure_semantic_vad") eqn:E;
      cbn [td_type]; rewrite ?E; eexists; (split; [reflexivity |]); reflexivity.
  - intros Hv. apply String.eqb_neq in Hv.
    unfold turnDetection, select_turn_detection. rewrite Hv.
    cbn [turnDetectionType set_turnDetectionType eouDetectionType].
    rewrite Hnone, String.eqb_refl. cbn [negb andb td_type].
    destruct (String.eqb value "azure_semantic_vad");
      eexists; (split; [reflexivity |]); reflexivity.
Qed.

Lemma eou_detection_outlives_its_setting_witness :
  exists td',
    turnDetection default_settings
      (set_eouDetectionType "none" (connect_panel cascaded_settings eou_panel)) =
    Some td' /\
    end_of_utterance_detection td' = Some "semantic_detection_v1".
Proof.
  refine (proj1 (eou_detection_outlives_its_setting
                   cascaded_settings default_settings eou_panel
                   (set_eouDetectionType "none"
                      (connect_panel cascaded_settings eou_panel))
                   _ "server_vad" eq_refl _ eq_refl eq_refl eq_refl)).
  discriminate.
Defined.

(** ** The tool checkboxes *)

Lemma search_declared_app (l1 l2 : list ToolDeclaration) :
  search_declared (l1 ++ l2) = search_declared l1 || search_declared l2.
Proof. apply existsb_app. Qed.

Lemma search_declared_filter (n : string) (l : list ToolDeclaration) :
  search_declared (List.filter (fun d => negb (String.eqb (name d) n)) l) =
  search_declared l && negb (String.eqb n "search").
Proof.
  induction l as [|d l IH]; [reflexivity |].
  cbn [List.filter]. destruct (String.eqb (name d) n) eqn:E; cbn [negb].
  - apply String.eqb_eq in E. subst n. rewrite IH.
    change (search_declared (d :: l))
      with (String.eqb (name d) "search" || search_declared l).
    destruct (String.eqb (name d) "search"), (search_declared l); reflexivity.
  - change (search_declared (d :: ?x))
      with (String.eqb (name d) "search" || search_declared x).
    change (search_declared (d :: l))
      with (String.eqb (name d) "search" || search_declared l).
    rewrite IH.
    destruct (String.eqb (name d) "search") eqn:E1; [| reflexivity].
    apply String.eqb_eq in E1. rewrite E1 in E. rewrite String.eqb_sym in E.
    rewrite E. cbn [negb orb]. now rewrite andb_true_r.
Qed.

(** X5.  Ticking or unticking any predefined tool keeps the search switch
    and the declared tools in step: search is enabled exactly when a tool
    named search is declared, so a connect creates the lookup client
    exactly when the search tool is offered to the service. *)
Theorem tool_checkbox_keeps_search_flag
        (checked : bool) (t : PredefinedTool) (f : Form) :
  In t predefinedTools ->
  enableSearch (fst f) = search_declared (tools (snd f)) ->
  enableSearch (fst (onToolChange checked t f)) =
  search_declared (tools (snd (onToolChange checked t f))).
Proof.
  intros Hin Hinv. destruct f as [cfg p]. cbn [fst snd] in Hinv.
  unfold onToolChange.
  assert (Hid : String.eqb (tool_id t) "search" = String.eqb (name (tool t)) "search").
  { cbn [In predefinedTools] in Hin.
    destruct Hin as [<-|[<-|[<-|[<-|[]]]]]; reflexivity. }
  rewrite Hid. destruct checked; cbn [fst snd].
  - change (tools (set_tools ?v p)) with v.
    rewrite search_declared_app.
    change (search_declared [tool t])
      with (String.eqb (name (tool t)) "search" || false).
    destruct (String.eqb (name (tool t)) "search"); cbn [enableSearch set_enableSearch].
    + now rewrite orb_true_r.
    + now rewrite !orb_false_r.
  - change (tools (set_tools ?v p)) with v.
    rewrite search_declared_filter.
    destruct (String.eqb (name (tool t)) "search"); cbn [enableSearch set_enableSearch negb].
    + now rewrite andb_false_r.
    + now rewrite andb_true_r.
Qed.

Lemma tool_checkbox_keeps_search_flag_witness :
  enableSearch
    (fst (onToolChange true search_tool (default_settings, default_panel))) =
  search_declared
    (tools (snd (onToolChange true search_tool (default_settings, default_panel)))).
Proof.
  exact (tool_checkbox_keeps_search_flag
           true search_tool (default_settings, default_panel)
           (or_introl eq_refl) eq_refl).
Defined.

Lemma filter_all {A} (P : A -> bool) (l : list A) :
  Forall (fun x => P x = true) l -> List.filter P l = l.
Proof.
  induction 1 as [|x l Hx _ IH]; [reflexivity |].
  cbn [List.filter]. now rewrite Hx, IH.
Qed.

Lemma set_tools_same (p : Panel) : set_tools (tools p) p = p.
Proof. now destruct p. Qed.

(** X6.  Ticking a predefined tool that is not declared yet and unticking
    it again restores the settings exactly: the declared tools and the
    search switch are as before. *)
Theorem tick_then_untick_restores_settings (t : PredefinedTool) (f : Form) :
  In t predefinedTools ->
  enableSearch (fst f) = search_declared (tools (snd f)) ->
  Forall (fun d => name d <> name (tool t)) (tools (snd f)) ->
  onToolChange false t (onToolChange true t f) = f.
Proof.
  intros Hin Hinv Hnew. destruct f as [cfg p]. cbn [fst snd] in *.
  unfold onToolChange.
  change (tools (set_tools ?v p)) with v.
  assert (Hl : List.filter (fun d => negb (String.eqb (name d) (name (tool t))))
                           (tools p ++ [tool t]) = tools p).
  { rewrite List.filter_app. cbn [List.filter]. rewrite String.eqb_refl. cbn [negb].
    rewrite List.app_nil_r. apply filter_all.
    eapply List.Forall_impl; [| exact Hnew]. intros d Hd. cbn beta in Hd.
    apply negb_true_iff. now apply String.eqb_neq. }
  rewrite Hl. f_equal.
  - destruct (String.eqb (tool_id t) "search") eqn:Hid; [| reflexivity].
    assert (Hs : search_declared (tools p) = false).
    { assert (Hn : name (tool t) = "search").
      { cbn [In predefinedTools] in Hin.
        destruct Hin as [<-|[<-|[<-|[<-|[]]]]]; (reflexivity || discriminate). }
      rewrite Hn in Hnew. unfold search_declared.
      apply not_true_is_false. intros [d [Hd1 Hd2]]%existsb_exists.
      apply String.eqb_eq in Hd2. rewrite List.Forall_forall in Hnew.
      exact (Hnew d Hd1 Hd2). }
    rewrite Hs in Hinv. destruct cfg. cbn in Hinv. subst. reflexivity.
  - destruct p. reflexivity.
Qed.

Lemma tick_then_untick_restores_settings_witness :
  onToolChange false time_tool
    (onToolChange true time_tool (default_settings, default_panel)) =
  (default_settings, default_panel).
Proof.
  exact (tick_then_untick_restores_settings
           time_tool (default_settings, default_panel)
           (or_intror (or_introl eq_refl)) eq_refl (List.Forall_nil _)).
Defined.

(** ** Predefined scenarios *)

Lemma predefinedScenarios_apply_voice (v : ScenarioVoice) (p : Panel) :
  predefinedScenarios (apply_voice v p) = predefinedScenarios p.
Proof.
  unfold apply_voice.
  destruct (custom_voice v), (deployment_id v) as [d|], (scenario_temperature v) as [t|];
    try destruct (truthy d); try destruct (number_truthy t);
    destruct (truthy (scenario_voice_name v)); reflexivity.
Qed.

Lemma predefinedScenarios_apply_avatar (a : option ScenarioAvatar) (p : Panel) :
  predefinedScenarios (apply_avatar a p) = predefinedScenarios p.
Proof.
  unfold apply_avatar. destruct a as [a|]; [| reflexivity].
  now destruct (avatar_enabled a), (avatar_customized a).
Qed.

Lemma apply_voice_idempotent (v : ScenarioVoice) (p : Panel) :
  apply_voice v (apply_voice v p) = apply_voice v p.
Proof.
  unfold apply_voice.
  destruct (custom_voice v), (deployment_id v) as [d|], (scenario_temperature v) as [t|];
    try destruct (truthy d); try destruct (number_truthy t);
    destruct (truthy (scenario_voice_name v)); reflexivity.
Qed.

Lemma apply_avatar_idempotent (a : option ScenarioAvatar) (p : Panel) :
  apply_avatar a (apply_avatar a p) = apply_avatar a p.
Proof.
  unfold apply_avatar. destruct a as [a|]; [| reflexivity].
  now destruct (avatar_enabled a), (avatar_customized a).
Qed.

Lemma apply_avatar_voice (a : option ScenarioAvatar) (v : ScenarioVoice) (p : Panel) :
  apply_voice v (apply_avatar a p) = apply_avatar a (apply_voice v p).
Proof.
  unfold apply_voice, apply_avatar.
  destruct a as [a|];
    [destruct (avatar_enabled a), (avatar_customized a) |];
    destruct (custom_voice v), (deployment_id v) as [d|],
             (scenario_temperature v) as [t|];
    try destruct (truthy d); try destruct (number_truthy t);
    destruct (truthy (scenario_voice_name v)); reflexivity.
Qed.

Lemma apply_voice_selected (k : string) (v : ScenarioVoice) (p : Panel) :
  apply_voice v (set_selectedScenario k p) = set_selectedScenario k (apply_voice v p).
Proof.
  unfold apply_voice.
  destruct (custom_voice v), (deployment_id v) as [d|], (scenario_temperature v) as [t|];
    try destruct (truthy d); try destruct (number_truthy t);
    destruct (truthy (scenario_voice_name v)); reflexivity.
Qed.

Lemma apply_avatar_selected (k : string) (a : option ScenarioAvatar) (p : Panel) :
  apply_avatar a (set_selectedScenario k p) = set_selectedScenario k (apply_avatar a p).
Proof.
  unfold apply_avatar. destruct a as [a|]; [| reflexivity].
  now destruct (avatar_enabled a), (avatar_customized a).
Qed.

Lemma applyScenario_known (k : string) (cfg : Settings) (p : Panel)
      (scenario : PredefinedScenario) :
  predefinedScenarios p !! k = Some scenario ->
  applyScenario k (cfg, p) =
  (let cfg1 :=
     match scenario_instructions scenario with
     | Some i => if truthy i then set_instructions i cfg else cfg
     | None => cfg
     end in
   match pro_active scenario with
   | Some b => set_enableProactive b cfg1
   | None => cfg1
   end,
   set_selectedScenario k
     (apply_avatar (scenario_avatar scenario)
        (match scenario_voice scenario with
         | Some v => apply_voice v p
         | None => p
         end))).
Proof. intros H. unfold applyScenario. now rewrite H. Qed.

(** X7.  Applying a scenario of the list twice in a row is the same as
    applying it once, and it is then the selected scenario. *)
Theorem applyScenario_idempotent
        (k : string) (f : Form) (scenario : PredefinedScenario) :
  predefinedScenarios (snd f) !! k = Some scenario ->
  applyScenario k (applyScenario k f) = applyScenario k f /\
  selectedScenario (snd (applyScenario k f)) = k.
Proof.
  destruct f as [cfg p]. cbn [snd]. intros E.
  rewrite (applyScenario_known k cfg p scenario E). cbv zeta.
  split; [| reflexivity].
  rewrite (applyScenario_known k _ _ scenario).
  - f_equal.
    + destruct (scenario_instructions scenario) as [i|],
               (pro_active scenario) as [b|];
        try destruct (truthy i); reflexivity.
    + destruct (scenario_voice scenario) as [v|].
      * rewrite apply_voice_selected, apply_avatar_selected.
        rewrite apply_avatar_voice, apply_voice_idempotent.
        rewrite apply_avatar_idempotent. reflexivity.
      * rewrite apply_avatar_selected, apply_avatar_idempotent. reflexivity.
  - change (predefinedScenarios (set_selectedScenario k ?q))
      with (predefinedScenarios q).
    rewrite predefinedScenarios_apply_avatar.
    destruct (scenario_voice scenario);
      [rewrite predefinedScenarios_apply_voice |]; exact E.
Qed.

Lemma applyScenario_idempotent_witness :
  applyScenario "support"
    (applyScenario "support" (default_settings, scenario_panel)) =
  applyScenario "support" (default_settings, scenario_panel).
Proof.
  exact (proj1 (applyScenario_idempotent
                  "support" (default_settings, scenario_panel) support_scenario
                  eq_refl)).
Defined.

(** X8.  After a scenario is applied, the avatar of the next
    configuration request is decided by the scenario alone: a scenario
    without an avatar section, or with the avatar disabled, switches the
    avatar off, and nothing of the avatar chosen before is left. *)
Theorem scenario_decides_avatar
        (k : string) (cfg : Settings) (p : Panel) (scenario : PredefinedScenario) :
  predefinedScenarios p !! k = Some scenario ->
  getAvatarConfig (snd (applyScenario k (cfg, p))) =
  scenario_avatar_config (scenario_avatar scenario).
Proof.
  intros E. rewrite (applyScenario_known k cfg p scenario E). cbn [snd].
  unfold getAvatarConfig, scenario_avatar_config, apply_avatar.
  destruct (scenario_avatar scenario) as [a|]; [| reflexivity].
  destruct (avatar_enabled a), (avatar_customized a); reflexivity.
Qed.

Lemma scenario_decides_avatar_witness :
  getAvatarConfig
    (snd (applyScenario "plain"
            (applyScenario "support" (default_settings, scenario_panel)))) = None.
Proof.
  exact (scenario_decides_avatar "plain"
           (fst (applyScenario "support" (default_settings, scenario_panel)))
           (snd (applyScenario "support" (default_settings, scenario_panel)))
           plain_scenario eq_refl).
Defined.

(** X9.  A scenario without instructions, absent or empty, leaves the
    instructions of the scenario applied before in force, although it is
    the one shown as selected. *)
Theorem scenario_without_instructions_keeps_previous
        (ka kb : string) (f : Form) (a b : PredefinedScenario) (i : string) :
  predefinedScenarios (snd f) !! ka = Some a ->
  predefinedScenarios (snd f) !! kb = Some b ->
  scenario_instructions a = Some i -> i <> EmptyString ->
  or_default (scenario_instructions b) EmptyString = EmptyString ->
  instructions (fst (applyScenario kb (applyScenario ka f))) = i /\
  selectedScenario (snd (applyScenario kb (applyScenario ka f))) = kb.
Proof.
  intros Ha Hb Hi Hne Hempty. destruct f as [cfg p]. cbn [snd] in Ha, Hb.
  rewrite (applyScenario_known ka cfg p a Ha). cbv zeta.
  rewrite (applyScenario_known kb _ _ b).
  - cbn [fst snd]. split; [| reflexivity].
    assert (Ht : truthy i = true) by now destruct i.
    rewrite Hi, Ht.
    assert (Hb' : match scenario_instructions b with
                  | Some j => truthy j = false
                  | None => True
                  end).
    { destruct (scenario_instructions b) as [j|]; [| exact I].
      cbn [or_default] in Hempty. destruct (truthy j) eqn:Hj; [| reflexivity].
      subst j. discriminate. }
    destruct (scenario_instructions b) as [j|]; [rewrite Hb' |];
      destruct (pro_active a), (pro_active b); reflexivity.
  - change (predefinedScenarios (set_selectedScenario ka ?q))
      with (predefinedScenarios q).
    rewrite predefinedScenarios_apply_avatar.
    destruct (scenario_voice a);
      [rewrite predefinedScenarios_apply_voice |]; exact Hb.
Qed.

Lemma scenario_without_instructions_keeps_previous_witness :
  instructions
    (fst (applyScenario "plain"
            (applyScenario "support" (default_settings, scenario_panel)))) =
  "You are a support agent." /\
  selectedScenario
    (snd (applyScenario "plain"
            (applyScenario "support" (default_settings, scenario_panel)))) =
  "plain".
Proof.
  refine (scenario_without_instructions_keeps_previous
            "support" "plain" (default_settings, scenario_panel)
            support_scenario plain_scenario "You are a support agent."
            eq_refl eq_refl eq_refl _ eq_refl).
  discriminate.
Defined.

(** ** Blank input *)










(** ** The listener *)

(** X11.  [startResponseListener] never throws, whatever the events and
    whatever fails while they are handled; without a client it does
    nothing. *)
Theorem listener_never_throws
        (env : Env) (events : Stream ServerEvent) (s : State) :
  fst (startResponseListener env events s) = Val tt /\
  (clientRef s = None -> startResponseListener env events s = (Val tt, s)).
Proof.
  unfold startResponseListener, bind, get. split.
  - destruct (clientRef s); [| reflexivity].
    unfold try_catch.
    destruct (for_await events (on_server_event env) s) as [[[]|e] s1];
      [reflexivity |].
    now destruct (clientRef s1).
  - now intros ->.
Qed.

Lemma for_await_app_failure {A} (body : A -> M unit) (pre post : list A) (x : A)
      (r : option string) (s s1 : State) (e : string) :
  for_each body pre s = (Val tt, s1) ->
  fst (body x s1) = Exn e ->
  for_await {| chunks := pre ++ x :: post; rejects := r |} body s =
  (Exn e, snd (body x s1)).
Proof.
  intros Hpre Hx. unfold for_await, bind. cbn [chunks rejects].
  rewrite for_each_app, Hpre. cbn [for_each]. unfold bind.
  destruct (body x s1) as [[[]|e'] s2]; cbn [fst snd] in *; [discriminate |].
  congruence.
Qed.

(** X12.  The listener stops at the first event whose handling fails: the
    events that follow are never handled, and neither is the failure the
    stream itself might end with.  The failure is logged to the console
    (as long as a client is held) and nothing else is done. *)
Theorem listener_stops_at_first_failure
        (env : Env) (pre post : list ServerEvent) (ev : ServerEvent)
        (r : option string) (s s1 : State) (e : string) :
  clientRef s <> None ->
  for_each (on_server_event env) pre s = (Val tt, s1) ->
  fst (on_server_event env ev s1) = Exn e ->
  let s2 := snd (on_server_event env ev s1) in
  startResponseListener env {| chunks := pre ++ ev :: post; rejects := r |} s =
  (Val tt,
   if held (clientRef s2)
   then after [EvConsoleError "Response iteration error:" e] s2
   else s2).
Proof.
  intros Hc Hpre Hev. cbv zeta.
  unfold startResponseListener, bind at 1, get at 1.
  destruct (clientRef s); [clear Hc | now destruct Hc].
  unfold try_catch.
  rewrite (for_await_app_failure _ pre post ev r s s1 e Hpre Hev).
  unfold bind, get. now destruct (clientRef _).
Qed.

Lemma listener_stops_at_first_failure_witness :
  startResponseListener failing_parse_env
    {| chunks := [response_event broken_search_response;
                  input_audio_event utterance];
       rejects := None |}
    service_session =
  (Val tt,
   after [EvWaitForCompletion; EvJSONParse "{";
          EvConsoleError "Response iteration error:"
                         "SyntaxError: Unexpected end of JSON input"]
         service_session).
Proof.
  refine (listener_stops_at_first_failure
            failing_parse_env [] [input_audio_event utterance]
            (response_event broken_search_response) None
            service_session service_session
            "SyntaxError: Unexpected end of JSON input" _ eq_refl eq_refl).
  vm_compute. discriminate.
Defined.

(** ** Fragments and the last entry of the log *)

(** X13.  The update made after each fragment writes the text of the open
    message into the last entry of the log, whichever message that is: if
    another message with non-empty content was appended after the open
    one, its content is replaced by the assistant text, and its type is
    kept; a last entry with empty content is left alone.  The open message
    itself always receives the fragment. *)
Theorem fragment_overwrites_last_entry
        (l k : nat) (text : string) (s : State) (mk ml : Message) :
  last (messages s) = Some k -> k <> l ->
  heap s !! k = Some mk -> heap s !! l = Some ml ->
  let s' := snd (on_text l text s) in
  heap s' !! l = Some {| type := type ml; content := content ml +:+ text |} /\
  heap s' !! k =
  Some (if truthy (content mk)
        then {| type := type mk; content := content ml +:+ text |}
        else mk).
Proof.
  intros Hlast Hkl Hk Hl. cbv zeta.
  unfold on_text, bind, modify. cbn [snd heap set_heap messages].
  assert (Hl1 : append_content l text (heap s) !! l =
                Some {| type := type ml; content := content ml +:+ text |}).
  { unfold append_content. rewrite Hl. apply list_lookup_insert_eq.
    now apply lookup_lt_Some in Hl. }
  assert (Hk1 : append_content l text (heap s) !! k = Some mk).
  { unfold append_content. rewrite Hl.
    rewrite list_lookup_insert_ne by congruence. exact Hk. }
  unfold refresh_last. rewrite Hlast, Hk1, Hl1. cbn [content].
  destruct (truthy (content mk)).
  - split.
    + rewrite list_lookup_insert_ne by congruence. exact Hl1.
    + apply list_lookup_insert_eq. now apply lookup_lt_Some in Hk1.
  - now split.
Qed.

Lemma fragment_overwrites_last_entry_witness :
  rendered (snd (on_text 1 "lo" interrupted_state)) =
  [session_started "sess-1"; assistant_message "Hello"; user_message "Hello"] /\
  heap (snd (on_text 1 "lo" interrupted_state)) !! 2 =
  Some (user_message "Hello").
Proof.
  split; [reflexivity |].
  refine (proj2 (fragment_overwrites_last_entry
                   1 2 "lo" interrupted_state
                   (user_message "hi") (assistant_message "Hel")
                   eq_refl _ eq_refl eq_refl)).
  discriminate.
Defined.

(** ** Relations every step of a handler respects *)

Section Advances.

Variable R : State -> State -> Prop.
Hypothesis R_refl : forall s, R s s.
Hypothesis R_trans : forall s1 s2 s3, R s1 s2 -> R s2 s3 -> R s1 s3.
Hypothesis R_trace : forall g s, R s (set_trace g s).

Lemma advances_ret {A} (a : A) : advances R (ret a).
Proof. intros s. apply R_refl. Qed.

Lemma advances_throw {A} (e : string) : advances R (@throw A e).
Proof. intros s. apply R_refl. Qed.

Lemma advances_get {A} (f : State -> A) : advances R (get f).
Proof. intros s. apply R_refl. Qed.

Lemma advances_modify (g : State -> State) :
  (forall s, R s (g s)) -> advances R (modify g).
Proof. intros Hg s. apply Hg. Qed.

Lemma advances_call (env : Env) (ev : Event) : advances R (call env ev).
Proof. intros s. rewrite call_run. apply R_trace. Qed.

Lemma advances_record (ev : Event) : advances R (record ev).
Proof. intros s. apply R_trace. Qed.

Lemma advances_bind {A B} (m : M A) (k : A -> M B) :
  advances R m -> (forall a, advances R (k a)) -> advances R (bind m k).
Proof.
  intros Hm Hk s. unfold bind. specialize (Hm s).
  destruct (m s) as [[a|e] s1]; cbn [snd] in *; [| exact Hm].
  eapply R_trans; [exact Hm | apply Hk].
Qed.

Lemma advances_when (b : bool) (m : M unit) :
  advances R m -> advances R (when b m).
Proof. destruct b; [trivial | intros _; apply advances_ret]. Qed.

Lemma advances_try_catch {A} (m : M A) (h : string -> M A) :
  advances R m -> (forall e, advances R (h e)) -> advances R (try_catch m h).
Proof.
  intros Hm Hh s. unfold try_catch. specialize (Hm s).
  destruct (m s) as [[a|e] s1]; cbn [snd] in *; [exact Hm |].
  eapply R_trans; [exact Hm | apply Hh].
Qed.

Lemma advances_try_finally {A} (m : M A) (f : State -> State) :
  advances R m -> (forall s, R s (f s)) -> advances R (try_finally m f).
Proof.
  intros Hm Hf s. unfold try_finally. specialize (Hm s).
  destruct (m s) as [r s1]; cbn [snd] in *.
  eapply R_trans; [exact Hm | apply Hf].
Qed.

Lemma advances_for_each {A} (body : A -> M unit) (l : list A) :
  (forall x, advances R (body x)) -> advances R (for_each body l).
Proof.
  intros Hb. induction l as [|x l IH]; cbn [for_each]; [apply advances_ret |].
  apply advances_bind; [apply Hb | intros _; exact IH].
Qed.

Lemma advances_for_await {A} (st : Stream A) (body : A -> M unit) :
  (forall x, advances R (body x)) -> advances R (for_await st body).
Proof.
  intros Hb. unfold for_await. apply advances_bind.
  - now apply advances_for_each.
  - intros _. destruct (rejects st); [apply advances_throw | apply advances_ret].
Qed.

Lemma advances_audio_call (env : Env) (a : AudioCall) :
  advances R (audio_call env a).
Proof.
  apply advances_bind; [apply advances_get |]. intros h.
  apply advances_when, advances_call.
Qed.

Lemma advances_proactive_call (env : Env) (ev : Event) :
  advances R (proactive_call env ev).
Proof.
  apply advances_bind; [apply advances_get |]. intros h.
  apply advances_when, advances_call.
Qed.

Lemma advances_client_call (env : Env) (ev : Event) :
  advances R (client_call env ev).
Proof.
  apply advances_bind; [apply advances_get |]. intros [c|];
    [apply advances_call | apply advances_ret].
Qed.

Lemma advances_on_audio (env : Env) (a : Bytes) : advances R (on_audio env a).
Proof.
  unfold on_audio. apply advances_bind; [apply advances_get |]. intros h.
  apply advances_when. unfold AudioHandler_playChunk.
  apply advances_bind; [apply advances_call |]. intros _ s.
  cbn [snd]. rewrite proactive_call_snd.
  destruct (proactiveManagerRef s); [apply R_trace | apply R_refl].
Qed.

(** What is left to check for a handler: the assignments it makes. *)
Hypothesis R_heap_text :
  forall l text s, R s (set_heap (append_content l text) s).
Hypothesis R_heap_last :
  forall l s, R s (set_heap (refresh_last (messages s) l) s).
Hypothesis R_append : forall m s, R s (snd (append_message m s)).
Hypothesis R_isUserSpeaking : forall v s, R s (set_isUserSpeaking v s).
Hypothesis R_currentMessage : forall v s, R s (set_currentMessage v s).
Hypothesis R_isRecording : forall v s, R s (set_isRecording v s).
Hypothesis R_hasRecording : forall v s, R s (set_hasRecording v s).
Hypothesis R_isConnected : forall v s, R s (set_isConnected v s).
Hypothesis R_isConnecting : forall v s, R s (set_isConnecting v s).
Hypothesis R_peerConnection : forall v s, R s (set_peerConnection v s).
Hypothesis R_sessionId : forall v s, R s (set_sessionId v s).
Hypothesis R_settings : forall g s, R s (set_settings g s).
Hypothesis R_clientRef : forall v s, R s (set_clientRef v s).
Hypothesis R_searchClientRef : forall c s, R s (set_searchClientRef (Some c) s).
Hypothesis R_proactiveManagerRef : forall s, R s (set_proactiveManagerRef true s).

Lemma advances_append_message (m : Message) : advances R (append_message m).
Proof. intros s. apply R_append. Qed.

Lemma advances_on_text (l : nat) (text : string) : advances R (on_text l text).
Proof.
  unfold on_text. apply advances_bind.
  - apply advances_modify. intros s. apply R_heap_text.
  - intros _. apply advances_modify. intros s. apply R_heap_last.
Qed.

Ltac advances_step :=
  first
    [ apply advances_audio_call
    | apply advances_proactive_call
    | apply advances_client_call
    | apply advances_on_audio
    | apply advances_on_text
    | apply advances_append_message
    | apply advances_call
    | apply advances_record
    | apply advances_get
    | apply advances_ret
    | apply advances_throw
    | apply advances_when
    | apply advances_try_catch; [| intros ?]
    | apply advances_try_finally
    | apply advances_for_await; intros ?
    | apply advances_for_each; intros ?
    | apply advances_bind; [| intros ?]
    | apply advances_modify; intros ?;
      first [ apply R_isUserSpeaking | apply R_currentMessage
            | apply R_isRecording | apply R_hasRecording
            | apply R_isConnected | apply R_isConnecting
            | apply R_peerConnection | apply R_sessionId
            | apply R_settings | apply R_clientRef
            | apply R_searchClientRef | apply R_proactiveManagerRef ]
    | intros ?; first [ apply R_isConnecting ] ].

Lemma advances_process_part (env : Env) (l : nat) (part : ContentPart) :
  advances R (process_part env l part).
Proof.
  destruct part as [t|t a arrival|]; cbn [process_part].
  - repeat advances_step.
  - apply advances_bind; [unfold audioTask_start; repeat advances_step |].
    intros _. rewrite promise_all_steps. apply advances_for_each.
    intros [x|x|b e]; cbn [run_step]; repeat advances_step.
  - apply advances_ret.
Qed.

Lemma advances_handle_item (env : Env) (item : Item) :
  advances R (handle_item env item).
Proof.
  destruct item as [[| |] parts|functionName arguments callId|];
    cbn [handle_item]; try apply advances_ret.
  - apply advances_bind; [apply advances_append_message |]. intros l.
    apply advances_for_await. intros part. apply advances_process_part.
  - apply advances_bind; [apply advances_call |]. intros _.
    destruct (String.eqb functionName "get_time").
    + unfold get_time_call, clock. repeat advances_step.
    + destruct (String.eqb functionName "search"); [| apply advances_ret].
      unfold search_call, clock.
      apply advances_bind; [apply advances_call |]. intros _.
      apply advances_bind; [apply advances_get |]. intros [sc|];
        [| apply advances_ret].
      repeat advances_step. cbv zeta.
      destruct (rejects _); repeat advances_step.
Qed.

Lemma advances_handleResponse (env : Env) (response : RTResponse) :
  advances R (handleResponse env response).
Proof.
  unfold handleResponse. apply advances_bind.
  - apply advances_for_await. intros item. apply advances_handle_item.
  - intros _. destruct (response_status response); repeat advances_step.
Qed.

Lemma advances_handleInputAudio (env : Env) (item : RTInputAudioItem) :
  advances R (handleInputAudio env item).
Proof. unfold handleInputAudio. repeat advances_step. Qed.

Lemma advances_startResponseListener (env : Env) (events : Stream ServerEvent) :
  advances R (startResponseListener env events).
Proof.
  unfold startResponseListener.
  apply advances_bind; [apply advances_get |]. intros [c|];
    [| apply advances_ret].
  apply advances_try_catch.
  - apply advances_for_await. intros [r|i]; cbn [on_server_event].
    + apply advances_handleResponse.
    + apply advances_bind; [apply advances_proactive_call |]. intros _.
      apply advances_handleInputAudio.
  - intros e. repeat advances_step.
Qed.

Lemma advances_sendMessage (env : Env) : advances R (sendMessage env).
Proof.
  unfold sendMessage.
  apply advances_bind; [apply advances_get |]. intros draft.
  apply advances_bind; [apply advances_get |]. intros c.
  destruct (_ && _); repeat advances_step.
Qed.

Lemma advances_release_devices (env : Env) : advances R (release_devices env).
Proof. unfold release_devices, clock. repeat advances_step. Qed.

Lemma advances_disconnect (env : Env) : advances R (disconnect env).
Proof.
  unfold disconnect.
  apply advances_bind; [apply advances_get |]. intros [c|];
    [| apply advances_ret].
  apply advances_try_catch; [| intros e; apply advances_record].
  do 4 (apply advances_bind; [repeat advances_step | intros _]).
  apply advances_release_devices.
Qed.

Lemma advances_refresh_token (env : Env) : advances R (refresh_token env).
Proof. unfold refresh_token, clock. repeat advances_step. Qed.

Lemma advances_open_session (env : Env) (cfg : Settings) :
  advances R (open_session env cfg).
Proof. unfold open_session, clock. repeat advances_step. Qed.

Lemma advances_handleConnect (env : Env) : advances R (handleConnect env).
Proof.
  unfold handleConnect.
  apply advances_bind; [apply advances_get |]. intros connected.
  apply advances_bind; [apply advances_get |]. intros cfg.
  destruct (negb connected).
  - apply advances_try_finally; [| intros s; apply R_isConnecting].
    apply advances_try_catch; [| intros e; repeat advances_step].
    apply advances_bind; [repeat advances_step |]. intros _.
    apply advances_bind;
      [apply advances_when, advances_refresh_token |]. intros _.
    destruct (agent_not_selected cfg);
      [repeat advances_step | apply advances_open_session].
  - apply advances_bind; [apply advances_record |]. intros _.
    apply advances_disconnect.
Qed.

Lemma advances_whenGreeting (env : Env) : advances R (whenGreeting env).
Proof. unfold whenGreeting. repeat advances_step. Qed.

Lemma advances_whenInactive (env : Env) : advances R (whenInactive env).
Proof. unfold whenInactive. repeat advances_step. Qed.

End Advances.

(** ** The log is only appended to *)







(** ** Handles that are never released *)

Lemma keeps_handles_refl (s : State) : keeps_handles s s.
Proof. now repeat split. Qed.

Lemma keeps_handles_trans (s1 s2 s3 : State) :
  keeps_handles s1 s2 -> keeps_handles s2 s3 -> keeps_handles s1 s3.
Proof. intros (A1 & B1 & C1) (A2 & B2 & C2). repeat split; auto. Qed.

Ltac keeps_handles_side :=
  first
    [ exact keeps_handles_refl
    | exact keeps_handles_trans
    | intros; repeat split; intros H; first [ exact H | reflexivity ] ].

(** X15.  The lookup client, the proactive manager and the audio handler
    are never released: no handler, [disconnect] included, gives up one of
    them once it is held.  So after a disconnect, and after a later connect
    with search or proactive prompts switched off, the handles of the
    earlier session are still in place. *)
Theorem handles_are_never_released (env : Env) (events : Stream ServerEvent) :
  advances keeps_handles (startResponseListener env events) /\
  advances keeps_handles (sendMessage env) /\
  advances keeps_handles (handleConnect env) /\
  advances keeps_handles (disconnect env) /\
  advances keeps_handles (whenGreeting env) /\
  advances keeps_handles (whenInactive env).
Proof.
  refine (conj _ (conj _ (conj _ (conj _ (conj _ _))))).
  - apply advances_startResponseListener; keeps_handles_side.
  - apply advances_sendMessage; keeps_handles_side.
  - apply advances_handleConnect; keeps_handles_side.
  - apply advances_disconnect; keeps_handles_side.
  - apply advances_whenGreeting; keeps_handles_side.
  - apply advances_whenInactive; keeps_handles_side.
Qed.

(** ** The calls a handler can make *)

Section Emits.

Variable P : Event -> bool.

Lemma emits_nothing {A} (m : M A) :
  (forall s, trace (snd (m s)) = trace s) -> emits P m.
Proof. intros H s. exists []. now rewrite H, List.app_nil_r. Qed.

Lemma emits_ret {A} (a : A) : emits P (ret a).
Proof. now apply emits_nothing. Qed.

Lemma emits_throw {A} (e : string) : emits P (@throw A e).
Proof. now apply emits_nothing. Qed.

Lemma emits_get {A} (f : State -> A) : emits P (get f).
Proof. now apply emits_nothing. Qed.

Lemma emits_modify (g : State -> State) :
  (forall s, trace (g s) = trace s) -> emits P (modify g).
Proof. intros H. now apply emits_nothing. Qed.

Lemma emits_call (env : Env) (ev : Event) : P ev = true -> emits P (call env ev).
Proof.
  intros H s. exists [ev]. rewrite call_run. split; [reflexivity |].
  cbn [forallb]. now rewrite H.
Qed.

Lemma emits_record (ev : Event) : P ev = true -> emits P (record ev).
Proof.
  intros H s. exists [ev]. split; [reflexivity |]. cbn [forallb]. now rewrite H.
Qed.

Lemma emits_append_message (m : Message) :
  P (EvSetMessages m) = true -> emits P (append_message m).
Proof.
  intros H s. exists [EvSetMessages m]. split; [reflexivity |].
  cbn [forallb]. now rewrite H.
Qed.

Lemma emits_bind {A B} (m : M A) (k : A -> M B) :
  emits P m -> (forall a, emits P (k a)) -> emits P (bind m k).
Proof.
  intros Hm Hk s. unfold bind. destruct (Hm s) as (evs1 & H1 & F1).
  destruct (m s) as [[a|e] s1]; cbn [snd] in *; [| now exists evs1].
  destruct (Hk a s1) as (evs2 & H2 & F2). exists (evs1 ++ evs2).
  split; [now rewrite H2, H1, app_assoc |].
  now rewrite forallb_app, F1, F2.
Qed.

Lemma emits_when (b : bool) (m : M unit) : emits P m -> emits P (when b m).
Proof. destruct b; [trivial | intros _; apply emits_ret]. Qed.

Lemma emits_try_catch {A} (m : M A) (h : string -> M A) :
  emits P m -> (forall e, emits P (h e)) -> emits P (try_catch m h).
Proof.
  intros Hm Hh s. unfold try_catch. destruct (Hm s) as (evs1 & H1 & F1).
  destruct (m s) as [[a|e] s1]; cbn [snd] in *; [now exists evs1 |].
  destruct (Hh e s1) as (evs2 & H2 & F2). exists (evs1 ++ evs2).
  split; [now rewrite H2, H1, app_assoc |].
  now rewrite forallb_app, F1, F2.
Qed.

Lemma emits_for_each {A} (body : A -> M unit) (l : list A) :
  (forall x, emits P (body x)) -> emits P (for_each body l).
Proof.
  intros Hb. induction l as [|x l IH]; cbn [for_each]; [apply emits_ret |].
  apply emits_bind; [apply Hb | intros _; exact IH].
Qed.

Lemma emits_for_await {A} (st : Stream A) (body : A -> M unit) :
  (forall x, emits P (body x)) -> emits P (for_await st body).
Proof.
  intros Hb. unfold for_await. apply emits_bind.
  - now apply emits_for_each.
  - intros _. destruct (rejects st); [apply emits_throw | apply emits_ret].
Qed.

End Emits.

Ltac emits_step :=
  first
    [ apply emits_call; reflexivity
    | apply emits_record; reflexivity
    | apply emits_append_message; reflexivity
    | apply emits_get
    | apply emits_ret
    | apply emits_throw
    | apply emits_modify; reflexivity
    | apply emits_when
    | apply emits_try_catch; [| intros ?]
    | apply emits_for_await; intros ?
    | apply emits_for_each; intros ?
    | apply emits_bind; [| intros ?] ].

Lemma emits_on_text (P : Event -> bool) (l : nat) (text : string) :
  emits P (on_text l text).
Proof. now apply emits_nothing. Qed.

Lemma emits_on_audio (env : Env) (a : Bytes) :
  emits listener_call (on_audio env a).
Proof.
  unfold on_audio. apply emits_bind; [apply emits_get |]. intros h.
  apply emits_when. unfold AudioHandler_playChunk.
  apply emits_bind; [emits_step |]. intros _ s.
  cbn [snd]. rewrite proactive_call_snd.
  destruct (proactiveManagerRef s).
  - now exists [EvUpdateActivity "agent speaking"].
  - exists []. now rewrite List.app_nil_r.
Qed.

Lemma emits_process_part (env : Env) (l : nat) (part : ContentPart) :
  emits listener_call (process_part env l part).
Proof.
  destruct part as [t|t a arrival|]; cbn [process_part].
  - apply emits_for_await. intros x. apply emits_on_text.
  - apply emits_bind.
    + unfold audioTask_start, audio_call. repeat emits_step.
    + intros _. rewrite promise_all_steps. apply emits_for_each.
      intros [x|x|b e]; cbn [run_step].
      * apply emits_on_text.
      * apply emits_on_audio.
      * apply emits_throw.
  - apply emits_ret.
Qed.

Lemma emits_handle_item (env : Env) (item : Item) :
  emits listener_call (handle_item env item).
Proof.
  destruct item as [[| |] parts|functionName arguments callId|];
    cbn [handle_item]; try apply emits_ret.
  - apply emits_bind; [emits_step |]. intros l.
    apply emits_for_await. intros part. apply emits_process_part.
  - apply emits_bind; [emits_step |]. intros _.
    destruct (String.eqb functionName "get_time").
    + unfold get_time_call, clock, client_call.
      apply emits_bind; [emits_step |]. intros n.
      apply emits_bind.
      * apply emits_bind; [emits_step |]. intros [c|]; emits_step.
      * intros _. apply emits_bind; [emits_step |]. intros [c|]; emits_step.
    + destruct (String.eqb functionName "search"); [| apply emits_ret].
      unfold search_call, clock, client_call.
      apply emits_bind; [emits_step |]. intros _.
      apply emits_bind; [emits_step |]. intros [sc|]; [| apply emits_ret].
      repeat emits_step. cbv zeta.
      destruct (rejects _); [emits_step |].
      apply emits_bind.
      * apply emits_bind; [emits_step |]. intros [c|]; emits_step.
      * intros _. apply emits_bind; [emits_step |]. intros [c|]; emits_step.
Qed.

(** X16.  Whatever the server events are and whatever fails, handling them
    only leads to calls of a fixed kind: appending to the log, awaiting an
    item, parsing arguments, a lookup, sending a function-call output,
    requesting a response, controlling playback, reporting activity and
    logging to the console.  In particular the listener never closes or
    creates a client, never sends a user or system message, and never
    starts or stops a recording. *)
Theorem listener_makes_only_listener_calls
        (env : Env) (events : Stream ServerEvent) :
  emits listener_call (startResponseListener env events) /\
  listener_call EvClose = false /\
  (forall c, listener_call (EvNewRTClient c) = false) /\
  (forall r text, listener_call (EvSendItem (message_item r text)) = false) /\
  (listener_call (EvAudio stopRecording) = false) /\
  (listener_call (EvAudio startSessionRecording) = false) /\
  (listener_call (EvAudio stopSessionRecording) = false).
Proof.
  split; [| now repeat split].
  unfold startResponseListener.
  apply emits_bind; [emits_step |]. intros [c|]; [| apply emits_ret].
  apply emits_try_catch.
  - apply emits_for_await. intros [r|i]; cbn [on_server_event].
    + unfold handleResponse. apply emits_bind.
      * apply emits_for_await. intros item. apply emits_handle_item.
      * intros _. destruct (response_status r); repeat emits_step.
    + unfold proactive_call, handleInputAudio, audio_call.
      repeat emits_step.
  - intros e. repeat emits_step.
Qed.

(** ** Connecting and disconnecting, continued *)

Lemma disconnect_returns (env : Env) (s : State) : fst (disconnect env s) = Val tt.
Proof.
  unfold disconnect, bind, get.
  destruct (clientRef s); [apply try_catch_record | reflexivity].
Qed.

(** X17.  [handleConnect] never throws: a failure while connecting is
    caught and reported, and a failure while disconnecting is logged.
    From a disconnected session it always ends with the connecting flag
    off, also when it fails or returns early; from a connected session it
    leaves the flag as it was. *)
Theorem connect_never_throws_and_clears_connecting (env : Env) (s : State) :
  fst (handleConnect env s) = Val tt /\
  (isConnected s = false -> isConnecting (snd (handleConnect env s)) = false) /\
  (isConnected s = true ->
   isConnecting (snd (handleConnect env s)) = isConnecting s).
Proof.
  destruct (handleConnect env s) as [r s'] eqn:E. cbn [fst snd].
  unfold handleConnect, bind at 1 2, get in E.
  destruct (isConnected s); cbn [negb] in E.
  - unfold bind at 1, record, modify in E.
    assert (H : forall s0, isConnecting (snd (disconnect env s0)) = isConnecting s0).
    { apply (advances_disconnect
               (fun s s' => isConnecting s' = isConnecting s));
        try (intros; reflexivity).
      intros s1 s2 s3 H1 H2. now rewrite H2. }
    pose proof (disconnect_returns env (set_trace (fun t => t ++ [EvClearVideo]) s))
      as Hr.
    specialize (H (set_trace (fun t => t ++ [EvClearVideo]) s)).
    rewrite E in Hr, H. cbn [fst snd] in Hr, H.
    split; [exact Hr | split; [discriminate | intros _; exact H]].
  - unfold try_finally, try_catch in E.
    destruct (bind _ _ _) as [[[]|e] s1]; cbn [fst snd] in E.
    + injection E as <- <-. now repeat split.
    + unfold bind, record, modify, append_message in E.
      injection E as <- <-. now repeat split.
Qed.

Lemma refresh_token_run (env : Env) (s : State) :
  throws env (length (trace s)) EvFetchConfig = None ->
  refresh_token env s =
  (Val tt,
   after [EvFetchConfig]
     (set_settings (refreshed (fetch_config env (length (trace s)))) s)).
Proof.
  intros H. unfold refresh_token, try_catch, bind at 1 2, clock, get.
  rewrite call_run, H. cbn [outcome]. unfold refreshed.
  destruct (fetch_config env (length (trace s))) as [o ce ct].
  cbn [ok config_endpoint config_token].
  destruct o; cbn [when]; [| unfold ret; f_equal; state_ext].
  destruct (truthy ce), (truthy ct); cbn [when];
    unfold bind, modify, ret; f_equal; state_ext.
Qed.

Lemma handleConnect_quiet_run (env : Env) (s : State) :
  quiet env -> isConnected s = false ->
  agent_not_selected (settings s) = false ->
  let s1 := if configLoaded (settings s)
            then after [EvFetchConfig]
                   (set_settings (refreshed (fetch_config env (length (trace s))))
                      (set_isConnecting true s))
            else set_isConnecting true s in
  handleConnect env s =
  (Val tt, set_isConnecting false (snd (open_session env (settings s) s1))).
Proof.
  intros Hq Hc Ha. cbv zeta.
  unfold handleConnect, bind at 1 2, get. rewrite Hc, Ha. cbn [negb].
  unfold try_finally, try_catch, bind at 1 2, modify at 1.
  destruct (configLoaded (settings s)); cbn [when].
  - rewrite refresh_token_run by apply Hq.
    cbn [trace set_isConnecting].
    pose proof (open_session_quiet env (settings s)
                  (after [EvFetchConfig]
                     (set_settings
                        (refreshed (fetch_config env (length (trace s))))
                        (set_isConnecting true s))) Hq) as H.
    cbv zeta in H. destruct H as (H & _).
    destruct (open_session _ _ _) as [r s2]. cbn [fst] in H. now subst r.
  - unfold ret.
    pose proof (open_session_quiet env (settings s) (set_isConnecting true s) Hq)
      as H.
    cbv zeta in H. destruct H as (H & _).
    destruct (open_session _ _ _) as [r s2]. cbn [fst] in H. now subst r.
Qed.

Lemma open_session_settings (env : Env) (cfg : Settings) (s : State) :
  settings (snd (open_session env cfg s)) = settings s.
Proof.
  apply (advances_open_session (fun s s' => settings s' = settings s));
    try (intros; reflexivity).
  intros s1 s2 s3 H1 H2. now rewrite H2.
Qed.

(** X18.  The token refresh at the start of [handleConnect] does not reach
    the connect that triggered it: the handler reads the settings of the
    render it was created in, so the client it creates is authenticated
    with the credentials from before the refresh, and the token that
    [/config] returned is only stored for a later connect. *)
Theorem refreshed_token_is_for_the_next_connect
        (env : Env) (s : State) (t : string) :
  quiet env -> isConnected s = false ->
  agent_not_selected (settings s) = false ->
  configLoaded (settings s) = true ->
  ok (fetch_config env (length (trace s))) = true ->
  config_token (fetch_config env (length (trace s))) = t ->
  t <> EmptyString ->
  let s' := snd (handleConnect env s) in
  clientRef s' = Some (new_RTClient (settings s)) /\
  client_auth (new_RTClient (settings s)) = clientAuth (settings s) /\
  entraToken (settings s') = t /\
  client_auth (new_RTClient (settings s')) = TokenCredential t.
Proof.
  intros Hq Hc Ha Hl Hok Ht Hne. cbv zeta.
  pose proof (handleConnect_quiet_run env s Hq Hc Ha) as Hrun.
  cbv zeta in Hrun. rewrite Hl in Hrun. rewrite Hrun. cbn [snd].
  pose proof (open_session_quiet env (settings s)
                (after [EvFetchConfig]
                   (set_settings
                      (refreshed (fetch_config env (length (trace s))))
                      (set_isConnecting true s))) Hq) as H.
  cbv zeta in H. destruct H as (_ & _ & Hclient & _).
  assert (Hs : entraToken
                 (settings
                    (set_isConnecting false
                       (snd (open_session env (settings s)
                               (after [EvFetchConfig]
                                  (set_settings
                                     (refreshed
                                        (fetch_config env (length (trace s))))
                                     (set_isConnecting true s))))))) = t).
  { cbn [settings set_isConnecting]. rewrite open_session_settings.
    cbn [settings after set_trace set_settings set_isConnecting].
    unfold refreshed. rewrite Hok, Ht.
    assert (Htt : truthy t = true) by now destruct t.
    rewrite Htt. now destruct (truthy (config_endpoint _)). }
  split; [exact Hclient |]. split; [reflexivity |]. split; [exact Hs |].
  unfold new_RTClient, clientAuth. cbn [client_auth]. rewrite Hs.
  now destruct t.
Qed.

Lemma refreshed_token_is_for_the_next_connect_witness :
  client_auth <$> clientRef (snd (handleConnect token_env key_state)) =
  Some (KeyCredential "key-1") /\
  entraToken (settings (snd (handleConnect token_env key_state))) = "fresh-token".
Proof.
  assert (Hne : "fresh-token" <> EmptyString) by discriminate.
  destruct (refreshed_token_is_for_the_next_connect
              token_env key_state "fresh-token"
              (fun _ _ => eq_refl) eq_refl eq_refl eq_refl eq_refl eq_refl Hne)
    as (H1 & _ & H3 & _).
  rewrite H1, H3. split; reflexivity.
Defined.

Lemma disconnect_closes (env : Env) (s : State) :
  clientRef s <> None ->
  throws env (length (trace s)) EvClose = None ->
  connection (snd (disconnect env s)) = (None, false).
Proof.
  intros Hc Hclose. unfold disconnect, bind at 1, get.
  destruct (clientRef s) as [c|]; [clear Hc | now destruct Hc].
  unfold try_catch, bind at 1. rewrite call_run, Hclose. cbn [outcome].
  unfold bind at 1 2 3, modify at 1 2 3.
  set (s1 := set_isConnected false _).
  pose proof (release_devices_connection env s1) as Hrel.
  destruct (release_devices env s1) as [[[]|e] s2]; cbn [snd] in *; exact Hrel.
Qed.

Lemma disconnect_messages (env : Env) (s : State) :
  messages (snd (disconnect env s)) = messages s.
Proof.
  apply (advances_disconnect (fun s s' => messages s' = messages s));
    try (intros; reflexivity).
  intros s1 s2 s3 H1 H2. now rewrite H2.
Qed.

(** X19.  The connect button toggles: when no call fails, [handleConnect]
    from a disconnected session ends connected and holding the client it
    created, and a second [handleConnect] closes that session again: it
    ends disconnected, without a client, and adds nothing to the log. *)
Theorem connect_twice_disconnects (env : Env) (s : State) :
  quiet env -> isConnected s = false ->
  agent_not_selected (settings s) = false ->
  let s1 := snd (handleConnect env s) in
  let s2 := snd (handleConnect env s1) in
  isConnected s1 = true /\
  clientRef s1 = Some (new_RTClient (settings s)) /\
  isConnected s2 = false /\
  clientRef s2 = None /\
  messages s2 = messages s1.
Proof.
  intros Hq Hc Ha. cbv zeta.
  pose proof (handleConnect_quiet_run env s Hq Hc Ha) as Hrun.
  cbv zeta in Hrun. rewrite Hrun. cbn [snd].
  set (s0 := if configLoaded (settings s) then _ else _).
  pose proof (open_session_quiet env (settings s) s0 Hq) as H.
  cbv zeta in H. destruct H as (_ & Hconn & Hclient & _).
  set (s1 := set_isConnecting false (snd (open_session env (settings s) s0))).
  assert (H1 : isConnected s1 = true) by exact Hconn.
  assert (H2 : clientRef s1 = Some (new_RTClient (settings s))) by exact Hclient.
  assert (Hrun2 : handleConnect env s1 =
                  disconnect env (after [EvClearVideo] s1)).
  { unfold handleConnect, bind at 1 2, get. rewrite H1. cbn [negb].
    reflexivity. }
  rewrite Hrun2.
  assert (Hd : connection (snd (disconnect env (after [EvClearVideo] s1))) =
               (None, false)).
  { apply disconnect_closes; [| apply Hq].
    change (clientRef (after [EvClearVideo] s1)) with (clientRef s1).
    rewrite H2. discriminate. }
  injection Hd as Hd1 Hd2.
  repeat (split; [assumption |]).
  now rewrite disconnect_messages.
Qed.

Lemma connect_twice_disconnects_witness :
  isConnected (snd (handleConnect service_env service_state)) = true /\
  isConnected
    (snd (handleConnect service_env (snd (handleConnect service_env service_state)))) =
  false /\
  clientRef
    (snd (handleConnect service_env (snd (handleConnect service_env service_state)))) =
  None.
Proof.
  destruct (connect_twice_disconnects service_env service_state
              (fun _ _ => eq_refl) eq_refl eq_refl) as (H1 & _ & H3 & H4 & _).
  exact (conj H1 (conj H3 H4)).
Defined.

(** X20.  [disconnect] keeps the log, the settings, the session identifier
    and the audio handler, whatever fails.  When no call fails and a client
    is held, nothing is being recorded afterwards, the user is not marked
    as speaking, the peer connection is dropped, and, with an audio
    handler, the recording flag is what the handler reports after the
    session recording is stopped. *)
Theorem disconnect_resets_flags_and_keeps_session (env : Env) (s : State) :
  let s' := snd (disconnect env s) in
  (messages s' = messages s /\ heap s' = heap s /\ settings s' = settings s /\
   sessionId s' = sessionId s /\ audioHandlerRef s' = audioHandlerRef s) /\
  (quiet env -> clientRef s <> None ->
   isRecording s' = false /\ isUserSpeaking s' = false /\
   peerConnection s' = false /\
   (audioHandlerRef s = true ->
    hasRecording s' = recorded_audio env (length (trace s') - 1)) /\
   (audioHandlerRef s = false -> hasRecording s' = hasRecording s)).
Proof.
  cbv zeta. split.
  - apply (advances_disconnect
             (fun s s' =>
                messages s' = messages s /\ heap s' = heap s /\
                settings s' = settings s /\ sessionId s' = sessionId s /\
                audioHandlerRef s' = audioHandlerRef s));
      try (intros; now repeat split).
    intros s1 s2 s3 (A1 & B1 & C1 & D1 & E1) (A2 & B2 & C2 & D2 & E2).
    repeat split; congruence.
  - intros Hq Hc.
    destruct (disconnect env s) as [r s'] eqn:E. cbn [snd].
    unfold disconnect in E. rewrite bind_get in E.
    destruct (clientRef s) as [c|]; [clear Hc | now destruct Hc].
    unfold try_catch in E.
    destruct (bind (call env EvClose) _ s) as [rb sb] eqn:Eb.
    unfold release_devices, audio_call, proactive_call, clock in Eb.
    destruct (audioHandlerRef s) eqn:Hh, (proactiveManagerRef s) eqn:Hp,
             (isRecording s) eqn:Hr.
    all: run_calls Eb Hh Hp Hr.
    all: try match goal with
             | H : throws _ _ _ = Some _ |- _ => rewrite Hq in H; discriminate H
             end.
    all: injection Eb as <- <-; injection E as <- <-;
      cbn [isRecording isUserSpeaking peerConnection hasRecording trace after
           set_trace set_clientRef set_peerConnection set_isConnected
           set_isRecording set_isUserSpeaking set_hasRecording];
      repeat split; try (intros; discriminate); try (intros; assumption);
      try reflexivity.
    all: intros _; rewrite ?length_app; cbn [length]; f_equal; lia.
Qed.

Lemma disconnect_resets_flags_and_keeps_session_witness :
  sessionId (snd (disconnect service_env service_session)) = "sess-1" /\
  isUserSpeaking (snd (disconnect service_env service_session)) = false /\
  hasRecording (snd (disconnect service_env service_session)) = true.
Proof.
  assert (Hc : clientRef service_session <> None) by (vm_compute; discriminate).
  destruct (disconnect_resets_flags_and_keeps_session service_env service_session)
    as ((_ & _ & _ & H1 & _) & H2).
  destruct (H2 (fun _ _ => eq_refl) Hc) as (_ & H3 & _ & H4 & _).
  refine (conj _ (conj H3 _)).
  - rewrite H1. reflexivity.
  - rewrite (H4 eq_refl). reflexivity.
Defined.

(** ** The proactive prompts *)

(** X21.  The two prompts of the proactive manager never throw and never
    show in the interface: they change nothing but the calls made, so the
    log stays as it is.  [whenInactive] sends its system message first and
    requests a response only when that send succeeded; [whenGreeting]
    sends no message and requests a response with the instruction to
    welcome the user.  A failure is only logged to the console, and
    without a client neither prompt does anything. *)
Theorem proactive_prompts_are_silent (env : Env) (s : State) :
  (clientRef s <> None ->
   whenInactive env s = (Val tt, after (inactive_calls env s) s) /\
   whenGreeting env s = (Val tt, after (greeting_calls env s) s)) /\
  (clientRef s = None ->
   whenInactive env s = (Val tt, s) /\ whenGreeting env s = (Val tt, s)).
Proof.
  split; intros Hc.
  - destruct (clientRef s) as [c|] eqn:Hcl; [clear Hc | now destruct Hc].
    split.
    + unfold whenInactive. rewrite bind_get, Hcl. cbn [held when].
      unfold try_catch, inactive_calls. cbv zeta. rewrite bind_call.
      change (message_item role_system _) with inactivity_nudge.
      destruct (throws env (length (trace s)) (EvSendItem inactivity_nudge))
        as [e|].
      * unfold record, modify. f_equal. state_ext.
      * rewrite call_run, trace_after. cbn [length].
        destruct (throws env (length (trace s) + 1) _) as [e|]; cbn [outcome];
          unfold record, modify; f_equal; state_ext.
    + unfold whenGreeting. rewrite bind_get, Hcl. cbn [held when].
      unfold try_catch, greeting_calls. cbv zeta. rewrite call_run.
      destruct (throws env (length (trace s)) _) as [e|]; cbn [outcome];
        unfold record, modify; f_equal; state_ext.
  - unfold whenInactive, whenGreeting. rewrite !bind_get, Hc. now split.
Qed.

Lemma proactive_prompts_are_silent_witness :
  rendered (snd (whenInactive service_env service_session)) =
  rendered service_session /\
  trace (snd (whenInactive service_env service_session)) =
  trace service_session ++ [EvSendItem inactivity_nudge; EvGenerateResponse None].
Proof.
  assert (Hc : clientRef service_session <> None) by (vm_compute; discriminate).
  destruct (proj1 (proactive_prompts_are_silent service_env service_session) Hc)
    as [H _].
  rewrite H. split; reflexivity.
Defined.

(** ** Recording *)

(** X22.  [toggleRecording] never throws, whatever the audio handler and
    the client do.  Without an audio handler it does nothing unless it can
    start a recording.  With one, whenever it does not start a recording
    (one is running, or no client is held) and a turn-detection type is
    selected, it only stops the recording and its animation, in that order:
    nothing is sent to the service, and the recording flag is cleared only
    when both calls succeed; a failure is logged to the console. *)
Theorem toggleRecording_never_throws
        (env : Env) (new_handler initialize start_recording : M unit)
        (commit : M RTInputAudioItem) (td : option TurnDetection) (s : State) :
  let run := toggleRecording env new_handler initialize start_recording commit td in
  let n := length (trace s) in
  fst (run s) = Val tt /\
  (audioHandlerRef s = false -> isRecording s = true \/ clientRef s = None ->
   run s = (Val tt, s)) /\
  (audioHandlerRef s = true -> isRecording s = true \/ clientRef s = None ->
   td <> None ->
   run s =
   (Val tt,
    after (stop_recording_calls env s)
      match throws env n (EvAudio stopRecording),
            throws env (n + 1) (EvAudio stopRecordAnimation) with
      | None, None => set_isRecording false s
      | _, _ => s
      end)).
Proof.
  cbv zeta. unfold toggleRecording. rewrite !bind_get.
  assert (Hstart : isRecording s = true \/ clientRef s = None ->
                   negb (isRecording s) && held (clientRef s) = false).
  { intros [-> | ->]; [reflexivity | apply andb_false_r]. }
  split; [| split].
  - destruct (negb (isRecording s) && held (clientRef s));
      [apply try_catch_record |].
    destruct (audioHandlerRef s); [apply try_catch_record | reflexivity].
  - intros Hh Hc. now rewrite (Hstart Hc), Hh.
  - intros Hh Hc Htd. rewrite (Hstart Hc), Hh.
    destruct td as [t|]; [clear Htd | now destruct Htd].
    unfold try_catch, stop_recording_calls. cbv zeta.
    rewrite bind_call.
    destruct (throws env (length (trace s)) (EvAudio stopRecording)) as [e|].
    + unfold record, modify. f_equal. state_ext.
    + rewrite bind_call, trace_after. cbn [length].
      destruct (throws env (length (trace s) + 1) (EvAudio stopRecordAnimation))
        as [e|].
      * unfold record, modify. f_equal. state_ext.
      * rewrite bind_ret. unfold modify. f_equal. state_ext.
Qed.

Lemma toggleRecording_never_throws_witness :
  toggleRecording service_env (ret tt) (ret tt) (ret tt) (ret utterance)
    (turnDetectionType default_panel) (set_isRecording true service_session) =
  (Val tt,
   after [EvAudio stopRecording; EvAudio stopRecordAnimation] service_session).
Proof.
  refine (eq_trans
            (proj2 (proj2 (toggleRecording_never_throws
                             service_env (ret tt) (ret tt) (ret tt) (ret utterance)
                             (turnDetectionType default_panel)
                             (set_isRecording true service_session)))
               eq_refl (or_introl eq_refl) _) _);
    [discriminate | vm_compute; reflexivity].
Defined.

(** ** The configuration request at start-up *)

Lemma configLoaded_apply_agent_config (a : AgentConfig) (f : Form) :
  configLoaded (fst (apply_agent_config a f)) = configLoaded (fst f).
Proof.
  destruct f as [cfg p]. unfold apply_agent_config.
  destruct (agent_entries a) as [[|entry [|entry' entries]]|]; reflexivity.
Qed.

(** X23.  [fetchConfig] marks the configuration as loaded in every case
    but a 404 answer: a request that fails, or an answer that cannot be
    read, counts as loaded and changes nothing else, so [handleConnect]
    asks [/config] again before each connect.  A configured agent is
    selected automatically exactly when the answer lists one agent; with
    none or several the selected agent is left as it was. *)
Theorem fetchConfig_marks_config_loaded (answer : ConfigOutcome) (f : Form) :
  configLoaded (fst (fetchConfig answer f)) =
  match answer with
  | config_not_found => false
  | _ => true
  end /\
  (forall e, fetchConfig (config_failed e) f = (set_configLoaded true (fst f), snd f)) /\
  (forall e env s,
     hd_error
       (refresh_calls env
          (set_settings (fun _ => fst (fetchConfig (config_failed e) f)) s)) =
     Some EvFetchConfig) /\
  (forall c a entries,
     answer = config_found c -> agent c = Some a ->
     project_name a <> EmptyString -> agent_entries a = Some entries ->
     agentId (fst (fetchConfig answer f)) =
     match entries with
     | [entry] => entry_id entry
     | _ => agentId (fst f)
     end).
Proof.
  destruct f as [cfg p]. refine (conj _ (conj _ (conj _ _))).
  - destruct answer as [e| |c]; try reflexivity.
    unfold fetchConfig.
    destruct (match agent c with Some _ => _ | None => _ end) as [cfg3 p2].
    reflexivity.
  - reflexivity.
  - intros e env s. unfold refresh_calls.
    cbn [fetchConfig fst settings set_settings configLoaded set_configLoaded].
    reflexivity.
  - intros c a entries -> Ha Hp He. unfold fetchConfig. rewrite Ha.
    assert (Ht : truthy (project_name a) = true) by now destruct (project_name a).
    rewrite Ht. unfold apply_agent_config. rewrite He.
    destruct (truthy (fetched_endpoint c)), (truthy (fetched_token c)),
             entries as [|entry [|entry' entries]]; reflexivity.
Qed.

Lemma fetchConfig_marks_config_loaded_witness :
  agentId
    (fst (fetchConfig (config_found single_agent_config)
            (default_settings, default_panel))) = "agent-1".
Proof.
  refine (proj2 (proj2 (proj2 (fetchConfig_marks_config_loaded
                                 (config_found single_agent_config)
                                 (default_settings, default_panel))))
            single_agent_config single_agent
            [{| entry_id := "agent-1"; entry_name := "Helper" |}]
            eq_refl eq_refl _ eq_refl).
  discriminate.
Defined.

(** ** Downloading the recording *)

Lemma replace_colon_dot_length (s : string) :
  String.length (replace_colon_dot s) = String.length s.
Proof. induction s as [|c s IH]; cbn; [reflexivity | now rewrite IH]. Qed.

Lemma length_append (a b : string) :
  String.length (a +:+ b) = String.length a + String.length b.
Proof.
  induction a as [|c a IH]; [reflexivity |].
  rewrite append_cons. cbn [String.length]. now rewrite IH.
Qed.

Lemma replace_colon_dot_clean (s : string) (c : ascii) :
  In c (list_ascii_of_string (replace_colon_dot s)) -> c <> colon /\ c <> dot.
Proof.
  induction s as [|x s IH]; cbn [replace_colon_dot list_ascii_of_string In];
    [intros [] |].
  intros [<- | H]; [| exact (IH H)].
  destruct (Ascii.eqb x colon) eqn:E1; cbn [orb].
  - split; discriminate.
  - destruct (Ascii.eqb x dot) eqn:E2.
    + split; discriminate.
    + apply Ascii.eqb_neq in E1, E2. now split.
Qed.

(** X24.  The download offered after a disconnect is labelled with the
    session that was just closed: [disconnect] keeps the audio handler and
    the session identifier, whatever fails, so [downloadRecording] passes
    the identifier of the closed session.  The file name is the timestamp
    with every colon and full stop replaced by a hyphen, after the prefix
    conversation-; it has the length of the timestamp plus 13. *)
Theorem download_names_the_closed_session (env : Env) (s : State) (iso : string) :
  audioHandlerRef s = true ->
  downloadRecording iso (snd (disconnect env s)) =
  Some ("conversation-" +:+ replace_colon_dot iso, sessionId s) /\
  String.length ("conversation-" +:+ replace_colon_dot iso) =
  13 + String.length iso /\
  (forall c, In c (list_ascii_of_string (replace_colon_dot iso)) ->
             c <> colon /\ c <> dot).
Proof.
  intros Hh.
  assert (H : sessionId (snd (disconnect env s)) = sessionId s /\
              audioHandlerRef (snd (disconnect env s)) = audioHandlerRef s).
  { apply (advances_disconnect
             (fun s s' => sessionId s' = sessionId s /\
                          audioHandlerRef s' = audioHandlerRef s));
      try (intros; now split).
    intros s1 s2 s3 [A1 B1] [A2 B2]. split; congruence. }
  destruct H as [Hid Ha]. unfold downloadRecording. rewrite Ha, Hh, Hid.
  split; [reflexivity |]. split.
  - now rewrite length_append, replace_colon_dot_length.
  - apply replace_colon_dot_clean.
Qed.

Lemma download_names_the_closed_session_witness :
  downloadRecording "2026-10-03T16:05:09.000Z"
    (snd (disconnect service_env service_session)) =
  Some ("conversation-2026-10-03T16-05-09-000Z", "sess-1").
Proof.
  exact (proj1 (download_names_the_closed_session
                  service_env service_session "2026-10-03T16:05:09.000Z" eq_refl)).
Defined.
